(** * SPICE server: channel fan-out core and WebSocket framer

    A shallow embedding of [server/red-channel.c] and [server/websocket.c]
    together with the properties their specification states about them.

    Fixed-width C integers are carried as [Z]; every conversion the C code
    performs (to [uint8_t], [uint64_t], [int]) is written out.  Arrays are
    lists read and updated by index.  The raw stream underneath the framer
    and [errno] form an explicit environment that every call threads. *)

From Stdlib Require Import ZArith Zbitwise List Bool Lia.
From Stdlib Require String Ascii.
Import (notations) String.
From stdpp Require Import base list.
Import ListNotations.
Local Open Scope Z_scope.

(** ** C integer conversions *)
Module CInt.

Definition to_uint8 (x : Z) : Z := x mod 2 ^ 8.
Definition to_uint32 (x : Z) : Z := x mod 2 ^ 32.
Definition to_uint64 (x : Z) : Z := x mod 2 ^ 64.

(** Conversion to a 32-bit two's complement [int]. *)
Definition to_int (x : Z) : Z := (x + 2 ^ 31) mod 2 ^ 32 - 2 ^ 31.

Definition INT_MAX : Z := 2 ^ 31 - 1.

(** The values an [int] takes when it is converted to [uint64_t]. *)
Definition int_as_uint64 (v : Z) : Prop :=
  0 <= v < 2 ^ 31 \/ 2 ^ 64 - 2 ^ 31 <= v < 2 ^ 64.

(** [x << i] on an [int] operand (a [uint8_t] is promoted to [int] before
    it is shifted).  For [0 <= i < 32] and a representable result this is
    [x * 2 ^ i].  The C standard leaves a count of 32 or more undefined;
    the model takes what x86-64 and AArch64 compute for a 32-bit shift:
    the count modulo 32, the result kept in 32 bits. *)
Definition int_shl (x i : Z) : Z := to_int (Z.shiftl x (i mod 32)).

End CInt.

(** ** red-channel.c *)
Module Channel.
Import CInt.

(** *** Aggregate queries over the connected channel-clients

    The channel-client object lives in [red-channel-client.c]; the channel
    only calls its accessors, which are parameters here. *)
Section Aggregates.
Variable RedChannelClient : Type.
Variable red_channel_client_is_blocked : RedChannelClient -> bool.
Variable red_channel_client_no_item_being_sent : RedChannelClient -> bool.
(** [uint32_t] pipe size. *)
Variable red_channel_client_get_pipe_size : RedChannelClient -> Z.
Variable red_channel_client_test_remote_common_cap :
  RedChannelClient -> Z -> bool.
Variable red_channel_client_test_remote_cap : RedChannelClient -> Z -> bool.
(** [red_channel_client_get_stream(rcc)->socket]. *)
Variable red_channel_client_get_socket : RedChannelClient -> Z.

(** The fields of [RedChannelPrivate] the queries read. *)
Record RedChannel := mk_channel {
  chan_type : Z;
  chan_id : Z;
  handle_acks : bool;
  clients : list RedChannelClient;
  migration_flags : Z
}.

(** [FOREACH_CLIENT] with a body that returns [FALSE] at the first
    channel-client failing [p], and [TRUE] after the loop. *)
Fixpoint foreach_all (p : RedChannelClient -> bool)
    (l : list RedChannelClient) : bool :=
  match l with
  | [] => true
  | rcc :: l' => if negb (p rcc) then false else foreach_all p l'
  end.

(** [FOREACH_CLIENT] with a body that returns [TRUE] at the first
    channel-client satisfying [p], and [FALSE] after the loop. *)
Fixpoint foreach_any (p : RedChannelClient -> bool)
    (l : list RedChannelClient) : bool :=
  match l with
  | [] => false
  | rcc :: l' => if p rcc then true else foreach_any p l'
  end.

Definition red_channel_test_remote_common_cap (channel : RedChannel)
    (cap : Z) : bool :=
  foreach_all (fun rcc => red_channel_client_test_remote_common_cap rcc cap)
              (clients channel).

Definition red_channel_test_remote_cap (channel : RedChannel)
    (cap : Z) : bool :=
  foreach_all (fun rcc => red_channel_client_test_remote_cap rcc cap)
              (clients channel).

(** [channel && channel->priv->clients]; a NULL channel is [None]. *)
Definition red_channel_is_connected (channel : option RedChannel) : bool :=
  match channel with
  | None => false
  | Some c => match clients c with [] => false | _ :: _ => true end
  end.

Definition red_channel_get_n_clients (channel : RedChannel) : Z :=
  Z.of_nat (length (clients channel)).

Definition red_channel_all_blocked (channel : option RedChannel) : bool :=
  match channel with
  | None => false
  | Some c =>
      match clients c with
      | [] => false
      | _ :: _ => foreach_all red_channel_client_is_blocked (clients c)
      end
  end.

Definition red_channel_any_blocked (channel : RedChannel) : bool :=
  foreach_any red_channel_client_is_blocked (clients channel).

Definition red_channel_get_first_socket (channel : option RedChannel) : Z :=
  match channel with
  | None => -1
  | Some c =>
      match clients c with
      | [] => -1
      | rcc :: _ => red_channel_client_get_socket rcc
      end
  end.

Definition red_channel_no_item_being_sent (channel : RedChannel) : bool :=
  foreach_all red_channel_client_no_item_being_sent (clients channel).

Definition red_channel_max_pipe_size (channel : RedChannel) : Z :=
  fold_left (fun pipe_size rcc =>
               Z.max pipe_size (red_channel_client_get_pipe_size rcc))
            (clients channel) 0.

(** [~0] converted to [uint32_t]. *)
Definition all_ones32 : Z := to_uint32 (Z.lnot 0).

Definition red_channel_min_pipe_size (channel : RedChannel) : Z :=
  let pipe_size :=
    fold_left (fun pipe_size rcc =>
                 Z.min pipe_size (red_channel_client_get_pipe_size rcc))
              (clients channel) all_ones32 in
  if pipe_size =? all_ones32 then 0 else pipe_size.

Definition red_channel_sum_pipes_size (channel : RedChannel) : Z :=
  fold_left (fun sum rcc =>
               to_uint32 (sum + red_channel_client_get_pipe_size rcc))
            (clients channel) 0.

End Aggregates.

Arguments mk_channel {RedChannelClient}.
Arguments clients {RedChannelClient}.
Arguments migration_flags {RedChannelClient}.
Arguments red_channel_is_connected {RedChannelClient}.
Arguments red_channel_get_n_clients {RedChannelClient}.

(** *** Construction *)
Section Construction.
(** The type of a class callback (a C function pointer); a NULL pointer
    is [None]. *)
Variable callback : Type.
(** The bit of the migration flags that asks for data transfer; its value
    comes with the protocol's headers. *)
Variable SPICE_MIGRATE_NEED_DATA_TRANSFER : Z.

Record RedChannelClass := mk_class {
  config_socket : option callback;
  on_disconnect : option callback;
  send_item : option callback;
  alloc_recv_buf : option callback;
  release_recv_buf : option callback;
  handle_message : option callback;
  handle_parsed : option callback;
  parser : option callback;
  handle_migrate_flush_mark : option callback;
  handle_migrate_data : option callback
}.

(** The fields of [incoming_cb] that [red_channel_constructed] fills. *)
Record IncomingHandlerInterface := mk_incoming {
  alloc_msg_buf : option callback;
  release_msg_buf : option callback;
  in_handle_message : option callback;
  in_handle_parsed : option callback;
  in_parser : option callback
}.

Definition is_set (p : option callback) : bool :=
  match p with Some _ => true | None => false end.

(** [None] is the abort of a failed [spice_assert]. *)
Definition red_channel_constructed (klass : RedChannelClass)
    (flags : Z) : option IncomingHandlerInterface :=
  if negb (is_set (config_socket klass) && is_set (on_disconnect klass) &&
           is_set (alloc_recv_buf klass) && is_set (release_recv_buf klass))
  then None
  else if negb (is_set (handle_migrate_data klass) ||
                (Z.land flags SPICE_MIGRATE_NEED_DATA_TRANSFER =? 0))
  then None
  else Some (mk_incoming (alloc_recv_buf klass) (release_recv_buf klass)
                         (handle_message klass) (handle_parsed klass)
                         (parser klass)).

(** What the specification asks of a class and its migration flags. *)
Definition required_callbacks (klass : RedChannelClass) : Prop :=
  is_set (config_socket klass) = true /\
  is_set (on_disconnect klass) = true /\
  is_set (alloc_recv_buf klass) = true /\
  is_set (release_recv_buf klass) = true.

Definition needs_data_transfer (flags : Z) : Prop :=
  Z.land flags SPICE_MIGRATE_NEED_DATA_TRANSFER <> 0.

End Construction.

Arguments mk_class {callback}.
Arguments handle_migrate_data {callback}.
Arguments is_set {callback}.
Arguments red_channel_constructed {callback}.
Arguments required_callbacks {callback}.

(** The value the protocol gives the flag, for running examples. *)
Definition need_data_transfer_bit : Z := 2.

(** *** RedClient: seamless-migration accounting *)

(** What the function does to the outside, in order. *)
Inductive event :=
| EvLock                       (* pthread_mutex_lock(&client->lock) *)
| EvUnlock                     (* pthread_mutex_unlock(&client->lock) *)
| EvSeamlessMigrateDstComplete (* main_dispatcher_seamless_migrate_dst_complete *).

Record RedClient := mk_client {
  during_target_migrate : bool;
  seamless_migrate : bool;
  num_migrated_channels : Z;   (* int *)
  refs : Z
}.

Definition red_client_seamless_migration_done_for_channel
    (client : RedClient) : bool * RedClient * list event :=
  let log := [EvLock] in
  let client :=
    mk_client (during_target_migrate client) (seamless_migrate client)
              (to_int (num_migrated_channels client - 1)) (refs client) in
  let '(ret, client, log) :=
    if num_migrated_channels client =? 0 then
      (true,
       mk_client false false (num_migrated_channels client) (refs client),
       log ++ [EvSeamlessMigrateDstComplete])
    else (false, client, log) in
  (ret, client, log ++ [EvUnlock]).

Definition is_notify (e : event) : bool :=
  match e with EvSeamlessMigrateDstComplete => true | _ => false end.

Definition notifications (log : list event) : nat :=
  length (filter (fun e => is_notify e = true) log).

(** *** Capabilities *)

(** [num_common_caps], [common_caps], [num_caps], [caps] of the channel's
    [local_caps]. *)
Record RedChannelCapabilities := mk_caps {
  num_common_caps : Z;      (* int *)
  common_caps : list Z;     (* uint32_t * *)
  num_caps : Z;             (* int *)
  caps : list Z             (* uint32_t * *)
}.

(** [add_capability(&caps, &num_caps, cap)]: the array and its count
    afterwards.  [spice_renew] keeps the [nbefore] words there were, the
    [memset] zeroes the words added. *)
Definition add_capability (caps : list Z) (num_caps : Z) (cap : Z)
    : list Z * Z :=
  let nbefore := num_caps in
  let n := to_int (to_uint32 cap / 32) in
  let num_caps := Z.max num_caps (n + 1) in
  let caps :=
    take (Z.to_nat nbefore) caps ++ replicate (Z.to_nat (num_caps - nbefore)) 0 in
  let word := default 0 (caps !! Z.to_nat n) in
  let caps :=
    <[Z.to_nat n := Z.lor word (to_uint32 (int_shl 1 (to_uint32 cap mod 32)))]>
      caps in
  (caps, num_caps).

Definition red_channel_set_common_cap (local_caps : RedChannelCapabilities)
    (cap : Z) : RedChannelCapabilities :=
  let '(c, n) :=
    add_capability (common_caps local_caps) (num_common_caps local_caps) cap in
  mk_caps n c (num_caps local_caps) (caps local_caps).

Definition red_channel_set_cap (local_caps : RedChannelCapabilities)
    (cap : Z) : RedChannelCapabilities :=
  let '(c, n) := add_capability (caps local_caps) (num_caps local_caps) cap in
  mk_caps (num_common_caps local_caps) (common_caps local_caps) n c.

(** Bit [cap % 32] of word [cap / 32], a word past the end counting as
    zero. *)
Definition cap_bit (caps : list Z) (cap : Z) : bool :=
  Z.testbit (default 0 (caps !! Z.to_nat (cap / 32))) (cap mod 32).

(** *** The list of connected channel-clients *)
Section ClientList.
Variable RedChannelClient : Type.
(** Channel-clients are compared as pointers. *)
Context `{EqDecision RedChannelClient}.
(** [channel == red_channel_client_get_channel(rcc)]. *)
Variable is_channel_of : RedChannel RedChannelClient -> RedChannelClient -> bool.
Variable red_channel_client_is_waiting_for_migrate_data :
  RedChannelClient -> bool.

Definition set_clients (l : list RedChannelClient)
    (channel : RedChannel RedChannelClient) : RedChannel RedChannelClient :=
  mk_channel (chan_type _ channel) (chan_id _ channel) (handle_acks _ channel)
             l (migration_flags channel).

(** GLib's [g_list_remove]: the first element equal to [data] is taken
    out; [g_list_remove_link] of the link [g_list_find] returns does the
    same. *)
Fixpoint g_list_remove (l : list RedChannelClient) (data : RedChannelClient)
    : list RedChannelClient :=
  match l with
  | [] => []
  | x :: l' => if decide (x = data) then l' else x :: g_list_remove l' data
  end.

Fixpoint g_list_find (l : list RedChannelClient) (data : RedChannelClient)
    : bool :=
  match l with
  | [] => false
  | x :: l' => if decide (x = data) then true else g_list_find l' data
  end.

Definition red_channel_add_client (channel : RedChannel RedChannelClient)
    (rcc : RedChannelClient) : RedChannel RedChannelClient :=
  set_clients (rcc :: clients channel) channel.

(** The thread test only warns; the two failed preconditions return. *)
Definition red_channel_remove_client (channel : RedChannel RedChannelClient)
    (rcc : RedChannelClient) : RedChannel RedChannelClient :=
  if negb (is_channel_of channel rcc) then channel
  else if negb (g_list_find (clients channel) rcc) then channel
  else set_clients (g_list_remove (clients channel) rcc) channel.

(** [None] is the abort of the failed [spice_assert]. *)
Definition red_channel_is_waiting_for_migrate_data
    (channel : RedChannel RedChannelClient) : option bool :=
  let n_clients := Z.of_nat (length (clients channel)) in
  if negb (red_channel_is_connected (Some channel)) then Some false
  else if n_clients >? 1 then Some false
  else if negb (n_clients =? 1) then None
  else
    match clients channel with
    | rcc :: _ => Some (red_channel_client_is_waiting_for_migrate_data rcc)
    | [] => None
    end.

(** *** Fan-out of new pipe items *)
Variable RedPipeItem : Type.

(** The loop of [red_channel_pipes_create_batch]: [creator(rcc, data, num++)]
    for each channel-client, the items that are not NULL handed to
    [pipe_add] in that order; the calls of [pipe_add] are the log. *)
Fixpoint create_batch_loop (creator : RedChannelClient -> Z -> option RedPipeItem)
    (l : list RedChannelClient) (num n : Z)
    (added : list (RedChannelClient * RedPipeItem))
    : Z * list (RedChannelClient * RedPipeItem) :=
  match l with
  | [] => (n, added)
  | rcc :: l' =>
      match creator rcc num with
      | Some item =>
          create_batch_loop creator l' (to_int (num + 1)) (to_int (n + 1))
                            (added ++ [(rcc, item)])
      | None => create_batch_loop creator l' (to_int (num + 1)) n added
      end
  end.

Definition red_channel_pipes_create_batch (channel : RedChannel RedChannelClient)
    (creator : RedChannelClient -> Z -> option RedPipeItem)
    : Z * list (RedChannelClient * RedPipeItem) :=
  create_batch_loop creator (clients channel) 0 0 [].

End ClientList.

Arguments g_list_remove {RedChannelClient _}.
Arguments g_list_find {RedChannelClient _}.
Arguments red_channel_add_client {RedChannelClient}.
Arguments red_channel_remove_client {RedChannelClient _}.
Arguments red_channel_is_waiting_for_migrate_data {RedChannelClient}.
Arguments create_batch_loop {RedChannelClient RedPipeItem}.
Arguments red_channel_pipes_create_batch {RedChannelClient RedPipeItem}.

(** The items [creator] makes for the channel-clients of [l], each called
    with its position counted from [num]: what the loop of
    [red_channel_pipes_create_batch] is compared with. *)
Definition created_from {RedChannelClient RedPipeItem : Type}
    (creator : RedChannelClient -> Z -> option RedPipeItem) (num : Z)
    (l : list RedChannelClient) : list (RedChannelClient * RedPipeItem) :=
  omap (fun '(i, rcc) => option_map (pair rcc) (creator rcc i))
       (imap (fun i rcc => (num + Z.of_nat i, rcc)) l).

(** *** Client callbacks *)
Section ClientCallbacks.
Variable callback : Type.
(** The channel type of the main channel, from the protocol's headers. *)
Variable SPICE_CHANNEL_MAIN : Z.

Record ClientCbs := mk_cbs {
  connect : option callback;
  disconnect : option callback;
  migrate : option callback
}.

(** [None] is the abort of the failed [spice_assert]. *)
Definition red_channel_register_client_cbs (chan_type : Z)
    (cbs client_cbs : ClientCbs) : option ClientCbs :=
  if negb (is_set (connect client_cbs) || (chan_type =? SPICE_CHANNEL_MAIN))
  then None
  else
    let cbs := mk_cbs (connect client_cbs) (disconnect cbs) (migrate cbs) in
    let cbs :=
      if is_set (disconnect client_cbs)
      then mk_cbs (connect cbs) (disconnect client_cbs) (migrate cbs) else cbs in
    let cbs :=
      if is_set (migrate client_cbs)
      then mk_cbs (connect cbs) (disconnect cbs) (migrate client_cbs) else cbs in
    Some cbs.

End ClientCallbacks.

Arguments mk_cbs {callback}.
Arguments connect {callback}.
Arguments disconnect {callback}.
Arguments migrate {callback}.
Arguments red_channel_register_client_cbs {callback}.

(** *** RedClient: channels and migration *)
Section ClientChannels.
Variable RedChannelClient : Type.
(** [red_channel_client_set_migration_seamless(rcc)]: whether the
    channel-client will wait for migration data. *)
Variable red_channel_client_set_migration_seamless : RedChannelClient -> bool.
(** The type and id of the channel of a channel-client, both [uint32_t]. *)
Variable channel_type_id : RedChannelClient -> Z * Z.

(** What the calls below do to the outside, in order. *)
Inductive client_event :=
| CeLock
| CeUnlock
| CeError                            (* spice_error("unexpected") *)
| CeSemiSeamlessComplete (rcc : RedChannelClient)
    (* red_channel_client_semi_seamless_migration_complete(rcc) *)
| CeRedsSemiSeamlessComplete
    (* reds_on_client_semi_seamless_migrate_complete(client->reds, client) *).

(** [red_client_new(reds, migrated)]; the allocation is zeroed. *)
Definition red_client_new (migrated : bool) : RedClient :=
  mk_client migrated false 0 1.

Definition set_num_migrated_channels (n : Z) (client : RedClient) : RedClient :=
  mk_client (during_target_migrate client) (seamless_migrate client) n
            (refs client).

(** The loop over the client's channel-clients that counts the ones
    accepting seamless migration. *)
Fixpoint count_seamless (l : list RedChannelClient) (client : RedClient)
    : RedClient :=
  match l with
  | [] => client
  | rcc :: l' =>
      count_seamless l'
        (if red_channel_client_set_migration_seamless rcc
         then set_num_migrated_channels
                (to_int (num_migrated_channels client + 1)) client
         else client)
  end.

(** [None] is the abort of the failed [spice_assert]. *)
Definition red_client_set_migration_seamless (client : RedClient)
    (channels : list RedChannelClient) : option RedClient :=
  if negb (during_target_migrate client) then None
  else
    let client :=
      mk_client (during_target_migrate client) true
                (num_migrated_channels client) (refs client) in
    Some (count_seamless channels client).

(** client->lock should be locked *)
Definition red_client_add_channel (client : RedClient)
    (channels : list RedChannelClient) (rcc : RedChannelClient)
    : RedClient * list RedChannelClient :=
  let channels := rcc :: channels in
  if during_target_migrate client && seamless_migrate client then
    if red_channel_client_set_migration_seamless rcc
    then (set_num_migrated_channels
            (to_int (num_migrated_channels client + 1)) client, channels)
    else (client, channels)
  else (client, channels).

Definition red_client_semi_seamless_migrate_complete (client : RedClient)
    (channels : list RedChannelClient) : RedClient * list client_event :=
  if negb (during_target_migrate client) || seamless_migrate client
  then (client, [CeLock; CeError; CeUnlock])
  else
    (mk_client false (seamless_migrate client) (num_migrated_channels client)
               (refs client),
     [CeLock] ++ map CeSemiSeamlessComplete channels ++
     [CeUnlock; CeRedsSemiSeamlessComplete]).

(** client->lock should be locked.  [type] and [id] are [int]: compared
    with the [uint32_t] fields they are converted to [uint32_t]. *)
Fixpoint red_client_get_channel (channels : list RedChannelClient)
    (type id : Z) : option RedChannelClient :=
  match channels with
  | [] => None
  | rcc :: channels' =>
      let '(t, i) := channel_type_id rcc in
      if (t =? to_uint32 type) && (i =? to_uint32 id) then Some rcc
      else red_client_get_channel channels' type id
  end.

End ClientChannels.

Arguments CeLock {RedChannelClient}.
Arguments CeUnlock {RedChannelClient}.
Arguments CeError {RedChannelClient}.
Arguments CeSemiSeamlessComplete {RedChannelClient}.
Arguments CeRedsSemiSeamlessComplete {RedChannelClient}.
Arguments count_seamless {RedChannelClient}.
Arguments red_client_set_migration_seamless {RedChannelClient}.
Arguments red_client_add_channel {RedChannelClient}.
Arguments red_client_semi_seamless_migrate_complete {RedChannelClient}.
Arguments red_client_get_channel {RedChannelClient}.

(** A client's migration flags agree: seamless migration only during
    migration at the target. *)
Definition migration_flags_agree (client : RedClient) : Prop :=
  seamless_migrate client = true -> during_target_migrate client = true.

(** [k] calls of [red_client_seamless_migration_done_for_channel] in a row:
    what each returned, the client and everything that happened. *)
Fixpoint seamless_done_calls (k : nat) (client : RedClient)
    : list bool * RedClient * list event :=
  match k with
  | O => ([], client, [])
  | S k' =>
      let '(ret, client, log) :=
        red_client_seamless_migration_done_for_channel client in
      let '(rets, client, log') := seamless_done_calls k' client in
      (ret :: rets, client, log ++ log')
  end.

End Channel.

(** ** websocket.c *)
Module WebSocket.
Import CInt.

(** Constants and masks of RFC 6455, as the source defines them. *)
Definition FIN_FLAG : Z := 0x80.
Definition RSV_MASK : Z := 0x70.
Definition TYPE_MASK : Z := 0x0F.
Definition CONTROL_FRAME_MASK : Z := 0x8.

Definition CONTINUATION_FRAME : Z := 0x0.
Definition TEXT_FRAME : Z := 0x1.
Definition BINARY_FRAME : Z := 0x2.
Definition CLOSE_FRAME : Z := 0x8.
Definition PING_FRAME : Z := 0x9.
Definition PONG_FRAME : Z := 0xA.

Definition LENGTH_MASK : Z := 0x7F.
Definition LENGTH_16BIT : Z := 0x7E.
Definition LENGTH_64BIT : Z := 0x7F.

Definition MASK_FLAG : Z := 0x80.

Definition WEBSOCKET_MAX_HEADER_SIZE : Z := 1 + 9 + 4.

(** [errno] values (Linux). *)
Definition EINTR : Z := 4.
Definition EIO : Z := 5.
Definition EAGAIN : Z := 11.
Definition EPIPE : Z := 32.

(** [buf[i]] for a byte array held as a list. *)
Definition byte_at (buf : list Z) (i : Z) : Z :=
  default 0 (buf !! Z.to_nat i).

Record websocket_frame_t := mk_frame {
  type : Z;                (* uint8_t *)
  header : list Z;         (* uint8_t [WEBSOCKET_MAX_HEADER_SIZE] *)
  header_pos : Z;          (* int *)
  frame_ready : bool;
  masked : bool;
  mask : list Z;           (* uint8_t [4] *)
  relayed : Z;             (* uint64_t *)
  expected_len : Z         (* uint64_t *)
}.

Record RedsWebSocket := mk_ws {
  closed : bool;
  read_frame : websocket_frame_t;
  write_remainder : Z;     (* uint64_t *)
  write_header : list Z;   (* uint8_t [WEBSOCKET_MAX_HEADER_SIZE] *)
  write_header_pos : Z;    (* uint8_t *)
  write_header_len : Z;    (* uint8_t *)
  close_pending : bool
}.

(** Field updates. *)
Definition set_type v f :=
  mk_frame v (header f) (header_pos f) (frame_ready f) (masked f) (mask f)
           (relayed f) (expected_len f).
Definition set_header v f :=
  mk_frame (type f) v (header_pos f) (frame_ready f) (masked f) (mask f)
           (relayed f) (expected_len f).
Definition set_header_pos v f :=
  mk_frame (type f) (header f) v (frame_ready f) (masked f) (mask f)
           (relayed f) (expected_len f).
Definition set_frame_ready v f :=
  mk_frame (type f) (header f) (header_pos f) v (masked f) (mask f)
           (relayed f) (expected_len f).
Definition set_masked v f :=
  mk_frame (type f) (header f) (header_pos f) (frame_ready f) v (mask f)
           (relayed f) (expected_len f).
Definition set_mask v f :=
  mk_frame (type f) (header f) (header_pos f) (frame_ready f) (masked f) v
           (relayed f) (expected_len f).
Definition set_relayed v f :=
  mk_frame (type f) (header f) (header_pos f) (frame_ready f) (masked f)
           (mask f) v (expected_len f).
Definition set_expected_len v f :=
  mk_frame (type f) (header f) (header_pos f) (frame_ready f) (masked f)
           (mask f) (relayed f) v.

Definition set_closed v ws :=
  mk_ws v (read_frame ws) (write_remainder ws) (write_header ws)
        (write_header_pos ws) (write_header_len ws) (close_pending ws).
Definition set_read_frame v ws :=
  mk_ws (closed ws) v (write_remainder ws) (write_header ws)
        (write_header_pos ws) (write_header_len ws) (close_pending ws).
Definition set_write_remainder v ws :=
  mk_ws (closed ws) (read_frame ws) v (write_header ws)
        (write_header_pos ws) (write_header_len ws) (close_pending ws).
Definition set_write_header v ws :=
  mk_ws (closed ws) (read_frame ws) (write_remainder ws) v
        (write_header_pos ws) (write_header_len ws) (close_pending ws).
Definition set_write_header_pos v ws :=
  mk_ws (closed ws) (read_frame ws) (write_remainder ws) (write_header ws)
        v (write_header_len ws) (close_pending ws).
Definition set_write_header_len v ws :=
  mk_ws (closed ws) (read_frame ws) (write_remainder ws) (write_header ws)
        (write_header_pos ws) v (close_pending ws).
Definition set_close_pending v ws :=
  mk_ws (closed ws) (read_frame ws) (write_remainder ws) (write_header ws)
        (write_header_pos ws) (write_header_len ws) v.

(** [memset(frame, 0, sizeof( *frame))]. *)
Definition websocket_clear_frame (_ : websocket_frame_t) : websocket_frame_t :=
  mk_frame 0 (replicate (Z.to_nat WEBSOCKET_MAX_HEADER_SIZE) 0) 0 false false
           (replicate 4 0) 0 0.

(** The handle [g_new0] returns: every field zero. *)
Definition ws_zero : RedsWebSocket :=
  mk_ws false
        (mk_frame 0 (replicate (Z.to_nat WEBSOCKET_MAX_HEADER_SIZE) 0) 0 false
                  false (replicate 4 0) 0 0)
        0 (replicate (Z.to_nat WEBSOCKET_MAX_HEADER_SIZE) 0) 0 0 false.

(** [extract_length], with the shift of the promoted [int] operand as a
    parameter.  [buf] is the array from the pointer on; the result is the
    length and the updated [*used]. *)
Definition extract_length_with (shl : Z -> Z -> Z) (buf : list Z)
    (used : Z) : Z * Z :=
  let outlen := Z.land (byte_at buf 0) LENGTH_MASK in
  let used := used + 1 in
  if outlen =? LENGTH_64BIT then
    let used := used + 8 in
    let outlen := 0 in
    (* for (i = 56; i >= 0; i -= 8) outlen |= ( *buf++) << i; *)
    let '(outlen, _) :=
      fold_left (fun '(outlen, p) i =>
                   (Z.lor outlen (to_uint64 (shl (byte_at buf p) i)), p + 1))
                [56; 48; 40; 32; 24; 16; 8; 0] (outlen, 1) in
    (outlen, used)
  else if outlen =? LENGTH_16BIT then
    let used := used + 2 in
    (to_uint64 (Z.lor (shl (byte_at buf 1) 8) (byte_at buf 2)), used)
  else (outlen, used).

Definition extract_length : list Z -> Z -> Z * Z :=
  extract_length_with int_shl.

Definition frame_bytes_needed (frame : websocket_frame_t) : Z :=
  let needed := 2 in
  if header_pos frame <? needed then needed - header_pos frame
  else
    let l := Z.land (byte_at (header frame) 1) LENGTH_MASK in
    let needed :=
      if l =? LENGTH_64BIT then needed + 8
      else if l =? LENGTH_16BIT then needed + 2
      else needed in
    let needed :=
      if negb (Z.land (byte_at (header frame) 1) MASK_FLAG =? 0)
      then needed + 4 else needed in
    needed - header_pos frame.

(** Returns success or error, and the frame as the call leaves it. *)
Definition websocket_get_frame_header (frame : websocket_frame_t)
    : bool * websocket_frame_t :=
  let used := 0 in
  if frame_bytes_needed frame >? 0 then (true, frame)
  else
    let fin := Z.land (byte_at (header frame) 0) FIN_FLAG in
    let frame := set_type (Z.land (byte_at (header frame) 0) TYPE_MASK) frame in
    let used := used + 1 in
    (* reserved bits are not expected *)
    if negb (Z.land (byte_at (header frame) 0) RSV_MASK =? 0) then (false, frame)
    (* control commands cannot be split *)
    else if (fin =? 0) && negb (Z.land (type frame) CONTROL_FRAME_MASK =? 0)
    then (false, frame)
    else if Z.land (type frame) (Z.lnot CONTROL_FRAME_MASK) >=? 3
    then (false, frame)
    else
      let frame :=
        set_masked (negb (Z.land (byte_at (header frame) 1) MASK_FLAG =? 0))
                   frame in
      let frame :=
        if (fin =? 0) && (type frame =? CONTINUATION_FRAME)
        then set_type BINARY_FRAME frame else frame in
      let '(len, used) :=
        extract_length (drop (Z.to_nat used) (header frame)) used in
      let frame := set_expected_len len frame in
      let frame :=
        if masked frame
        then set_mask (map (fun k => byte_at (header frame) (used + k))
                           [0; 1; 2; 3]) frame
        else frame in
      (* control frames cannot have more than 125 bytes of data *)
      if negb (Z.land (type frame) CONTROL_FRAME_MASK =? 0) &&
         (expected_len frame >=? LENGTH_16BIT)
      then (false, frame)
      else (true, set_frame_ready true (set_relayed 0 frame)).

(** The loop of [relay_data]: [cnt] bytes of [buf] are XORed in place with
    the mask byte at [relayed % 4], [relayed] advancing with each. *)
Fixpoint relay_loop (cnt : nat) (buf : list Z) (m : list Z) (rel : Z)
    : list Z * Z :=
  match cnt with
  | O => (buf, rel)
  | S cnt' =>
      match buf with
      | [] => relay_loop cnt' [] m (to_uint64 (rel + 1))
      | b :: buf' =>
          let '(out, rel') := relay_loop cnt' buf' m (to_uint64 (rel + 1)) in
          (Z.lxor b (byte_at m (rel mod 4)) :: out, rel')
      end
  end.

(** [relay_data(buf, size, frame)]: the count returned, the buffer and the
    frame afterwards. *)
Definition relay_data (buf : list Z) (size : Z) (frame : websocket_frame_t)
    : Z * list Z * websocket_frame_t :=
  let n := to_int (Z.min size
                         (to_uint64 (expected_len frame - relayed frame))) in
  if masked frame then
    let '(buf', rel) := relay_loop (Z.to_nat n) buf (mask frame) (relayed frame) in
    (n, buf', set_relayed rel frame)
  else (n, buf, frame).

(** [fill_header(header, len)]: the header array afterwards and the number
    of bytes used. *)
Definition fill_header (header : list Z) (len : Z) : list Z * Z :=
  let used := 0 in
  let header := <[0%nat := Z.lor FIN_FLAG BINARY_FRAME]> header in
  let used := used + 1 in
  let header := <[1%nat := 0]> header in
  let used := used + 1 in
  if len >? 65535 then
    let header := <[1%nat := Z.lor (byte_at header 1) LENGTH_64BIT]> header in
    (* for (i = 9; i >= 2; i--) { header[i] = len & 0xFF; len >>= 8; } *)
    let '(header, _) :=
      fold_left (fun '(header, len) i =>
                   (<[i := Z.land len 0xFF]> header, Z.shiftr len 8))
                [9; 8; 7; 6; 5; 4; 3; 2]%nat (header, len) in
    (header, used + 8)
  else if len >=? LENGTH_16BIT then
    let header := <[1%nat := Z.lor (byte_at header 1) LENGTH_16BIT]> header in
    let header := <[2%nat := to_uint8 (Z.shiftr len 8)]> header in
    let header := <[3%nat := Z.land len 0xFF]> header in
    (header, used + 2)
  else
    let header := <[1%nat := to_uint8 (Z.lor (byte_at header 1) len)]> header in
    (header, used).

(** [constrain_iov]: the vector handed to the raw writev.  An [iovec] is
    the list of its bytes, [iov_len] its length. *)
Fixpoint constrain_iov (iov : list (list Z)) (maxlen : Z) : list (list Z) :=
  match iov with
  | [] => []
  | v :: iov' =>
      if maxlen >? 0 then
        if Z.of_nat (length v) >? maxlen
        then [take (Z.to_nat maxlen) v]
        else v :: constrain_iov iov' (maxlen - Z.of_nat (length v))
      else []
  end.

(** The [rc] bytes a raw read stored at [frame->header + frame->header_pos],
    followed by [frame->header_pos += rc]. *)
Definition store_header (frame : websocket_frame_t) (rc : Z) (data : list Z)
    : websocket_frame_t :=
  let frame :=
    set_header (list_inserts (Z.to_nat (header_pos frame))
                             (take (Z.to_nat rc) data) (header frame)) frame in
  set_header_pos (to_int (header_pos frame + rc)) frame.

(** *** The framer over its raw stream

    The raw stream is opaque to the framer: it is reached only through
    the three callbacks of the handle.  A callback sees the stream and
    [errno] and returns them with its result. *)
Section Framer.
Variable Stream : Type.

Record Env := mk_env { stream : Stream; errno : Z }.

Definition set_errno (v : Z) (e : Env) : Env := mk_env (stream e) v.

(** [raw_read(stream, buf, nbyte)]: the result and the bytes stored at
    [buf]. *)
Variable raw_read : Env -> Z -> Env * Z * list Z.
(** [raw_write(stream, buf, nbyte)], [buf] given as its first [nbyte]
    bytes. *)
Variable raw_write : Env -> list Z -> Z -> Env * Z.
(** [raw_writev(stream, iov, iovcnt)]. *)
Variable raw_writev : Env -> list (list Z) -> Env * Z.

Definition websocket_ack_close (ws : RedsWebSocket) (e : Env)
    : Z * RedsWebSocket * Env :=
  let header := [Z.lor FIN_FLAG CLOSE_FRAME; 0] in
  let '(e, rc) := raw_write e header 2 in
  let rc := to_int rc in
  if rc =? 2 then (rc, set_closed true (set_close_pending false ws), e)
  else (rc, ws, e).

Definition send_data_header_left (ws : RedsWebSocket) (e : Env)
    : Z * RedsWebSocket * Env :=
  (* send the pending header *)
  let nbyte := write_header_len ws - write_header_pos ws in
  let '(e, rc) :=
    raw_write e (take (Z.to_nat nbyte)
                      (drop (Z.to_nat (write_header_pos ws)) (write_header ws)))
              nbyte in
  let rc := to_int rc in
  if rc <=? 0 then (rc, ws, e)
  else
    let ws := set_write_header_pos (to_uint8 (write_header_pos ws + rc)) ws in
    (* if header was sent now we can send data *)
    if write_header_pos ws >=? write_header_len ws then
      let used := 1 in
      let '(len, _) :=
        extract_length (drop (Z.to_nat used) (write_header ws)) used in
      (write_header_len ws, set_write_remainder len ws, e)
    else
      (* otherwise try to send the rest later *)
      (-1, ws, set_errno EAGAIN e).

(** [None] is the abort of a failed [spice_assert]. *)
Definition send_data_header (ws : RedsWebSocket) (len : Z) (e : Env)
    : option (Z * RedsWebSocket * Env) :=
  if negb (write_header_pos ws >=? write_header_len ws) then None
  else if negb (write_remainder ws =? 0) then None
  else
    (* fill a new header *)
    let ws := set_write_header_pos 0 ws in
    let '(hdr, used) := fill_header (write_header ws) len in
    let ws := set_write_header_len used (set_write_header hdr ws) in
    Some (send_data_header_left ws e).

Definition send_pending_data (ws : RedsWebSocket) (e : Env)
    : Z * RedsWebSocket * Env :=
  (* don't send while we are sending a data frame *)
  if negb (write_remainder ws =? 0) then (1, ws, e)
  (* write pending data frame header not send completely *)
  else if write_header_pos ws <? write_header_len ws then
    let '(rc, ws, e) := send_data_header_left ws e in
    if rc <=? 0 then (rc, ws, e) else (1, ws, e)
  (* write close frame *)
  else if close_pending ws then
    let '(rc, ws, e) := websocket_ack_close ws e in
    if rc <=? 0 then (rc, ws, e) else (1, ws, e)
  else (1, ws, e).

(** What a call of [websocket_read] leaves behind. *)
Record read_result := mk_read {
  r_ret : Z;               (* the value returned *)
  r_ws : RedsWebSocket;    (* the handle afterwards *)
  r_buf : list Z;          (* the bytes delivered at the start of [buf] *)
  r_wire : list Z;         (* the same bytes as the raw read stored them *)
  r_env : Env
}.

(** The code at label [read_error]. *)
Definition read_error (ws : RedsWebSocket) (buf wire : list Z) (n rc : Z)
    (e : Env) : read_result :=
  if (n >? 0) && (rc =? -1) && ((errno e =? EINTR) || (errno e =? EAGAIN))
  then mk_read n ws buf wire e
  else if rc =? 0 then mk_read rc (set_closed true ws) buf wire e
  else mk_read rc ws buf wire e.

(** The loop [while (size > 0)] of [websocket_read]; [None] when [fuel]
    iterations did not reach a [return].  [buf] and [wire] hold the [n]
    bytes delivered so far. *)
Fixpoint read_loop (fuel : nat) (ws : RedsWebSocket) (buf wire : list Z)
    (n size : Z) (e : Env) : option read_result :=
  if size <=? 0 then Some (mk_read n ws buf wire e)
  else
    match fuel with
    | O => None
    | S fuel' =>
        let frame := read_frame ws in
        (* make sure we have a proper frame ready *)
        if negb (frame_ready frame) then
          let '(e, rc, data) := raw_read e (frame_bytes_needed frame) in
          let rc := to_int rc in
          if rc <=? 0 then Some (read_error ws buf wire n rc e)
          else
            let frame := store_header frame rc data in
            let '(ok, frame) := websocket_get_frame_header frame in
            let ws := set_read_frame frame ws in
            if negb ok
            then Some (mk_read (-1) (set_closed true ws) buf wire
                               (set_errno EIO e))
            else read_loop fuel' ws buf wire n size e
        else if type frame =? CLOSE_FRAME then
          let ws := set_close_pending true ws in
          let ws := set_read_frame (websocket_clear_frame frame) ws in
          let '(_, ws, e) := send_pending_data ws e in
          Some (mk_read 0 ws buf wire e)
        else if type frame =? BINARY_FRAME then
          let '(e, rc, data) :=
            raw_read e (Z.min size
                              (to_uint64 (expected_len frame - relayed frame))) in
          let rc := to_int rc in
          if rc <=? 0 then Some (read_error ws buf wire n rc e)
          else
            let chunk := take (Z.to_nat rc) data in
            let '(rc, plain, frame) := relay_data chunk rc frame in
            let n := to_int (n + rc) in
            let buf := buf ++ take (Z.to_nat rc) plain in
            let wire := wire ++ take (Z.to_nat rc) chunk in
            let size := to_uint64 (size - rc) in
            let frame :=
              if relayed frame >=? expected_len frame
              then websocket_clear_frame frame else frame in
            read_loop fuel' (set_read_frame frame ws) buf wire n size e
        else
          (* TODO - We don't handle PING at this point *)
          read_loop fuel'
                    (set_read_frame (websocket_clear_frame frame) ws)
                    buf wire n size e
    end.

Definition websocket_read (fuel : nat) (ws : RedsWebSocket) (size : Z)
    (e : Env) : option read_result :=
  if closed ws || close_pending ws then
    (* this avoids infinite loop in the case connection is still open
       and we have pending data *)
    let '(e, _, _) := raw_read e 128 in
    Some (mk_read 0 ws [] [] e)
  else read_loop fuel ws [] [] 0 size e.

(** Write a WebSocket frame with the enclosed data out. *)
Definition websocket_writev (ws : RedsWebSocket) (iov : list (list Z))
    (e : Env) : Z * RedsWebSocket * Env :=
  if closed ws then (-1, ws, set_errno EPIPE e)
  else
    let '(rc, ws, e) := send_pending_data ws e in
    if rc <=? 0 then (rc, ws, e)
    else if write_remainder ws >? 0 then
      let iov_out := constrain_iov iov (write_remainder ws) in
      let '(e, rc) := raw_writev e iov_out in
      let rc := to_int rc in
      if rc <=? 0 then (rc, ws, e)
      else (rc, set_write_remainder (to_uint64 (write_remainder ws - rc)) ws, e)
    else
      let len :=
        fold_left (fun len v => to_uint64 (len + Z.of_nat (length v))) iov 0 in
      let ws := set_write_header_pos 0 ws in
      let '(hdr, used) := fill_header (write_header ws) len in
      let ws := set_write_header_len used (set_write_header hdr ws) in
      let iov_out :=
        take (Z.to_nat (write_header_len ws)) (write_header ws) :: iov in
      let '(e, rc) := raw_writev e iov_out in
      let rc := to_int rc in
      if rc <=? 0 then (rc, set_write_header_len 0 ws, e)
      (* this can happen if we can't write the header *)
      else if rc <? write_header_len ws then
        (-1,
         set_write_header_pos (to_uint8 (write_header_len ws - rc)) ws,
         set_errno EAGAIN e)
      else
        let ws := set_write_header_pos (write_header_len ws) ws in
        let rc := rc - write_header_len ws in
        (* Key point: if we did not write out all the data, remember how
           much more data the client is expecting *)
        let ws := set_write_remainder (to_uint64 (len - rc)) ws in
        (rc, ws, e).

(** [websocket_write(ws, buf, len)] with [len] the length of [buf];
    [None] is the abort of a failed [spice_assert]. *)
Definition websocket_write (ws : RedsWebSocket) (buf : list Z) (e : Env)
    : option (Z * RedsWebSocket * Env) :=
  let len := Z.of_nat (length buf) in
  if closed ws then Some (-1, ws, set_errno EPIPE e)
  else
    let '(rc, ws, e) := send_pending_data ws e in
    if rc <=? 0 then Some (rc, ws, e)
    else
      let body (ws : RedsWebSocket) (len : Z) (e : Env) :=
        let '(e, rc) := raw_write e (take (Z.to_nat len) buf) len in
        let rc := to_int rc in
        if rc >? 0
        then (rc, set_write_remainder (to_uint64 (write_remainder ws - rc)) ws, e)
        else (rc, ws, e) in
      if write_remainder ws =? 0 then
        match send_data_header ws len e with
        | None => None
        | Some (rc, ws, e) =>
            if rc <=? 0 then Some (rc, ws, e)
            else Some (body ws (write_remainder ws) e)
        end
      else Some (body ws (Z.min (write_remainder ws) len) e).

(** What the framer relies on in its raw callbacks: a read or write
    reports an error (-1), or a count of at most [nbyte], and a read
    that reports a count stored that many bytes. *)
Definition raw_read_contract : Prop :=
  forall e nbyte,
    0 <= nbyte ->
    let '(_, rc, data) := raw_read e nbyte in
    (rc = -1 \/ 0 <= rc <= nbyte) /\
    (0 < rc -> Z.of_nat (length data) = rc).

Definition raw_write_contract : Prop :=
  forall e buf nbyte,
    0 <= nbyte ->
    let '(_, rc) := raw_write e buf nbyte in
    rc = -1 \/ 0 <= rc <= nbyte.

(** The handles a connection can be in: the one [websocket_new] returns,
    and those any call of the three entry points leaves, whatever the
    raw stream does. *)
Inductive reachable : RedsWebSocket -> Prop :=
| reachable_new : reachable ws_zero
| reachable_read fuel ws size e r :
    reachable ws ->
    websocket_read fuel ws size e = Some r ->
    reachable (r_ws r)
| reachable_write ws buf e rc ws' e' :
    reachable ws ->
    websocket_write ws buf e = Some (rc, ws', e') ->
    reachable ws'
| reachable_writev ws iov e rc ws' e' :
    reachable ws ->
    websocket_writev ws iov e = (rc, ws', e') ->
    reachable ws'.

End Framer.

(** *** The opening handshake

    Character buffers are lists of byte values; a C string is the bytes
    before the first NUL. *)

Definition bytes_of (s : String.string) : list Z :=
  map (fun c => Z.of_nat (Ascii.nat_of_ascii c)) (String.list_ascii_of_string s).

Definition CR : Z := 13.
Definition LF : Z := 10.

Fixpoint c_str (mem : list Z) : list Z :=
  match mem with
  | [] => []
  | c :: mem' => if c =? 0 then [] else c :: c_str mem'
  end.

(** [tolower] and [isspace] in the C locale. *)
Definition tolower (c : Z) : Z :=
  if (65 <=? c) && (c <=? 90) then c + 32 else c.

Definition isspace (c : Z) : bool :=
  (c =? 32) || ((9 <=? c) && (c <=? 13)).

Fixpoint bytes_eqb (a b : list Z) : bool :=
  match a, b with
  | [], [] => true
  | x :: a', y :: b' => (x =? y) && bytes_eqb a' b'
  | _, _ => false
  end.

(** [needle] matches at the start of [hay], ignoring case. *)
Fixpoint prefix_ci (needle hay : list Z) : bool :=
  match needle, hay with
  | [], _ => true
  | a :: needle', b :: hay' =>
      (tolower a =? tolower b) && prefix_ci needle' hay'
  | _ :: _, [] => false
  end.

(** [strcasestr]: the string from the first match on, or NULL. *)
Fixpoint strcasestr (hay needle : list Z) : option (list Z) :=
  if prefix_ci needle hay then Some hay
  else match hay with
       | [] => None
       | _ :: hay' => strcasestr hay' needle
       end.

(** Perform a case insensitive search for needle in haystack.  If found,
    return a pointer to the byte after the end of needle. *)
Definition find_str (haystack needle : list Z) : option (list Z) :=
  match strcasestr haystack needle with
  | Some s => Some (drop (length needle) s)
  | None => None
  end.

(** [strncmp(buf, lit, strlen(lit)) == 0] for a literal [lit]. *)
Definition strncmp_eq (buf lit : list Z) : bool :=
  bytes_eqb (take (length lit) buf) lit.

(** GLib's [g_str_has_suffix]. *)
Definition g_str_has_suffix (str suffix : list Z) : bool :=
  if (length str <? length suffix)%nat then false
  else bytes_eqb (drop (length str - length suffix)%nat str) suffix.

Fixpoint skip_space (s : list Z) : list Z :=
  match s with
  | [] => []
  | c :: s' => if isspace c then skip_space s' else s
  end.

(** Match the ordinary characters of a [scanf] format one by one. *)
Fixpoint match_literal (lit s : list Z) : option (list Z) :=
  match lit with
  | [] => Some s
  | a :: lit' =>
      match s with
      | b :: s' => if a =? b then match_literal lit' s' else None
      | [] => None
      end
  end.

(** [binary_pos] after [sscanf(protocol, " binary %n", &binary_pos)],
    starting from [-1]: white space in the format skips any white space,
    the word has to match, [%n] stores the count of characters read. *)
Definition sscanf_binary_n (protocol : list Z) : Z :=
  let binary_pos := -1 in
  let s := skip_space protocol in
  match match_literal (bytes_of "binary") s with
  | None => binary_pos
  | Some s =>
      let s := skip_space s in
      Z.of_nat (length protocol) - Z.of_nat (length s)
  end.

Definition websocket_is_start (buf : list Z) : bool :=
  let protocol := find_str buf (LF :: bytes_of "Sec-WebSocket-Protocol:") in
  let key := find_str buf (LF :: bytes_of "Sec-WebSocket-Key:") in
  match protocol, key with
  | Some protocol, Some key =>
      if negb (strncmp_eq buf (bytes_of "GET ")) ||
         negb (g_str_has_suffix buf [CR; LF; CR; LF])
      then false
      else
        (* check protocol value ignoring spaces before and after *)
        let binary_pos := sscanf_binary_n protocol in
        if binary_pos <=? 0 then false else true
  | _, _ => false
  end.

Definition WEBSOCKET_GUID : list Z :=
  bytes_of "258EAFA5-E914-47DA-95CA-C5AB0DC85B11".

(** GLib's [g_strstrip]: leading and trailing white space removed. *)
Definition g_strstrip (s : list Z) : list Z :=
  rev (skip_space (rev (skip_space s))).

Fixpoint strchr (s : list Z) (c : Z) : option nat :=
  match s with
  | [] => None
  | x :: s' => if x =? c then Some O
               else match strchr s' c with
                    | Some i => Some (S i)
                    | None => None
                    end
  end.

Section Handshake.
Variable Stream : Type.
Variable read_cb : Env Stream -> Z -> Env Stream * Z * list Z.
Variable write_cb : Env Stream -> list Z -> Z -> Env Stream * Z.
(** The SHA-1 digest of the bytes, base64 encoded (GLib's [GChecksum]
    and [g_base64_encode]). *)
Variable sha1_base64 : list Z -> list Z.

Definition generate_reply_key (buf : list Z) : option (list Z) :=
  match find_str buf (LF :: bytes_of "Sec-WebSocket-Key:") with
  | None => None
  | Some key =>
      match strchr key CR with
      | None => None
      | Some p =>
          let k := g_strstrip (take p key) in
          Some (sha1_base64 (k ++ WEBSOCKET_GUID))
      end
  end.

Definition websocket_create_reply (buf : list Z) : list Z :=
  let key :=
    match generate_reply_key buf with
    | Some key => c_str key
    | None => bytes_of "(null)"
    end in
  bytes_of "HTTP/1.1 101 Switching Protocols" ++ [CR; LF] ++
  bytes_of "Upgrade: websocket" ++ [CR; LF] ++
  bytes_of "Connection: Upgrade" ++ [CR; LF] ++
  bytes_of "Sec-WebSocket-Accept: " ++ key ++ [CR; LF] ++
  bytes_of "Sec-WebSocket-Protocol: binary" ++ [CR; LF; CR; LF].

(** [websocket_new(buf, len, stream, read_cb, write_cb, writev_cb)] for
    [len < 4096], the size of the local buffer; [None] is NULL. *)
Definition websocket_new (buf : list Z) (e : Env Stream)
    : option RedsWebSocket * Env Stream :=
  let len := Z.of_nat (length buf) in
  let '(e, rc, data) := read_cb e (4096 - len - 1) in
  let rc := to_int rc in
  if rc <=? 0 then (None, e)
  else
    let rbuf := c_str (buf ++ take (Z.to_nat rc) data) in
    if negb (websocket_is_start rbuf) then (None, e)
    else
      let outbuf := websocket_create_reply rbuf in
      let '(e, rc) := write_cb e outbuf (Z.of_nat (length outbuf)) in
      let rc := to_int rc in
      if negb (to_uint64 rc =? Z.of_nat (length outbuf)) then (None, e)
      else (Some ws_zero, e).

End Handshake.

End WebSocket.

(** ** A raw stream to run the framer on

    A non-blocking byte pipe: a read takes what has arrived, at most
    [nbyte] bytes, and fails with [EAGAIN] when nothing has; a write takes
    at most [quota] bytes of what it is given. *)
Module Loopback.
Import WebSocket.

Record pipe := mk_pipe {
  inbound : list Z;
  outbound : list Z;
  quota : Z
}.

Definition read (e : Env pipe) (nbyte : Z) : Env pipe * Z * list Z :=
  let p := stream pipe e in
  match inbound p with
  | [] => (set_errno pipe EAGAIN e, -1, [])
  | _ :: _ =>
      let data := take (Z.to_nat nbyte) (inbound p) in
      (mk_env pipe
              (mk_pipe (drop (Z.to_nat nbyte) (inbound p)) (outbound p) (quota p))
              (errno pipe e),
       Z.of_nat (length data), data)
  end.

Definition write (e : Env pipe) (buf : list Z) (nbyte : Z) : Env pipe * Z :=
  let p := stream pipe e in
  let k := Z.min nbyte (quota p) in
  if k <=? 0 then (set_errno pipe EAGAIN e, -1)
  else
    (mk_env pipe
            (mk_pipe (inbound p) (outbound p ++ take (Z.to_nat k) buf) (quota p))
            (errno pipe e),
     k).

Definition writev (e : Env pipe) (iov : list (list Z)) : Env pipe * Z :=
  write e (concat iov) (Z.of_nat (length (concat iov))).

Definition start (input : list Z) (quota : Z) : Env pipe :=
  mk_env pipe (mk_pipe input [] quota) 0.

Definition ws_read := websocket_read pipe read write.
Definition ws_write := websocket_write pipe write.
Definition ws_writev := websocket_writev pipe write writev.

End Loopback.

(** ** The inbound validation rules, in the specification's words *)
Module FrameRules.
Import WebSocket.

Definition opcode (h : list Z) : Z := Z.land (byte_at h 0) TYPE_MASK.
Definition fin (h : list Z) : bool :=
  negb (Z.land (byte_at h 0) FIN_FLAG =? 0).
Definition reserved_bits (h : list Z) : bool :=
  negb (Z.land (byte_at h 0) RSV_MASK =? 0).
Definition extracted_length (h : list Z) : Z :=
  fst (extract_length (drop 1 h) 1).

(** The four violations the specification lists: a reserved bit, a
    control frame without FIN, a data opcode in 3..7, a control frame
    whose extracted length is 126 or more. *)
Definition rejected_by_spec (h : list Z) : Prop :=
  reserved_bits h = true \/
  (fin h = false /\ 8 <= opcode h) \/
  3 <= opcode h <= 7 \/
  (8 <= opcode h /\ 126 <= extracted_length h).

(** The same, with the control opcodes 0xB..0xF. *)
Definition rejected (h : list Z) : Prop :=
  rejected_by_spec h \/ 11 <= opcode h <= 15.







(** The outbound header cursor is inside the header, whose length is at
    most the ten bytes [fill_header] can write, and no body is owed while
    part of the header is unsent. *)
Definition write_invariant (ws : RedsWebSocket) : Prop :=
  0 <= write_remainder ws /\
  0 <= write_header_pos ws /\
  0 <= write_header_len ws <= 10 /\
  (0 < write_remainder ws -> write_header_pos ws = write_header_len ws).

End FrameRules.

(** ** States and outcomes the further properties speak of *)
Module Behaviour.
Import WebSocket.

(** The inbound header cursor is inside the header array, and a header
    still being read asks for a count of bytes that fits the array. *)
Definition header_within (frame : websocket_frame_t) : Prop :=
  length (header frame) = Z.to_nat WEBSOCKET_MAX_HEADER_SIZE /\
  0 <= header_pos frame <= WEBSOCKET_MAX_HEADER_SIZE /\
  (frame_ready frame = false ->
   0 <= frame_bytes_needed frame <=
     WEBSOCKET_MAX_HEADER_SIZE - header_pos frame).

(** The handle is open and has no frame in progress on the way out: no
    body owed, no header part unsent, no close to acknowledge. *)
Definition write_idle (ws : RedsWebSocket) : Prop :=
  closed ws = false /\ close_pending ws = false /\ write_remainder ws = 0 /\
  write_header_len ws <= write_header_pos ws /\
  length (write_header ws) = 14%nat.


End Behaviour.

(** ** Sample inputs *)
Module Samples.
Import Channel WebSocket Loopback.

(** A channel with no channel-client connected. *)
Definition empty_channel : RedChannel unit := mk_channel 1 0 false [] 0.

(** A class that provides every callback. *)
Definition full_class : RedChannelClass unit :=
  mk_class (Some tt) (Some tt) (Some tt) (Some tt) (Some tt) (Some tt)
           (Some tt) (Some tt) (Some tt) (Some tt).

(** The masked frame of RFC 6455, section 5.7: "Hello". *)
Definition hello_masked : list Z :=
  [0x82; 0x85; 0x37; 0xfa; 0x21; 0x3d; 0x7f; 0x9f; 0x4d; 0x51; 0x58].

(** Two unmasked binary frames of one byte each, "A" and "B", and the same
    two frames masked with 01 02 03 04. *)
Definition two_unmasked : list Z := [0x82; 0x01; 0x41; 0x82; 0x01; 0x42].
Definition two_masked : list Z :=
  [0x82; 0x81; 0x01; 0x02; 0x03; 0x04; 0x40;
   0x82; 0x81; 0x01; 0x02; 0x03; 0x04; 0x43].

(** The length read back from a header that [fill_header] wrote for [len],
    the way [send_data_header_left] reads it, and the header's size. *)
Definition header_round_trip (header : list Z) (len : Z) : Z * Z :=
  let '(header, size) := fill_header header len in
  let used := 1 in
  (fst (extract_length (drop (Z.to_nat used) header) used), size).

(** The header sizes of RFC 6455, section 5.2, for an unmasked frame. *)
Definition rfc6455_header_size (len : Z) : Z :=
  if len <? 126 then 2 else if len <=? 65535 then 4 else 10.

(** An opening request of a client, with the given text after the name of
    the protocol header. *)
Definition handshake_request (protocol : String.string) : list Z :=
  bytes_of "GET /x HTTP/1.1" ++ [CR; LF] ++
  bytes_of "Host: h" ++ [CR; LF] ++
  bytes_of "Upgrade: websocket" ++ [CR; LF] ++
  bytes_of "Sec-WebSocket-Key: dGhlIHNhbXBsZSBub25jZQ==" ++ [CR; LF] ++
  bytes_of "Sec-WebSocket-Protocol:" ++ bytes_of protocol ++ [CR; LF] ++
  [CR; LF].

(** The accept token of the key above, in place of SHA-1 and base64. *)
Definition sample_digest (_ : list Z) : list Z :=
  bytes_of "s3pPLMBiTxaQ9kYGzzhZRbK+xOo=".

(** [websocket_new] on a request of which the server has read the first
    16 bytes, the rest waiting in the stream. *)
Definition open_websocket (request : list Z)
    : option RedsWebSocket * Env pipe :=
  websocket_new pipe read write sample_digest (take 16 request)
                (start (drop 16 request) 4096).

(** The value of the protocol header as the specification reads it: the
    rest of the header's line, surrounding white space stripped. *)
Definition protocol_value (buf : list Z) : option (list Z) :=
  match find_str buf (LF :: bytes_of "Sec-WebSocket-Protocol:") with
  | None => None
  | Some p =>
      Some (g_strstrip (match strchr p CR with
                        | Some i => take i p
                        | None => p
                        end))
  end.

(** A complete two-byte header: FIN, opcode 0xB, no mask, length 0. *)
Definition control_0xB : list Z := [0x8B; 0x00].

(** A frame whose header has been read in full, not yet parsed. *)
Definition frame_of_header (h : list Z) : websocket_frame_t :=
  store_header (websocket_clear_frame (read_frame ws_zero))
               (Z.of_nat (length h)) h.


(** The handle after [websocket_write] of three bytes to a stream that
    takes two bytes at a time. *)
Definition ws_after_short_write : RedsWebSocket :=
  match ws_write ws_zero [0x41; 0x42; 0x43] (start [] 2) with
  | Some (_, ws, _) => ws
  | None => ws_zero
  end.

(** A raw write outside its contract: it reports five bytes written,
    whatever it was given. *)
Definition write_over_reports (e : Env pipe) (_ : list Z) (_ : Z)
    : Env pipe * Z :=
  (e, 5).

(** The handle after [websocket_write] of one byte over that raw write. *)
Definition ws_after_over_report : RedsWebSocket :=
  match websocket_write pipe write_over_reports ws_zero [0x41] (start [] 2) with
  | Some (_, ws, _) => ws
  | None => ws_zero
  end.

(** A closed handle. *)
Definition ws_closed : RedsWebSocket := set_closed true ws_zero.

(** The handle after [websocket_read] met the first byte of a header and
    nothing more. *)
Definition ws_after_partial_header : RedsWebSocket :=
  match ws_read 2 ws_zero 8 (start [0x82] 100) with
  | Some r => r_ws pipe r
  | None => ws_zero
  end.

(** A masked close frame without payload. *)
Definition close_masked : list Z := [0x88; 0x80; 0x01; 0x02; 0x03; 0x04].

(** A masked binary frame of one byte, "A", followed by the complete
    header 8B 00. *)
Definition masked_then_0xB : list Z :=
  [0x82; 0x81; 0x01; 0x02; 0x03; 0x04; 0x40; 0x8B; 0x00].





End Samples.

(** * Properties *)

Import CInt.

(** ** Channel aggregates *)
Section AggregateProperties.
Import Channel.
Context {RedChannelClient : Type}.
Variables (is_blocked no_item : RedChannelClient -> bool)
          (pipe_size socket : RedChannelClient -> Z)
          (common_cap cap : RedChannelClient -> Z -> bool).

(** C1 (amended). On a channel with zero connected channel-clients the
    aggregate queries return: all_blocked = FALSE (the function answers
    FALSE before it looks at any client when the list is empty),
    any_blocked = FALSE, no_item_being_sent = TRUE, min, max and sum of
    the pipe sizes = 0, get_first_socket = -1, is_connected = FALSE, and
    both remote-capability tests TRUE for every capability. *)
Theorem aggregate_emptiness (c : RedChannel RedChannelClient) :
  clients c = [] ->
  red_channel_all_blocked _ is_blocked (Some c) = false /\
  red_channel_any_blocked _ is_blocked c = false /\
  red_channel_no_item_being_sent _ no_item c = true /\
  red_channel_min_pipe_size _ pipe_size c = 0 /\
  red_channel_max_pipe_size _ pipe_size c = 0 /\
  red_channel_sum_pipes_size _ pipe_size c = 0 /\
  red_channel_get_first_socket _ socket (Some c) = -1 /\
  red_channel_is_connected (Some c) = false /\
  (forall b, red_channel_test_remote_common_cap _ common_cap c b = true) /\
  (forall b, red_channel_test_remote_cap _ cap c b = true).
Proof.
  intros Hc.
  unfold red_channel_all_blocked, red_channel_any_blocked,
    red_channel_no_item_being_sent, red_channel_min_pipe_size,
    red_channel_max_pipe_size, red_channel_sum_pipes_size,
    red_channel_get_first_socket, red_channel_is_connected,
    red_channel_test_remote_common_cap, red_channel_test_remote_cap.
  rewrite Hc. cbn. repeat split; reflexivity.
Qed.

End AggregateProperties.

Lemma aggregate_emptiness_witness :
  Channel.red_channel_all_blocked _ (fun _ : unit => true)
    (Some Samples.empty_channel) = false /\
  Channel.red_channel_min_pipe_size _ (fun _ : unit => 7)
    Samples.empty_channel = 0.
Proof.
  pose proof (aggregate_emptiness (fun _ : unit => true) (fun _ => true)
                (fun _ => 7) (fun _ => 3) (fun _ _ => false) (fun _ _ => false)
                Samples.empty_channel eq_refl) as H.
  split; [apply H | apply H].
Defined.

(** C1 as stated fails: with no channel-client connected all_blocked is
    not TRUE, even when every channel-client there could be is blocked. *)
Lemma all_blocked_empty_channel_is_false :
  Channel.clients Samples.empty_channel = [] /\
  Channel.red_channel_all_blocked _ (fun _ : unit => true)
    (Some Samples.empty_channel) <> true.
Proof. split; [reflexivity | discriminate]. Qed.

(** ** Channel construction *)

(** C8 (amended). Construction goes through exactly when the class provides
    config_socket, on_disconnect, alloc_recv_buf and release_recv_buf, and
    provides handle_migrate_data whenever the migration flags ask for data
    transfer; a class may provide handle_migrate_data without the flag.
    Otherwise an assertion aborts. *)
Theorem constructed_iff_callbacks {callback : Type} (need : Z)
    (klass : Channel.RedChannelClass callback) (flags : Z) :
  Channel.red_channel_constructed need klass flags <> None <->
  (Channel.required_callbacks klass /\
   (Channel.needs_data_transfer need flags ->
    Channel.is_set (Channel.handle_migrate_data klass) = true)).
Proof.
  unfold Channel.red_channel_constructed, Channel.required_callbacks,
    Channel.needs_data_transfer.
  destruct klass as [cs od si ar rr hm hp pa fm md]; cbn.
  destruct cs, od, ar, rr, md; cbn;
    destruct (Z.eqb_spec (Z.land flags need) 0);
    cbn; intuition (try discriminate; try congruence).
Qed.

(** C8 as stated fails: a class that provides handle_migrate_data is
    constructed although its migration flags ask for no data transfer. *)
Lemma constructed_without_data_transfer_flag :
  Channel.red_channel_constructed Channel.need_data_transfer_bit
    Samples.full_class 0 <> None /\
  ~ (Channel.is_set (Channel.handle_migrate_data Samples.full_class) = true <->
     Channel.needs_data_transfer Channel.need_data_transfer_bit 0).
Proof.
  split; [discriminate |].
  intros [H _]. apply (H eq_refl). reflexivity.
Qed.

(** ** Seamless migration accounting *)

(** C9. One call decrements num_migrated_channels between taking and
    releasing the client lock, and returns TRUE exactly when the counter is
    zero after the decrement; in that case both migration flags are cleared
    and the main dispatcher is notified once, otherwise the flags are left
    as they were and nothing is notified. *)
Theorem seamless_migration_done_counts (client : Channel.RedClient) :
  let '(ret, client', log) :=
    Channel.red_client_seamless_migration_done_for_channel client in
  Channel.num_migrated_channels client' =
    to_int (Channel.num_migrated_channels client - 1) /\
  (ret = true <-> Channel.num_migrated_channels client' = 0) /\
  (if ret
   then Channel.during_target_migrate client' = false /\
        Channel.seamless_migrate client' = false /\
        log = [Channel.EvLock; Channel.EvSeamlessMigrateDstComplete;
               Channel.EvUnlock]
   else Channel.during_target_migrate client' =
          Channel.during_target_migrate client /\
        Channel.seamless_migrate client' = Channel.seamless_migrate client /\
        log = [Channel.EvLock; Channel.EvUnlock]) /\
  Channel.notifications log = (if ret then 1%nat else 0%nat) /\
  Channel.refs client' = Channel.refs client.
Proof.
  unfold Channel.red_client_seamless_migration_done_for_channel. cbn.
  destruct (Z.eqb_spec (to_int (Channel.num_migrated_channels client - 1)) 0)
    as [E | E]; cbn.
  - repeat split; auto.
  - repeat split; auto; discriminate.
Qed.

(** ** Frame headers: writing and reading the length *)

Lemma to_int_small x : - 2 ^ 31 <= x < 2 ^ 31 -> to_int x = x.
Proof. intros H. unfold to_int. rewrite Z.mod_small; lia. Qed.

Lemma to_int_range x : - 2 ^ 31 <= to_int x < 2 ^ 31.
Proof.
  unfold to_int.
  pose proof (Z.mod_pos_bound (x + 2 ^ 31) (2 ^ 32) ltac:(lia)). lia.
Qed.

Lemma to_uint64_small x : 0 <= x < 2 ^ 64 -> to_uint64 x = x.
Proof. intros H. unfold to_uint64. apply Z.mod_small; lia. Qed.

Lemma to_uint8_small x : 0 <= x < 2 ^ 8 -> to_uint8 x = x.
Proof. intros H. unfold to_uint8. apply Z.mod_small; lia. Qed.

Lemma to_uint64_range x : 0 <= to_uint64 x < 2 ^ 64.
Proof. unfold to_uint64. apply Z.mod_pos_bound. lia. Qed.

(** The size [fill_header] reports is the one RFC 6455 prescribes, for
    every length. *)
Lemma fill_header_size (header : list Z) (len : Z) :
  snd (WebSocket.fill_header header len) = Samples.rfc6455_header_size len.
Proof.
  unfold WebSocket.fill_header, Samples.rfc6455_header_size,
    WebSocket.LENGTH_16BIT.
  destruct (Z.gtb_spec len 65535) as [H | H].
  - destruct (fold_left _ _ _) as [h l]. cbn.
    destruct (Z.ltb_spec len 126); [lia |].
    destruct (Z.leb_spec len 65535); [lia | reflexivity].
  - destruct (Z.geb_spec len 126) as [H' | H']; cbn.
    + destruct (Z.ltb_spec len 126); [lia |].
      destruct (Z.leb_spec len 65535); [reflexivity | lia].
    + destruct (Z.ltb_spec len 126); [reflexivity | lia].
Qed.

(** Whatever a platform makes of the shift of the promoted [int] operand,
    its result is an [int]: a 64-bit length read by [extract_length] is
    below 2^31 or has its upper 33 bits set. *)
Section AnyIntShift.
Variable shl : Z -> Z -> Z.
Hypothesis shl_is_int : forall x i, - 2 ^ 31 <= shl x i < 2 ^ 31.

Lemma shl_as_uint64 x i : int_as_uint64 (to_uint64 (shl x i)).
Proof using shl_is_int.
  pose proof (shl_is_int x i) as H. unfold int_as_uint64, to_uint64.
  destruct (Z_lt_le_dec (shl x i) 0).
  - right. rewrite <- (Z.mod_add _ 1) by lia. rewrite Z.mod_small; lia.
  - left. rewrite Z.mod_small; lia.
Qed.

Lemma lor_below a b n :
  0 <= n -> 0 <= a < 2 ^ n -> 0 <= b < 2 ^ n -> 0 <= Z.lor a b < 2 ^ n.
Proof.
  intros Hn Ha Hb.
  destruct (Z.eq_dec a 0) as [-> | Na]; [rewrite Z.lor_0_l; lia |].
  destruct (Z.eq_dec b 0) as [-> | Nb]; [rewrite Z.lor_0_r; lia |].
  assert (0 <= Z.lor a b) by (apply Z.lor_nonneg; lia).
  split; [assumption |].
  destruct (Z.eq_dec (Z.lor a b) 0) as [E | E]; [rewrite E; lia |].
  apply Z.log2_lt_pow2; [lia |].
  rewrite Z.log2_lor by lia.
  apply Z.max_lub_lt; apply Z.log2_lt_pow2; lia.
Qed.

Lemma lor_above a b : 0 <= a -> b <= Z.lor a b.
Proof.
  intros Ha. pose proof (Z.sub_lor_l_same_r a b) as H.
  assert (0 <= Z.land a (Z.lnot b)) by (apply Z.land_nonneg; lia). lia.
Qed.

Lemma lor_as_uint64 a b :
  int_as_uint64 a -> int_as_uint64 b -> int_as_uint64 (Z.lor a b).
Proof.
  unfold int_as_uint64. intros Ha Hb.
  assert (0 <= Z.lor a b < 2 ^ 64) by (apply lor_below; lia).
  destruct Ha as [Ha | Ha], Hb as [Hb | Hb].
  - left. apply lor_below; lia.
  - right. pose proof (lor_above a b). lia.
  - right. pose proof (lor_above b a) as Hc. rewrite Z.lor_comm in Hc. lia.
  - right. pose proof (lor_above a b). lia.
Qed.

Lemma extract_length_64_is_int (buf : list Z) (used : Z) :
  Z.land (WebSocket.byte_at buf 0) WebSocket.LENGTH_MASK = WebSocket.LENGTH_64BIT ->
  int_as_uint64 (fst (WebSocket.extract_length_with shl buf used)).
Proof using shl_is_int.
  intros H. unfold WebSocket.extract_length_with. rewrite H. cbn.
  repeat (apply lor_as_uint64; [| apply shl_as_uint64]).
  left. lia.
Qed.

End AnyIntShift.

Ltac header14 h H :=
  do 14 (destruct h as [| ? h]; [discriminate H |]);
  destruct h; [| discriminate H]; clear H.

(** C2. Of the eight lengths, a header filled by fill_header reads back
    through extract_length as the length it was filled for at 0, 1, 125,
    126, 65535 and 65536, and its size is the one of RFC 6455 at all
    eight; at 2^32 and 2^40 the length read back is 1 and 256: the length
    bytes are shifted as 32-bit [int]s, so the upper four bytes of a 64-bit
    length land on the lower four. *)
Theorem header_round_trip_lengths (header : list Z) :
  length header = 14%nat ->
  (forall L, In L [0; 1; 125; 126; 65535; 65536] ->
             Samples.header_round_trip header L =
               (L, Samples.rfc6455_header_size L)) /\
  Samples.header_round_trip header (2 ^ 32) =
    (1, Samples.rfc6455_header_size (2 ^ 32)) /\
  Samples.header_round_trip header (2 ^ 40) =
    (256, Samples.rfc6455_header_size (2 ^ 40)).
Proof.
  intros H. header14 header H.
  split; [| split; vm_compute; reflexivity].
  intros L HL. cbn [In] in HL.
  repeat (destruct HL as [<- | HL]; [vm_compute; reflexivity |]).
  contradiction.
Qed.

Lemma header_round_trip_lengths_witness :
  Samples.header_round_trip (WebSocket.write_header WebSocket.ws_zero) 65536 =
    (65536, 10) /\
  Samples.header_round_trip (WebSocket.write_header WebSocket.ws_zero) (2 ^ 32) =
    (1, 10).
Proof.
  pose proof (header_round_trip_lengths
                (WebSocket.write_header WebSocket.ws_zero) eq_refl) as [H1 [H2 _]].
  split; [apply (H1 65536); cbn; tauto | exact H2].
Defined.

(** The loss at 2^32 and 2^40 does not hang on what a shift count of 32 or
    more does: no result of an [int] shift reads either length back. *)
Lemma header_round_trip_any_int_shift (shl : Z -> Z -> Z) (header : list Z)
    (L : Z) :
  (forall x i, - 2 ^ 31 <= shl x i < 2 ^ 31) ->
  length header = 14%nat ->
  L = 2 ^ 32 \/ L = 2 ^ 40 ->
  fst (WebSocket.extract_length_with shl
         (drop 1 (fst (WebSocket.fill_header header L))) 1) <> L.
Proof.
  intros Hshl H HL. header14 header H.
  assert (int_as_uint64
            (fst (WebSocket.extract_length_with shl
                    (drop 1 (fst (WebSocket.fill_header
                       [z; z0; z1; z2; z3; z4; z5; z6; z7; z8; z9; z10; z11; z12]
                       L))) 1))) as R.
  { apply extract_length_64_is_int; [assumption |].
    destruct HL as [-> | ->]; vm_compute; reflexivity. }
  unfold int_as_uint64 in R. destruct HL as [-> | ->]; lia.
Qed.

(** ** The opening handshake *)

Lemma skip_space_length (s : list Z) :
  (length (WebSocket.skip_space s) <= length s)%nat.
Proof.
  induction s as [| c s IH]; cbn; [lia |].
  destruct (WebSocket.isspace c); cbn; lia.
Qed.

Lemma match_literal_length (lit s s' : list Z) :
  WebSocket.match_literal lit s = Some s' ->
  length s = (length lit + length s')%nat.
Proof.
  revert s. induction lit as [| a lit IH]; intros s H; cbn in H.
  - injection H as ->. reflexivity.
  - destruct s as [| b s]; [discriminate |].
    destruct (a =? b); [| discriminate].
    cbn. rewrite (IH _ H). reflexivity.
Qed.

(** [binary_pos] is positive exactly when, white space skipped, the text
    starts with the word; nothing is asked of what follows the word. *)
Lemma sscanf_binary_n_positive (protocol : list Z) :
  0 < WebSocket.sscanf_binary_n protocol <->
  WebSocket.match_literal (WebSocket.bytes_of "binary")
                          (WebSocket.skip_space protocol) <> None.
Proof.
  unfold WebSocket.sscanf_binary_n.
  destruct (WebSocket.match_literal _ _) as [s |] eqn:E.
  - split; [discriminate | intros _].
    apply match_literal_length in E.
    pose proof (skip_space_length protocol).
    pose proof (skip_space_length s).
    change (length (WebSocket.bytes_of "binary")) with 6%nat in E. lia.
  - split; [lia | congruence].
Qed.

(** What [websocket_is_start] asks of the buffer. *)
Lemma websocket_is_start_true (buf : list Z) :
  WebSocket.websocket_is_start buf = true <->
  exists protocol key,
    WebSocket.find_str buf (WebSocket.LF :: WebSocket.bytes_of "Sec-WebSocket-Protocol:")
      = Some protocol /\
    WebSocket.find_str buf (WebSocket.LF :: WebSocket.bytes_of "Sec-WebSocket-Key:")
      = Some key /\
    WebSocket.strncmp_eq buf (WebSocket.bytes_of "GET ") = true /\
    WebSocket.g_str_has_suffix buf [WebSocket.CR; WebSocket.LF; WebSocket.CR; WebSocket.LF]
      = true /\
    WebSocket.match_literal (WebSocket.bytes_of "binary")
                            (WebSocket.skip_space protocol) <> None.
Proof.
  unfold WebSocket.websocket_is_start.
  destruct (WebSocket.find_str buf (WebSocket.LF :: WebSocket.bytes_of "Sec-WebSocket-Protocol:"))
    as [protocol |]; [| split; [discriminate | intros (? & ? & ? & _); discriminate]].
  destruct (WebSocket.find_str buf (WebSocket.LF :: WebSocket.bytes_of "Sec-WebSocket-Key:"))
    as [key |]; [| split; [discriminate | intros (? & ? & _ & ? & _); discriminate]].
  pose proof (sscanf_binary_n_positive protocol) as Hn.
  destruct (WebSocket.strncmp_eq buf _); cbn;
    [| split; [discriminate | intros (? & ? & _ & _ & ? & _); discriminate]].
  destruct (WebSocket.g_str_has_suffix buf _); cbn;
    [| split; [discriminate | intros (? & ? & _ & _ & _ & ? & _); discriminate]].
  destruct (Z.leb_spec (WebSocket.sscanf_binary_n protocol) 0) as [Hp | Hp].
  - split; [discriminate |].
    intros (p & k & Ep & _ & _ & _ & Hm). injection Ep as <-.
    apply Hn in Hm. lia.
  - split; [intros _ | reflexivity].
    exists protocol, key. repeat split; try reflexivity. apply Hn. assumption.
Qed.

Section HandshakeProperties.
Import WebSocket.
Context {Stream : Type}.
Variable read_cb : Env Stream -> Z -> Env Stream * Z * list Z.
Variable write_cb : Env Stream -> list Z -> Z -> Env Stream * Z.
Variable sha1_base64 : list Z -> list Z.

(** A handle is returned only if the raw read brought bytes and the
    assembled buffer passes [websocket_is_start]. *)
Lemma websocket_new_only_if_start (buf : list Z) (e e' : Env Stream)
    (ws : RedsWebSocket) :
  websocket_new Stream read_cb write_cb sha1_base64 buf e = (Some ws, e') ->
  let '(_, rc, data) := read_cb e (4096 - Z.of_nat (length buf) - 1) in
  0 < to_int rc /\
  websocket_is_start (c_str (buf ++ take (Z.to_nat (to_int rc)) data)) = true /\
  ws = ws_zero.
Proof.
  unfold websocket_new.
  destruct (read_cb e _) as [[e1 rc] data].
  destruct (Z.leb_spec (to_int rc) 0) as [Hrc | Hrc]; [discriminate |].
  destruct (websocket_is_start _); cbn; [| discriminate].
  destruct (write_cb e1 _ _) as [e2 rc2].
  destruct (to_uint64 (to_int rc2) =? _); cbn; [| discriminate].
  intros Hn. injection Hn as <- _. auto.
Qed.

End HandshakeProperties.

(** C3. websocket_new hands out a handle for a request whose protocol
    header reads [binaryX]: the buffer starts with GET, carries both
    headers and ends with an empty line, but the header's value is not
    [binary].  The same request with the value [binary] is accepted, with
    the value [base64] it is refused. *)
Theorem handshake_accepts_longer_protocol :
  let request := Samples.handshake_request " binaryX" in
  fst (Samples.open_websocket request) = Some WebSocket.ws_zero /\
  Samples.protocol_value request = Some (WebSocket.bytes_of "binaryX") /\
  WebSocket.bytes_of "binaryX" <> WebSocket.bytes_of "binary" /\
  fst (Samples.open_websocket (Samples.handshake_request " binary")) =
    Some WebSocket.ws_zero /\
  fst (Samples.open_websocket (Samples.handshake_request " base64")) = None.
Proof.
  cbv zeta. repeat split; try (vm_compute; reflexivity).
  vm_compute. discriminate.
Qed.

(** ** Inbound frame headers *)

Lemma land_15_range x : 0 <= Z.land x 15 < 16.
Proof.
  change 15 with (Z.ones 4). rewrite Z.land_ones by lia.
  apply Z.mod_pos_bound. lia.
Qed.

Lemma opcode_bits t :
  0 <= t < 16 ->
  (Z.land t 8 =? 0) = (t <? 8) /\
  (Z.land t (Z.lnot 8) >=? 3) =
    ((3 <=? t) && (t <=? 7) || (11 <=? t) && (t <=? 15)).
Proof.
  intros H.
  assert (t = 0 \/ t = 1 \/ t = 2 \/ t = 3 \/ t = 4 \/ t = 5 \/ t = 6 \/
          t = 7 \/ t = 8 \/ t = 9 \/ t = 10 \/ t = 11 \/ t = 12 \/ t = 13 \/
          t = 14 \/ t = 15) as C by lia.
  repeat (destruct C as [-> | C]; [split; reflexivity |]).
  subst t. split; reflexivity.
Qed.

Ltac case_conditions :=
  repeat match goal with
         | |- context [Z.eqb ?a ?b] => destruct (Z.eqb_spec a b)
         | |- context [Z.ltb ?a ?b] => destruct (Z.ltb_spec a b)
         | |- context [Z.leb ?a ?b] => destruct (Z.leb_spec a b)
         | |- context [Z.geb ?a ?b] => destruct (Z.geb_spec a b)
         | |- context [Z.gtb ?a ?b] => destruct (Z.gtb_spec a b)
         end.

(** A complete header is refused exactly under the rules of [rejected];
    one that is not refused leaves the frame ready. *)
Lemma get_frame_header_rejects (frame : WebSocket.websocket_frame_t) :
  WebSocket.frame_bytes_needed frame <= 0 ->
  (fst (WebSocket.websocket_get_frame_header frame) = false <->
   FrameRules.rejected (WebSocket.header frame)) /\
  (fst (WebSocket.websocket_get_frame_header frame) = true ->
   WebSocket.frame_ready (snd (WebSocket.websocket_get_frame_header frame)) = true).
Proof.
  intros Hn.
  unfold WebSocket.websocket_get_frame_header, FrameRules.rejected,
    FrameRules.rejected_by_spec, FrameRules.reserved_bits, FrameRules.fin,
    FrameRules.opcode, FrameRules.extracted_length.
  destruct (Z.gtb_spec (WebSocket.frame_bytes_needed frame) 0); [lia |].
  clear Hn. destruct frame as [ty hd pos rdy msk mk rel el].
  cbv zeta.
  cbn [WebSocket.header WebSocket.type WebSocket.set_type WebSocket.set_masked
       WebSocket.masked WebSocket.header_pos WebSocket.frame_ready
       WebSocket.mask WebSocket.relayed WebSocket.expected_len].
  change WebSocket.TYPE_MASK with 15. change WebSocket.CONTROL_FRAME_MASK with 8.
  change WebSocket.LENGTH_16BIT with 126. change (Z.to_nat (0 + 1)) with 1%nat.
  change (0 + 1) with 1. change WebSocket.CONTINUATION_FRAME with 0.
  set (b0 := WebSocket.byte_at hd 0).
  pose proof (land_15_range b0) as Ht.
  destruct (opcode_bits _ Ht) as [Hc Hd].
  set (t := Z.land b0 15) in *.
  set (m := negb (Z.land (WebSocket.byte_at hd 1) WebSocket.MASK_FLAG =? 0)).
  set (rsv := Z.land b0 WebSocket.RSV_MASK).
  set (fin := Z.land b0 WebSocket.FIN_FLAG).
  clearbody m rsv fin.
  rewrite Hd. clear Hd.
  destruct (fin =? 0) eqn:Ef, (rsv =? 0) eqn:Er; cbn [negb andb];
    try (split; [split; [intros _; left; left; reflexivity | reflexivity]
                | discriminate]).
  all: rewrite ?Hc.
  all: destruct (t =? 0) eqn:E0;
    cbn [WebSocket.header WebSocket.type WebSocket.set_type WebSocket.set_masked
         WebSocket.masked WebSocket.header_pos WebSocket.frame_ready
         WebSocket.mask WebSocket.relayed WebSocket.expected_len];
    destruct (WebSocket.extract_length (drop 1 hd) 1) as [len used];
    destruct m;
    cbn [WebSocket.header WebSocket.type WebSocket.set_type WebSocket.set_masked
         WebSocket.masked WebSocket.header_pos WebSocket.frame_ready
         WebSocket.mask WebSocket.relayed WebSocket.expected_len
         WebSocket.set_expected_len WebSocket.set_mask fst];
    change (Z.land WebSocket.BINARY_FRAME 8 =? 0) with true;
    rewrite ?Hc; clear Hc;
    apply Z.eqb_eq in E0 || apply Z.eqb_neq in E0.
  all: case_conditions; cbn; try lia.
  all: split; [split; [intros; try discriminate; try lia
                      | try reflexivity;
                        intros [[? | [? | [? | ?]]] | ?]; try discriminate; lia]
              | intros; try discriminate; try reflexivity].
Qed.




(** ** The framer over an arbitrary raw stream *)
Section FramerProperties.
Import WebSocket.
Context {Stream : Type}.
Variable raw_read : Env Stream -> Z -> Env Stream * Z * list Z.
Variable raw_write : Env Stream -> list Z -> Z -> Env Stream * Z.
Variable raw_writev : Env Stream -> list (list Z) -> Env Stream * Z.

Local Abbreviation websocket_read := (websocket_read Stream raw_read raw_write).
Local Abbreviation read_loop := (read_loop Stream raw_read raw_write).
Local Abbreviation websocket_write := (websocket_write Stream raw_write).
Local Abbreviation websocket_writev :=
  (websocket_writev Stream raw_write raw_writev).
Local Abbreviation send_pending_data := (send_pending_data Stream raw_write).
Local Abbreviation send_data_header_left :=
  (send_data_header_left Stream raw_write).
Local Abbreviation send_data_header := (send_data_header Stream raw_write).
Local Abbreviation websocket_ack_close := (websocket_ack_close Stream raw_write).

(** C5. On a closed handle websocket_read returns 0 and delivers nothing,
    having thrown away what one raw read of 128 bytes brought;
    websocket_write and websocket_writev return -1 and leave errno at
    EPIPE, the raw stream untouched.  The handle is the same after each of
    the three. *)
Theorem closed_handle_refuses_io (fuel : nat) (ws : RedsWebSocket)
    (size : Z) (buf : list Z) (iov : list (list Z)) (e : Env Stream) :
  closed ws = true ->
  websocket_read fuel ws size e =
    Some (mk_read Stream 0 ws [] [] (fst (fst (raw_read e 128)))) /\
  (exists e',
     websocket_write ws buf e = Some (-1, ws, e') /\
     errno Stream e' = EPIPE /\ stream Stream e' = stream Stream e) /\
  (exists e',
     websocket_writev ws iov e = (-1, ws, e') /\
     errno Stream e' = EPIPE /\ stream Stream e' = stream Stream e).
Proof.
  intros Hc.
  unfold WebSocket.websocket_read, WebSocket.websocket_write,
    WebSocket.websocket_writev.
  rewrite Hc. cbn [orb].
  destruct (raw_read e 128) as [[e1 rc] data].
  split; [reflexivity |].
  split; exists (set_errno Stream EPIPE e); repeat split.
Qed.

(** One turn of the read loop that completes a frame header: a header
    under the rules of [rejected] ends the call with -1, errno EIO and the
    handle closed; any other header leaves the frame ready and the loop
    goes on with the handle otherwise as it was. *)
Lemma read_loop_header_step (fuel : nat) (ws : RedsWebSocket)
    (buf wire : list Z) (n size : Z) (e : Env Stream) :
  frame_ready (read_frame ws) = false ->
  0 < size ->
  let '(e1, rc, data) := raw_read e (frame_bytes_needed (read_frame ws)) in
  let frame := store_header (read_frame ws) (to_int rc) data in
  let parsed := snd (websocket_get_frame_header frame) in
  0 < to_int rc ->
  frame_bytes_needed frame <= 0 ->
  (FrameRules.rejected (header frame) ->
   read_loop (S fuel) ws buf wire n size e =
     Some (mk_read Stream (-1) (set_closed true (set_read_frame parsed ws))
                   buf wire (set_errno Stream EIO e1))) /\
  (~ FrameRules.rejected (header frame) ->
   frame_ready parsed = true /\
   read_loop (S fuel) ws buf wire n size e =
     read_loop fuel (set_read_frame parsed ws) buf wire n size e1).
Proof.
  intros Hr Hs.
  destruct (raw_read e _) as [[e1 rc] data] eqn:Er.
  intros frame parsed Hrc Hn.
  destruct (get_frame_header_rejects frame Hn) as [Hrej Hok].
  cbn [WebSocket.read_loop].
  destruct (Z.leb_spec size 0); [lia |].
  rewrite Hr. cbn [negb]. rewrite Er.
  destruct (Z.leb_spec (to_int rc) 0); [lia |].
  fold frame. subst parsed.
  destruct (websocket_get_frame_header frame) as [ok f'] eqn:Eg.
  cbn [fst snd] in *.
  split; intros Hh.
  - apply Hrej in Hh. subst ok. reflexivity.
  - destruct ok; [| exfalso; apply Hh, Hrej; reflexivity].
    split; [apply Hok; reflexivity | reflexivity].
Qed.

(** An open handle's call is its loop from nothing delivered. *)
Lemma websocket_read_enters_loop (fuel : nat) (ws : RedsWebSocket) (size : Z)
    (e : Env Stream) :
  closed ws = false -> close_pending ws = false ->
  websocket_read fuel ws size e = read_loop fuel ws [] [] 0 size e.
Proof.
  intros Hc Hp. unfold WebSocket.websocket_read. rewrite Hc, Hp. reflexivity.
Qed.

(** C4 (amended). Whatever a call of websocket_read has delivered so far,
    the turn of its loop in which a raw read completes a frame header ends
    the call with -1, errno EIO and the handle closed when the header has
    a reserved bit set, or is a control frame without FIN, or has an
    opcode in 3..7 or in 0xB..0xF, or is a control frame whose extracted
    length is 126 or more; for any other header the parse succeeds, the
    frame is ready, the parse has not closed the handle and the call goes
    on.  The call is at a turn of its loop when its result is the result
    of the loop from there; the call of an open handle starts at its loop
    with nothing delivered. *)
Theorem frame_header_validation (fuel0 : nat) (ws0 : RedsWebSocket)
    (size0 : Z) (e0 : Env Stream) (fuel : nat) (ws : RedsWebSocket)
    (buf wire : list Z) (n size : Z) (e : Env Stream) :
  websocket_read fuel0 ws0 size0 e0 = read_loop (S fuel) ws buf wire n size e ->
  frame_ready (read_frame ws) = false ->
  0 < size ->
  let '(e1, rc, data) := raw_read e (frame_bytes_needed (read_frame ws)) in
  let frame := store_header (read_frame ws) (to_int rc) data in
  let parsed := snd (websocket_get_frame_header frame) in
  0 < to_int rc ->
  frame_bytes_needed frame <= 0 ->
  (FrameRules.rejected (header frame) ->
   exists r,
     websocket_read fuel0 ws0 size0 e0 = Some r /\
     r_ret Stream r = -1 /\
     closed (r_ws Stream r) = true /\
     errno Stream (r_env Stream r) = EIO /\
     r_buf Stream r = buf) /\
  (~ FrameRules.rejected (header frame) ->
   fst (websocket_get_frame_header frame) = true /\
   frame_ready parsed = true /\
   closed (set_read_frame parsed ws) = closed ws /\
   websocket_read fuel0 ws0 size0 e0 =
     read_loop fuel (set_read_frame parsed ws) buf wire n size e1) /\
  (closed ws = false -> close_pending ws = false ->
   websocket_read (S fuel) ws size e = read_loop (S fuel) ws [] [] 0 size e).
Proof.
  intros Hat Hr Hs.
  pose proof (read_loop_header_step fuel ws buf wire n size e
                Hr Hs) as Hstep.
  destruct (raw_read e _) as [[e1 rc] data].
  intros frame parsed Hrc Hn.
  specialize (Hstep Hrc Hn). destruct Hstep as [Hbad Hgood].
  split; [| split].
  - intros Hh. rewrite Hat. eexists. split; [apply Hbad; assumption |].
    cbn. auto.
  - intros Hh. destruct (Hgood Hh) as [Hfr Hl].
    destruct (get_frame_header_rejects frame Hn) as [Hrej _].
    rewrite Hat. repeat split; try assumption.
    destruct (fst (websocket_get_frame_header frame)) eqn:Ef;
      [reflexivity | exfalso; apply Hh, Hrej; reflexivity].
  - apply websocket_read_enters_loop.
Qed.

End FramerProperties.

Lemma closed_handle_refuses_io_witness :
  Loopback.ws_read 1 Samples.ws_closed 8 (Loopback.start Samples.hello_masked 100) =
    Some (WebSocket.mk_read _ 0 Samples.ws_closed [] []
            (fst (fst (Loopback.read (Loopback.start Samples.hello_masked 100) 128)))) /\
  exists e',
    Loopback.ws_write Samples.ws_closed [65] (Loopback.start [] 100) =
      Some (-1, Samples.ws_closed, e') /\
    WebSocket.errno _ e' = WebSocket.EPIPE /\
    WebSocket.stream _ e' = WebSocket.stream _ (Loopback.start [] 100).
Proof.
  split.
  - apply (closed_handle_refuses_io Loopback.read Loopback.write Loopback.writev
             1 Samples.ws_closed 8 [65] [[65]]
             (Loopback.start Samples.hello_masked 100) eq_refl).
  - apply (closed_handle_refuses_io Loopback.read Loopback.write Loopback.writev
             1 Samples.ws_closed 8 [65] [[65]] (Loopback.start [] 100) eq_refl).
Defined.

Lemma frame_header_validation_witness :
  exists r,
    WebSocket.websocket_read _ Loopback.read Loopback.write 4 WebSocket.ws_zero 8
      (Loopback.start Samples.masked_then_0xB 100) = Some r /\
    WebSocket.r_ret _ r = -1 /\
    WebSocket.closed (WebSocket.r_ws _ r) = true /\
    WebSocket.errno _ (WebSocket.r_env _ r) = WebSocket.EIO /\
    WebSocket.r_buf _ r = [0x41].
Proof.
  assert (WebSocket.websocket_read _ Loopback.read Loopback.write 4
            WebSocket.ws_zero 8 (Loopback.start Samples.masked_then_0xB 100) =
          WebSocket.read_loop _ Loopback.read Loopback.write 1 WebSocket.ws_zero
            [0x41] [0x40] 1 7 (Loopback.start Samples.control_0xB 100)) as Hat
    by (vm_compute; reflexivity).
  pose proof (frame_header_validation Loopback.read Loopback.write 4
                WebSocket.ws_zero 8
                (Loopback.start Samples.masked_then_0xB 100) 0
                WebSocket.ws_zero [0x41] [0x40] 1 7
                (Loopback.start Samples.control_0xB 100)
                Hat eq_refl ltac:(lia)) as H.
  set (R := Loopback.read _ _) in H. vm_compute in R. subst R.
  cbv beta iota zeta in H.
  destruct (H ltac:(vm_compute; reflexivity) ltac:(vm_compute; discriminate))
    as [Hbad _].
  apply Hbad. right. vm_compute. split; discriminate.
Defined.

(** C4 as stated fails: the complete header 8B 00 (FIN set, no reserved
    bit, opcode 0xB, length 0) breaks none of the four rules of the
    specification, and yet the parse fails and the read closes the handle. *)
Lemma control_opcode_0xB_is_refused :
  let frame := Samples.frame_of_header Samples.control_0xB in
  WebSocket.frame_bytes_needed frame <= 0 /\
  ~ FrameRules.rejected_by_spec (WebSocket.header frame) /\
  fst (WebSocket.websocket_get_frame_header frame) = false /\
  exists r,
    Loopback.ws_read 1 WebSocket.ws_zero 1
                     (Loopback.start Samples.control_0xB 100) = Some r /\
    WebSocket.r_ret _ r = -1 /\
    WebSocket.closed (WebSocket.r_ws _ r) = true.
Proof.
  cbv zeta. split; [vm_compute; discriminate |].
  split; [| split; [vm_compute; reflexivity |
                    eexists; split; [vm_compute; reflexivity | split; reflexivity]]].
  unfold FrameRules.rejected_by_spec.
  change (FrameRules.reserved_bits _) with false.
  change (FrameRules.fin _) with true.
  change (FrameRules.opcode _) with 11.
  change (FrameRules.extracted_length _) with 0.
  intros [H | [[H _] | [H | [_ H]]]]; try discriminate; lia.
Qed.

(** ** Unmasked frames *)

(** C10. An unmasked binary frame is accepted and its payload reaches the
    caller unchanged, but [relayed] does not move: relay_data advances it
    only inside the branch that unmasks.  The frame therefore never
    completes: read in one call, the unmasked frames 82 01 41 and 82 01 42
    deliver 41 82 01 42 and leave the first frame ready with nothing
    relayed, where the same two frames masked deliver 41 42 and leave the
    frame cleared. *)
Theorem unmasked_frame_never_completes :
  (forall buf size frame,
     WebSocket.masked frame = false ->
     WebSocket.relay_data buf size frame =
       (to_int (Z.min size (to_uint64 (WebSocket.expected_len frame -
                                       WebSocket.relayed frame))),
        buf, frame)) /\
  (exists r,
     Loopback.ws_read 8 WebSocket.ws_zero 8
                      (Loopback.start Samples.two_unmasked 100) = Some r /\
     WebSocket.r_ret _ r = 4 /\
     WebSocket.r_buf _ r = [0x41; 0x82; 0x01; 0x42] /\
     WebSocket.closed (WebSocket.r_ws _ r) = false /\
     WebSocket.frame_ready (WebSocket.read_frame (WebSocket.r_ws _ r)) = true /\
     WebSocket.relayed (WebSocket.read_frame (WebSocket.r_ws _ r)) = 0 /\
     WebSocket.expected_len (WebSocket.read_frame (WebSocket.r_ws _ r)) = 1) /\
  (exists r,
     Loopback.ws_read 8 WebSocket.ws_zero 8
                      (Loopback.start Samples.two_masked 100) = Some r /\
     WebSocket.r_ret _ r = 2 /\
     WebSocket.r_buf _ r = [0x41; 0x42] /\
     WebSocket.closed (WebSocket.r_ws _ r) = false /\
     WebSocket.read_frame (WebSocket.r_ws _ r) =
       WebSocket.read_frame WebSocket.ws_zero).
Proof.
  split; [| split].
  - intros buf size frame H. unfold WebSocket.relay_data. rewrite H. reflexivity.
  - eexists. split; [vm_compute; reflexivity |]. repeat split.
  - eexists. split; [vm_compute; reflexivity |]. repeat split.
Qed.

(** ** Masked frames *)






Lemma relay_loop_length (cnt : nat) (buf m : list Z) (rel : Z) :
  length (fst (WebSocket.relay_loop cnt buf m rel)) = length buf.
Proof.
  revert buf rel. induction cnt as [| cnt IH]; intros buf rel; [reflexivity |].
  destruct buf as [| b buf]; cbn [WebSocket.relay_loop].
  - apply IH.
  - specialize (IH buf (to_uint64 (rel + 1))).
    destruct (WebSocket.relay_loop cnt buf m _). cbn in *. lia.
Qed.

Section MaskedRead.
Import WebSocket FrameRules.
Context {Stream : Type}.
Variable raw_read : Env Stream -> Z -> Env Stream * Z * list Z.
Variable raw_write : Env Stream -> list Z -> Z -> Env Stream * Z.

Local Abbreviation read_loop := (read_loop Stream raw_read raw_write).
Local Abbreviation websocket_read := (websocket_read Stream raw_read raw_write).


Hypothesis Hread : raw_read_contract Stream raw_read.
Variables (m : list Z) (base L : Z).
Hypothesis HL : 0 <= base <= L /\ L < 2 ^ 64.


End MaskedRead.

Section MaskedReadReturns.
Import WebSocket FrameRules.
Context {Stream : Type}.
Variable raw_read : Env Stream -> Z -> Env Stream * Z * list Z.
Variable raw_write : Env Stream -> list Z -> Z -> Env Stream * Z.
Hypothesis Hread : raw_read_contract Stream raw_read.
Variables (m : list Z) (L : Z).
Hypothesis HL : L < 2 ^ 64.

Local Abbreviation read_loop := (read_loop Stream raw_read raw_write).
Local Abbreviation websocket_read := (websocket_read Stream raw_read raw_write).


End MaskedReadReturns.

Section MaskedReadFrom.
Import WebSocket FrameRules FrameRules.
Context {Stream : Type}.
Variable raw_read : Env Stream -> Z -> Env Stream * Z * list Z.
Variable raw_write : Env Stream -> list Z -> Z -> Env Stream * Z.

Local Abbreviation read_loop := (read_loop Stream raw_read raw_write).

Hypothesis Hread : raw_read_contract Stream raw_read.
Variables (m : list Z) (first base L : Z).
Hypothesis HL : 0 <= base <= L /\ L < 2 ^ 64.
Hypothesis Hfirst : 0 <= first.


End MaskedReadFrom.

(** The byte pipe keeps to the contracts. *)
Lemma loopback_read_contract : WebSocket.raw_read_contract _ Loopback.read.
Proof.
  intros e nbyte Hn. unfold Loopback.read.
  destruct (Loopback.inbound (WebSocket.stream _ e)) as [| b l] eqn:E.
  - split; [left; reflexivity | lia].
  - rewrite length_take. split; [right; lia | reflexivity].
Qed.

Lemma loopback_write_contract : WebSocket.raw_write_contract _ Loopback.write.
Proof.
  intros e buf nbyte Hn. unfold Loopback.write.
  destruct (Z.leb_spec (Z.min nbyte (Loopback.quota (WebSocket.stream _ e))) 0);
    [left; reflexivity | right; lia].
Qed.

Section MaskedReadTheorem.
Import WebSocket FrameRules.


End MaskedReadTheorem.



(** ** The outbound header cursor *)

Lemma extract_length_nonneg (buf : list Z) (used : Z) :
  0 <= fst (WebSocket.extract_length buf used).
Proof.
  unfold WebSocket.extract_length, WebSocket.extract_length_with.
  destruct (_ =? WebSocket.LENGTH_64BIT).
  - cbn. repeat (apply Z.lor_nonneg; split; [| apply to_uint64_range]). lia.
  - destruct (_ =? WebSocket.LENGTH_16BIT); cbn.
    + apply to_uint64_range.
    + apply Z.land_nonneg. right. unfold WebSocket.LENGTH_MASK. lia.
Qed.

Section WriteInvariant.
Import WebSocket FrameRules.
Context {Stream : Type}.
Variable raw_read : Env Stream -> Z -> Env Stream * Z * list Z.
Variable raw_write : Env Stream -> list Z -> Z -> Env Stream * Z.
Variable raw_writev : Env Stream -> list (list Z) -> Env Stream * Z.
Hypothesis Hwrite : raw_write_contract Stream raw_write.

Local Abbreviation websocket_read := (websocket_read Stream raw_read raw_write).
Local Abbreviation read_loop := (read_loop Stream raw_read raw_write).
Local Abbreviation websocket_write := (websocket_write Stream raw_write).
Local Abbreviation websocket_writev :=
  (websocket_writev Stream raw_write raw_writev).
Local Abbreviation send_pending_data := (send_pending_data Stream raw_write).
Local Abbreviation send_data_header_left :=
  (send_data_header_left Stream raw_write).
Local Abbreviation send_data_header := (send_data_header Stream raw_write).
Local Abbreviation websocket_ack_close := (websocket_ack_close Stream raw_write).

Lemma write_invariant_set_closed (ws : RedsWebSocket) c :
  write_invariant ws -> write_invariant (set_closed c ws).
Proof. unfold write_invariant. cbn. auto. Qed.

Lemma write_invariant_set_read_frame (ws : RedsWebSocket) f :
  write_invariant ws -> write_invariant (set_read_frame f ws).
Proof. unfold write_invariant. cbn. auto. Qed.

Lemma write_invariant_set_close_pending (ws : RedsWebSocket) p :
  write_invariant ws -> write_invariant (set_close_pending p ws).
Proof. unfold write_invariant. cbn. auto. Qed.

Lemma send_data_header_left_invariant (ws : RedsWebSocket) (e : Env Stream) :
  write_invariant ws ->
  write_header_pos ws < write_header_len ws ->
  write_invariant (snd (fst (send_data_header_left ws e))).
Proof using Hwrite.
  intros H Hlt. pose proof H as (Hr & Hp & Hl & Hi).
  unfold WebSocket.send_data_header_left.
  pose proof (Hwrite e (take (Z.to_nat (write_header_len ws - write_header_pos ws))
                             (drop (Z.to_nat (write_header_pos ws)) (write_header ws)))
                     (write_header_len ws - write_header_pos ws) ltac:(lia)) as Hc.
  destruct (raw_write e _ _) as [e1 rc0].
  assert (to_int rc0 = rc0) as -> by (apply to_int_small; lia).
  destruct (Z.leb_spec rc0 0); cbn [fst snd]; [assumption |].
  cbn [write_header_pos write_header_len set_write_header_pos].
  rewrite to_uint8_small by lia.
  destruct (Z.geb_spec (write_header_pos ws + rc0) (write_header_len ws)).
  - pose proof (extract_length_nonneg
                  (drop (Z.to_nat 1)
                        (write_header (set_write_header_pos
                                         (write_header_pos ws + rc0) ws))) 1) as Hnn.
    destruct (extract_length _ 1) as [len used]. cbn in *.
    unfold write_invariant. cbn. repeat split; lia.
  - unfold write_invariant. cbn. repeat split; lia.
Qed.

Lemma websocket_ack_close_invariant (ws : RedsWebSocket) (e : Env Stream) :
  write_invariant ws ->
  write_invariant (snd (fst (websocket_ack_close ws e))).
Proof.
  intros H. unfold WebSocket.websocket_ack_close.
  destruct (raw_write e _ _) as [e1 rc0].
  destruct (to_int rc0 =? 2); cbn [fst snd]; [| assumption].
  apply write_invariant_set_closed, write_invariant_set_close_pending. assumption.
Qed.

Lemma send_pending_data_invariant (ws : RedsWebSocket) (e : Env Stream) :
  write_invariant ws ->
  write_invariant (snd (fst (send_pending_data ws e))).
Proof using Hwrite.
  intros H. unfold WebSocket.send_pending_data.
  destruct (write_remainder ws =? 0); cbn [negb fst snd]; [| assumption].
  destruct (Z.ltb_spec (write_header_pos ws) (write_header_len ws)).
  - pose proof (send_data_header_left_invariant ws e H ltac:(assumption)) as Hs.
    destruct (send_data_header_left ws e) as [[rc ws'] e'].
    destruct (rc <=? 0); exact Hs.
  - destruct (close_pending ws); [| assumption].
    pose proof (websocket_ack_close_invariant ws e H) as Hs.
    destruct (websocket_ack_close ws e) as [[rc ws'] e'].
    destruct (rc <=? 0); exact Hs.
Qed.

Lemma send_data_header_invariant (ws ws' : RedsWebSocket) (len rc : Z)
    (e e' : Env Stream) :
  write_invariant ws ->
  send_data_header ws len e = Some (rc, ws', e') ->
  write_invariant ws'.
Proof using Hwrite.
  intros (Hr & Hp & Hl & Hi). unfold WebSocket.send_data_header.
  destruct (write_header_pos ws >=? write_header_len ws); cbn [negb]; [| discriminate].
  destruct (Z.eqb_spec (write_remainder ws) 0) as [E0 | E0]; cbn [negb]; [| discriminate].
  pose proof (fill_header_size (write_header (set_write_header_pos 0 ws)) len) as Hsz.
  destruct (fill_header _ len) as [hdr used]. cbn [snd] in Hsz.
  intros [= Hrun].
  match type of Hrun with
  | WebSocket.send_data_header_left _ _ ?w _ = _ =>
      pose proof (send_data_header_left_invariant w e) as Hs
  end.
  rewrite Hrun in Hs. apply Hs.
  - unfold write_invariant. cbn. rewrite Hsz.
    unfold Samples.rfc6455_header_size.
    destruct (len <? 126); [| destruct (len <=? 65535)]; repeat split; lia.
  - cbn. rewrite Hsz. unfold Samples.rfc6455_header_size.
    destruct (len <? 126); [| destruct (len <=? 65535)]; lia.
Qed.

Lemma websocket_write_invariant (ws ws' : RedsWebSocket) (buf : list Z)
    (rc : Z) (e e' : Env Stream) :
  write_invariant ws ->
  websocket_write ws buf e = Some (rc, ws', e') ->
  write_invariant ws'.
Proof using Hwrite.
  intros H. unfold WebSocket.websocket_write.
  destruct (closed ws); [intros [= <- <- <-]; assumption |].
  pose proof (send_pending_data_invariant ws e H) as Hs.
  destruct (send_pending_data ws e) as [[rc1 ws1] e1]. cbn [fst snd] in Hs.
  destruct (rc1 <=? 0); [intros [= <- <- <-]; assumption |].
  assert (forall (w : RedsWebSocket) (len : Z) (e0 : Env Stream),
            write_invariant w -> 0 <= len <= write_remainder w ->
            write_invariant
              (snd (fst (let '(e2, rc2) := raw_write e0 (take (Z.to_nat len) buf) len in
                         let rc2 := to_int rc2 in
                         if rc2 >? 0
                         then (rc2, set_write_remainder
                                      (to_uint64 (write_remainder w - rc2)) w, e2)
                         else (rc2, w, e2))))) as Hbody.
  { intros w len e0 Hw Hlen. pose proof Hw as (Hr & Hp & Hl & Hi).
    pose proof (Hwrite e0 (take (Z.to_nat len) buf) len ltac:(lia)) as Hc.
    destruct (raw_write e0 _ len) as [e2 rc2]. cbv zeta.
    destruct (Z.gtb_spec (to_int rc2) 0) as [Hg | Hg]; cbn [fst snd];
      [| assumption].
    pose proof (to_uint64_range (write_remainder w - to_int rc2)).
    assert (0 < rc2) by (destruct Hc as [-> | Hc]; [discriminate Hg |];
                         destruct (Z.eq_dec rc2 0) as [-> | ?]; [discriminate Hg | lia]).
    unfold write_invariant. cbn. repeat split; try lia. }
  destruct (Z.eqb_spec (write_remainder ws1) 0) as [E0 | E0].
  - destruct (send_data_header ws1 _ e1) as [[[rc2 ws2] e2] |] eqn:Eh; [| discriminate].
    pose proof (send_data_header_invariant _ _ _ _ _ _ Hs Eh) as H2.
    destruct (rc2 <=? 0); [intros [= <- <- <-]; assumption |].
    specialize (Hbody ws2 (write_remainder ws2) e2 H2).
    destruct H2 as (? & _).
    specialize (Hbody ltac:(lia)).
    destruct (raw_write e2 _ _) as [e3 rc3]. cbv zeta in Hbody |- *.
    destruct (to_int rc3 >? 0); intros [= <- <- <-]; exact Hbody.
  - specialize (Hbody ws1 (Z.min (write_remainder ws1) (Z.of_nat (length buf))) e1 Hs).
    destruct Hs as (? & _).
    specialize (Hbody ltac:(lia)).
    destruct (raw_write e1 _ _) as [e3 rc3]. cbv zeta in Hbody |- *.
    destruct (to_int rc3 >? 0); intros [= <- <- <-]; exact Hbody.
Qed.

Lemma websocket_writev_invariant (ws ws' : RedsWebSocket)
    (iov : list (list Z)) (rc : Z) (e e' : Env Stream) :
  write_invariant ws ->
  websocket_writev ws iov e = (rc, ws', e') ->
  write_invariant ws'.
Proof using Hwrite.
  intros H. unfold WebSocket.websocket_writev.
  destruct (closed ws); [intros [= <- <- <-]; assumption |].
  pose proof (send_pending_data_invariant ws e H) as Hs.
  destruct (send_pending_data ws e) as [[rc1 ws1] e1]. cbn [fst snd] in Hs.
  destruct (rc1 <=? 0); [intros [= <- <- <-]; assumption |].
  pose proof Hs as (Hr & Hp & Hl & Hi).
  destruct (Z.gtb_spec (write_remainder ws1) 0) as [Hg | Hg].
  - destruct (raw_writev e1 _) as [e2 rc2].
    destruct (to_int rc2 <=? 0); intros [= <- <- <-]; [assumption |].
    pose proof (to_uint64_range (write_remainder ws1 - to_int rc2)).
    unfold write_invariant. cbn. repeat split; try lia.
  - set (len := fold_left _ iov 0).
    pose proof (fill_header_size (write_header (set_write_header_pos 0 ws1)) len) as Hsz.
    destruct (fill_header _ len) as [hdr used]. cbn [snd] in Hsz.
    assert (2 <= used <= 10) as Hu.
    { rewrite Hsz. unfold Samples.rfc6455_header_size.
      destruct (len <? 126); [| destruct (len <=? 65535)]; lia. }
    destruct (raw_writev e1 _) as [e2 rc2].
    cbn [write_header_len set_write_header_len].
    destruct (Z.leb_spec (to_int rc2) 0).
    { intros [= <- <- <-]. unfold write_invariant. cbn. repeat split; lia. }
    destruct (Z.ltb_spec (to_int rc2) used).
    { intros [= <- <- <-]. unfold write_invariant. cbn.
      rewrite to_uint8_small by lia. repeat split; lia. }
    intros [= <- <- <-].
    pose proof (to_uint64_range (len - (to_int rc2 - used))).
    unfold write_invariant. cbn. repeat split; lia.
Qed.

Lemma read_error_invariant ws buf wire n rc (e : Env Stream) :
  write_invariant ws ->
  write_invariant (r_ws Stream (read_error Stream ws buf wire n rc e)).
Proof.
  intros H. unfold read_error.
  destruct (_ && _ && _); [assumption |].
  destruct (rc =? 0); cbn; [apply write_invariant_set_closed |]; assumption.
Qed.

Lemma read_loop_invariant (fuel : nat) :
  forall ws buf wire n size e r,
    write_invariant ws ->
    read_loop fuel ws buf wire n size e = Some r ->
    write_invariant (r_ws Stream r).
Proof using Hwrite.
  induction fuel as [| fuel IH]; intros ws buf wire n size e r H;
    cbn [WebSocket.read_loop].
  - destruct (size <=? 0); [intros [= <-]; assumption | discriminate].
  - destruct (size <=? 0); [intros [= <-]; assumption |].
    destruct (frame_ready (read_frame ws)); cbn [negb].
    + destruct (type (read_frame ws) =? CLOSE_FRAME).
      { match goal with
        | |- context [WebSocket.send_pending_data _ _ ?w ?e0] =>
            pose proof (send_pending_data_invariant w e0) as Hs
        end.
        destruct (WebSocket.send_pending_data _ _ _ _) as [[rc ws'] e'].
        intros [= <-]. apply Hs.
        apply write_invariant_set_read_frame, write_invariant_set_close_pending. assumption. }
      destruct (type (read_frame ws) =? BINARY_FRAME).
      * destruct (raw_read e _) as [[e1 rc0] data].
        destruct (to_int rc0 <=? 0);
          [intros [= <-]; apply read_error_invariant; assumption |].
        destruct (relay_data _ _ _) as [[rc1 plain] f'].
        apply IH. apply write_invariant_set_read_frame. assumption.
      * apply IH. apply write_invariant_set_read_frame. assumption.
    + destruct (raw_read e _) as [[e1 rc0] data].
      destruct (to_int rc0 <=? 0);
        [intros [= <-]; apply read_error_invariant; assumption |].
      destruct (websocket_get_frame_header _) as [ok f'].
      destruct ok; cbn [negb].
      * apply IH. apply write_invariant_set_read_frame. assumption.
      * intros [= <-]. cbn.
        apply write_invariant_set_closed, write_invariant_set_read_frame. assumption.
Qed.

Lemma websocket_read_invariant fuel ws size e r :
  write_invariant ws ->
  websocket_read fuel ws size e = Some r ->
  write_invariant (r_ws Stream r).
Proof using Hwrite.
  intros H. unfold WebSocket.websocket_read.
  destruct (closed ws || close_pending ws).
  - destruct (raw_read e 128) as [[e1 rc] data]. intros [= <-]. assumption.
  - apply read_loop_invariant. assumption.
Qed.

Lemma reachable_write_invariant (ws : RedsWebSocket) :
  reachable Stream raw_read raw_write raw_writev ws -> write_invariant ws.
Proof using Hwrite.
  induction 1 as [| fuel ws size e r _ IH Hrun
                  | ws buf e rc ws' e' _ IH Hrun
                  | ws iov e rc ws' e' _ IH Hrun].
  - unfold write_invariant. cbn. lia.
  - eapply websocket_read_invariant; eassumption.
  - eapply websocket_write_invariant; eassumption.
  - eapply websocket_writev_invariant; eassumption.
Qed.

(** C7 (amended). In every handle that can be reached from the one websocket_new
    returns by calls of websocket_read, websocket_write and
    websocket_writev, whatever the raw stream answers within the contract
    of a write (an error, or a count of at most the bytes offered),
    write_remainder > 0 implies write_header_pos = write_header_len. *)
Theorem body_owed_only_after_header (ws : RedsWebSocket) :
  reachable Stream raw_read raw_write raw_writev ws ->
  0 < write_remainder ws ->
  write_header_pos ws = write_header_len ws.
Proof using Hwrite.
  intros Hreach Hrem.
  destruct (reachable_write_invariant ws Hreach) as (_ & _ & _ & Hi).
  exact (Hi Hrem).
Qed.

End WriteInvariant.

Lemma body_owed_only_after_header_witness :
  0 < WebSocket.write_remainder Samples.ws_after_short_write /\
  WebSocket.write_header_pos Samples.ws_after_short_write =
    WebSocket.write_header_len Samples.ws_after_short_write.
Proof.
  split; [vm_compute; reflexivity |].
  assert (exists rc e',
             WebSocket.websocket_write _ Loopback.write WebSocket.ws_zero
               [0x41; 0x42; 0x43] (Loopback.start [] 2) =
               Some (rc, Samples.ws_after_short_write, e')) as (rc & e' & E)
    by (do 2 eexists; vm_compute; reflexivity).
  apply (body_owed_only_after_header Loopback.read Loopback.write Loopback.writev
           loopback_write_contract).
  - exact (WebSocket.reachable_write _ _ _ _ _ _ _ _ _ _
             (WebSocket.reachable_new _ _ _ _) E).
  - vm_compute. reflexivity.
Defined.

(** C7 as stated fails over arbitrary results of the raw write: one that
    reports more bytes than it was given leaves a body owed with the
    cursor past the end of the header. *)
Lemma over_reporting_write_breaks_cursor :
  WebSocket.reachable _ Loopback.read Samples.write_over_reports Loopback.writev
                      Samples.ws_after_over_report /\
  0 < WebSocket.write_remainder Samples.ws_after_over_report /\
  WebSocket.write_header_pos Samples.ws_after_over_report = 5 /\
  WebSocket.write_header_len Samples.ws_after_over_report = 2 /\
  WebSocket.write_header_pos Samples.ws_after_over_report <>
    WebSocket.write_header_len Samples.ws_after_over_report.
Proof.
  split; [| vm_compute; repeat split; try reflexivity; discriminate].
  assert (exists rc e',
             WebSocket.websocket_write _ Samples.write_over_reports
               WebSocket.ws_zero [0x41] (Loopback.start [] 2) =
               Some (rc, Samples.ws_after_over_report, e')) as (rc & e' & E)
    by (do 2 eexists; vm_compute; reflexivity).
  exact (WebSocket.reachable_write _ _ _ _ _ _ _ _ _ _
           (WebSocket.reachable_new _ _ _ _) E).
Qed.

(** * Further properties of the code

    Properties read off the functions themselves: the capability words,
    the aggregates as quantifiers, the list of channel-clients, the
    fan-out of pipe items, the migration counters, and on the WebSocket
    side the header round trip, the bounds of the header array, the value
    a read returns, the closing handshake and the outbound frames. *)

(** ** Capabilities *)

Lemma to_uint32_to_int x : to_uint32 (to_int x) = x mod 2 ^ 32.
Proof.
  unfold to_uint32, to_int.
  rewrite Zminus_mod_idemp_l. f_equal. lia.
Qed.

Lemma cap_mask_bit k j :
  0 <= k < 32 -> 0 <= j ->
  Z.testbit (to_uint32 (int_shl 1 k)) j = (j =? k).
Proof.
  intros Hk Hj. unfold int_shl.
  rewrite to_uint32_to_int. rewrite (Z.mod_small k 32) by lia.
  rewrite Z.shiftl_1_l.
  rewrite Z.mod_small.
  - rewrite Z.pow2_bits_eqb by lia. apply Z.eqb_sym.
  - split; [lia |]. apply Z.pow_lt_mono_r; lia.
Qed.

Lemma cap_index_split c cap :
  0 <= c -> 0 <= cap ->
  (c =? cap) = (c / 32 =? cap / 32) && (c mod 32 =? cap mod 32).
Proof.
  intros Hc Hcap.
  pose proof (Z.div_mod c 32 ltac:(lia)).
  pose proof (Z.div_mod cap 32 ltac:(lia)).
  destruct (Z.eqb_spec c cap) as [-> | N].
  - rewrite !Z.eqb_refl. reflexivity.
  - destruct (Z.eqb_spec (c / 32) (cap / 32)); [| reflexivity].
    destruct (Z.eqb_spec (c mod 32) (cap mod 32)); [lia | reflexivity].
Qed.

(** X1. add_capability on an array of [num_caps] words sets bit [cap % 32]
    of word [cap / 32] and changes no other capability bit: afterwards
    capability [c] is set exactly when [c] is [cap] or was set before.  The
    array grows to [cap / 32 + 1] words when it was shorter, and the count
    stays the length of the array. *)
Theorem add_capability_sets_one_bit (caps : list Z) (cap c : Z) :
  0 <= cap < 2 ^ 32 ->
  0 <= c ->
  let '(caps', num') :=
    Channel.add_capability caps (Z.of_nat (length caps)) cap in
  num' = Z.of_nat (length caps') /\
  num' = Z.max (Z.of_nat (length caps)) (cap / 32 + 1) /\
  Channel.cap_bit caps' c = (c =? cap) || Channel.cap_bit caps c.
Proof.
  intros Hcap Hc. unfold Channel.add_capability.
  assert (to_uint32 cap = cap) as Ecap
    by (unfold to_uint32; apply Z.mod_small; lia).
  rewrite !Ecap.
  assert (0 <= cap / 32 < 2 ^ 27) as Hn.
  { split; [apply Z.div_pos; lia | apply Z.div_lt_upper_bound; lia]. }
  rewrite to_int_small by lia.
  rewrite Nat2Z.id, firstn_all.
  set (n := cap / 32) in *.
  set (num' := Z.max (Z.of_nat (length caps)) (n + 1)).
  set (ext := caps ++ replicate (Z.to_nat (num' - Z.of_nat (length caps))) 0).
  assert (length ext = Z.to_nat num') as Hlen.
  { subst ext. rewrite length_app, length_replicate. lia. }
  assert (forall i, default 0 (ext !! i) = default 0 (caps !! i)) as Hext.
  { intros i. subst ext. destruct (decide (i < length caps)%nat).
    - rewrite lookup_app_l by lia. reflexivity.
    - rewrite lookup_app_r by lia. rewrite (lookup_ge_None_2 caps) by lia.
      destruct (replicate _ 0 !! _) eqn:E; [| reflexivity].
      apply lookup_replicate in E. destruct E as [-> _]. reflexivity. }
  repeat split.
  - rewrite length_insert. lia.
  - unfold Channel.cap_bit.
    pose proof (Z.mod_pos_bound cap 32 ltac:(lia)).
    pose proof (Z.mod_pos_bound c 32 ltac:(lia)).
    assert (0 <= c / 32) by (apply Z.div_pos; lia).
    rewrite (cap_index_split c cap) by lia. fold n.
    destruct (Z.eqb_spec (c / 32) n) as [E | E].
    + rewrite E. rewrite list_lookup_insert_eq by lia.
      unfold default at 1. cbn [from_option id].
      rewrite Z.lor_spec, cap_mask_bit by lia. rewrite Hext.
      cbn [andb]. apply orb_comm.
    + rewrite list_lookup_insert_ne by lia. rewrite Hext. reflexivity.
Qed.

Lemma add_capability_sets_one_bit_witness :
  let '(caps', num') := Channel.add_capability [5] 1 40 in
  num' = 2 /\ Channel.cap_bit caps' 40 = true /\ Channel.cap_bit caps' 2 = true.
Proof.
  pose proof (add_capability_sets_one_bit [5] 40 40 ltac:(lia) ltac:(lia)) as H1.
  pose proof (add_capability_sets_one_bit [5] 40 2 ltac:(lia) ltac:(lia)) as H2.
  change (Z.of_nat (length [5])) with 1 in H1, H2.
  destruct (Channel.add_capability [5] 1 40) as [caps' num'].
  destruct H1 as (_ & -> & ->), H2 as (_ & _ & ->). repeat split.
Defined.

(** ** Aggregates as quantifiers over the channel-clients *)

Section AggregateQuantifiers.
Import Channel.
Context {RedChannelClient : Type}.
Variables (is_blocked no_item : RedChannelClient -> bool)
          (pipe_size : RedChannelClient -> Z)
          (common_cap cap : RedChannelClient -> Z -> bool).

Lemma foreach_all_true (p : RedChannelClient -> bool) (l : list RedChannelClient) :
  foreach_all _ p l = true <-> forall rcc, In rcc l -> p rcc = true.
Proof.
  induction l as [| x l IH]; cbn.
  - split; [intros _ rcc [] | reflexivity].
  - destruct (p x) eqn:E; cbn.
    + rewrite IH. split.
      * intros H rcc [<- | Hin]; auto.
      * intros H rcc Hin. apply H. auto.
    + split; [discriminate |]. intros H. rewrite <- E. apply H. auto.
Qed.

Lemma foreach_any_true (p : RedChannelClient -> bool) (l : list RedChannelClient) :
  foreach_any _ p l = true <-> exists rcc, In rcc l /\ p rcc = true.
Proof.
  induction l as [| x l IH]; cbn.
  - split; [discriminate | intros (rcc & [] & _)].
  - destruct (p x) eqn:E.
    + split; [intros _; exists x; auto | reflexivity].
    + rewrite IH. split.
      * intros (rcc & Hin & Hp). exists rcc. auto.
      * intros (rcc & [<- | Hin] & Hp); [congruence | exists rcc; auto].
Qed.

(** X2. red_channel_all_blocked is TRUE exactly when the channel has a
    channel-client and every channel-client is blocked;
    red_channel_any_blocked is TRUE exactly when some channel-client is
    blocked; so all_blocked implies any_blocked. *)
Theorem blocked_aggregates (c : RedChannel RedChannelClient) :
  (red_channel_all_blocked _ is_blocked (Some c) = true <->
   clients c <> [] /\ forall rcc, In rcc (clients c) -> is_blocked rcc = true) /\
  (red_channel_any_blocked _ is_blocked c = true <->
   exists rcc, In rcc (clients c) /\ is_blocked rcc = true) /\
  (red_channel_all_blocked _ is_blocked (Some c) = true ->
   red_channel_any_blocked _ is_blocked c = true).
Proof.
  unfold red_channel_all_blocked, red_channel_any_blocked.
  assert (A : match clients c with
              | [] => false
              | _ :: _ => foreach_all _ is_blocked (clients c)
              end = true <->
              clients c <> [] /\
              forall rcc, In rcc (clients c) -> is_blocked rcc = true).
  { destruct (clients c) as [| x l] eqn:E.
    - split; [discriminate | intros [H _]; congruence].
    - rewrite foreach_all_true. split; [intros H; split; [discriminate | exact H] | tauto]. }
  split; [exact A |]. split; [apply foreach_any_true |].
  intros H. apply A in H. destruct H as [Hne Hall].
  apply foreach_any_true.
  destruct (clients c) as [| x l]; [congruence |].
  exists x. split; [left; reflexivity | apply Hall; left; reflexivity].
Qed.

(** X3. red_channel_no_item_being_sent, red_channel_test_remote_common_cap
    and red_channel_test_remote_cap are TRUE exactly when the test of the
    channel-client holds for every channel-client of the channel. *)
Theorem universal_aggregates (c : RedChannel RedChannelClient) (b : Z) :
  (red_channel_no_item_being_sent _ no_item c = true <->
   forall rcc, In rcc (clients c) -> no_item rcc = true) /\
  (red_channel_test_remote_common_cap _ common_cap c b = true <->
   forall rcc, In rcc (clients c) -> common_cap rcc b = true) /\
  (red_channel_test_remote_cap _ cap c b = true <->
   forall rcc, In rcc (clients c) -> cap rcc b = true).
Proof.
  unfold red_channel_no_item_being_sent, red_channel_test_remote_common_cap,
    red_channel_test_remote_cap.
  repeat split; try (apply foreach_all_true); intros H;
    apply (foreach_all_true _ (clients c)); exact H.
Qed.

Lemma fold_max_bounds (l : list RedChannelClient) (acc : Z) :
  let m := fold_left (fun a rcc => Z.max a (pipe_size rcc)) l acc in
  acc <= m /\ (forall rcc, In rcc l -> pipe_size rcc <= m) /\
  (m = acc \/ exists rcc, In rcc l /\ pipe_size rcc = m).
Proof.
  revert acc. induction l as [| x l IH]; intros acc; cbn.
  - repeat split; [lia | intros rcc [] | left; reflexivity].
  - destruct (IH (Z.max acc (pipe_size x))) as (H1 & H2 & H3).
    repeat split.
    + lia.
    + intros rcc [<- | Hin]; [lia | auto].
    + destruct H3 as [-> | (rcc & Hin & E)].
      * destruct (Z.max_spec acc (pipe_size x)) as [[_ ->] | [_ ->]];
          [right; exists x; auto | left; reflexivity].
      * right. exists rcc. auto.
Qed.

Lemma fold_min_bounds (l : list RedChannelClient) (acc : Z) :
  let m := fold_left (fun a rcc => Z.min a (pipe_size rcc)) l acc in
  m <= acc /\ (forall rcc, In rcc l -> m <= pipe_size rcc) /\
  (m = acc \/ exists rcc, In rcc l /\ pipe_size rcc = m).
Proof.
  revert acc. induction l as [| x l IH]; intros acc; cbn.
  - repeat split; [lia | intros rcc [] | left; reflexivity].
  - destruct (IH (Z.min acc (pipe_size x))) as (H1 & H2 & H3).
    repeat split.
    + lia.
    + intros rcc [<- | Hin]; [lia | auto].
    + destruct H3 as [-> | (rcc & Hin & E)].
      * destruct (Z.min_spec acc (pipe_size x)) as [[_ ->] | [_ ->]];
          [left; reflexivity | right; exists x; auto].
      * right. exists rcc. auto.
Qed.

(** X4. With the pipe sizes in the range of uint32_t, the pipe size of
    every channel-client lies between red_channel_min_pipe_size and
    red_channel_max_pipe_size; on a channel with a channel-client the
    maximum is the pipe size of one of them, and so is the minimum when no
    pipe size is 2^32 - 1, the value the code takes for "none seen". *)
Theorem pipe_size_bounds (c : RedChannel RedChannelClient) :
  (forall rcc, In rcc (clients c) -> 0 <= pipe_size rcc < 2 ^ 32) ->
  (forall rcc, In rcc (clients c) ->
     red_channel_min_pipe_size _ pipe_size c <= pipe_size rcc <=
     red_channel_max_pipe_size _ pipe_size c) /\
  (clients c <> [] ->
   (exists rcc, In rcc (clients c) /\
                pipe_size rcc = red_channel_max_pipe_size _ pipe_size c) /\
   ((forall rcc, In rcc (clients c) -> pipe_size rcc < 2 ^ 32 - 1) ->
    exists rcc, In rcc (clients c) /\
                pipe_size rcc = red_channel_min_pipe_size _ pipe_size c)).
Proof.
  intros Hr.
  unfold red_channel_min_pipe_size, red_channel_max_pipe_size.
  change all_ones32 with (2 ^ 32 - 1).
  destruct (fold_max_bounds (clients c) 0) as (M1 & M2 & M3).
  destruct (fold_min_bounds (clients c) (2 ^ 32 - 1)) as (N1 & N2 & N3).
  cbv zeta in *.
  set (mx := fold_left _ (clients c) 0) in *.
  set (mn := fold_left _ (clients c) (2 ^ 32 - 1)) in *.
  split.
  - intros rcc Hin. specialize (Hr rcc Hin).
    specialize (M2 rcc Hin). specialize (N2 rcc Hin).
    destruct (Z.eqb_spec mn (2 ^ 32 - 1)); lia.
  - intros Hne. split.
    + destruct M3 as [E | H]; [| exact H].
      destruct (clients c) as [| x l] eqn:Ec; [congruence |].
      exists x. split; [left; reflexivity |].
      pose proof (M2 x ltac:(left; reflexivity)).
      pose proof (Hr x ltac:(left; reflexivity)). lia.
    + intros Hlt.
      destruct N3 as [E | (rcc & Hin & E)].
      * destruct (clients c) as [| x l] eqn:Ec; [congruence |].
        pose proof (N2 x ltac:(left; reflexivity)).
        pose proof (Hlt x ltac:(left; reflexivity)). lia.
      * exists rcc. split; [exact Hin |].
        specialize (Hlt rcc Hin).
        destruct (Z.eqb_spec mn (2 ^ 32 - 1)); lia.
Qed.

(** X5. red_channel_sum_pipes_size is the sum of the pipe sizes of the
    channel-clients modulo 2^32. *)
Theorem sum_pipes_size_mod (c : RedChannel RedChannelClient) :
  red_channel_sum_pipes_size _ pipe_size c =
    fold_right (fun rcc s => pipe_size rcc + s) 0 (clients c) mod 2 ^ 32.
Proof.
  unfold red_channel_sum_pipes_size.
  assert (forall l acc,
            fold_left (fun sum rcc => to_uint32 (sum + pipe_size rcc)) l
                      (acc mod 2 ^ 32) =
            (acc + fold_right (fun rcc s => pipe_size rcc + s) 0 l) mod 2 ^ 32) as G.
  { induction l as [| x l IH]; intros acc; cbn.
    - rewrite Z.add_0_r. reflexivity.
    - unfold to_uint32 at 2. rewrite Zplus_mod_idemp_l.
      rewrite IH. f_equal. lia. }
  exact (G (clients c) 0).
Qed.

End AggregateQuantifiers.

Lemma pipe_size_bounds_witness :
  Channel.red_channel_min_pipe_size _ (fun x : Z => x)
    (Channel.mk_channel 1 0 false [3; 7; 5] 0) <= 7 <=
  Channel.red_channel_max_pipe_size _ (fun x : Z => x)
    (Channel.mk_channel 1 0 false [3; 7; 5] 0).
Proof.
  apply (pipe_size_bounds (fun x : Z => x)
           (Channel.mk_channel 1 0 false [3; 7; 5] 0)).
  - intros rcc [<- | [<- | [<- | []]]]; lia.
  - right. left. reflexivity.
Defined.

(** ** The list of channel-clients *)

Section ClientListProperties.
Import Channel.
Context {RedChannelClient : Type} `{EqDecision RedChannelClient}.
Variable is_channel_of : RedChannel RedChannelClient -> RedChannelClient -> bool.
Variable is_waiting : RedChannelClient -> bool.

Lemma g_list_find_In (l : list RedChannelClient) (x : RedChannelClient) :
  g_list_find l x = true <-> In x l.
Proof.
  induction l as [| y l IH]; cbn; [split; [discriminate | tauto] |].
  destruct (decide (y = x)) as [-> | N]; [tauto |].
  rewrite IH. split; [tauto | intros [? | ?]; [congruence | assumption]].
Qed.

Lemma g_list_remove_length (l : list RedChannelClient) (x : RedChannelClient) :
  In x l -> S (length (g_list_remove l x)) = length l.
Proof.
  induction l as [| y l IH]; cbn; [tauto |].
  destruct (decide (y = x)) as [-> | N]; [reflexivity |].
  intros [? | Hin]; [congruence |]. cbn. rewrite (IH Hin). reflexivity.
Qed.

Lemma g_list_remove_In (l : list RedChannelClient) (x y : RedChannelClient) :
  NoDup l -> (In y (g_list_remove l x) <-> y <> x /\ In y l).
Proof.
  induction l as [| z l IH]; cbn; [tauto |].
  intros Hnd. apply NoDup_cons in Hnd. destruct Hnd as [Hz Hnd].
  rewrite list_elem_of_In in Hz.
  destruct (decide (z = x)) as [-> | N].
  - split.
    + intros Hin. split; [intros -> |]; tauto.
    + intros [Hne [? | ?]]; [congruence | assumption].
  - cbn. rewrite (IH Hnd). split.
    + intros [<- | [? ?]]; [split; [congruence | tauto] | tauto].
    + intros [Hne [? | ?]]; tauto.
Qed.

Lemma set_clients_same (c : RedChannel RedChannelClient) :
  set_clients _ (clients c) c = c.
Proof. destruct c. reflexivity. Qed.

(** X6. red_channel_remove_client leaves the channel as it is when the
    channel-client belongs to another channel or is not in the list;
    otherwise the list loses one entry, and (the list holding no
    channel-client twice) it holds the other channel-clients and no longer
    this one.  Removing the channel-client that red_channel_add_client just
    added gives the channel back; after adding, the channel is connected
    and has one channel-client more. *)
Theorem remove_client_takes_one_out (c : RedChannel RedChannelClient)
    (rcc : RedChannelClient) :
  (is_channel_of c rcc = false \/ ~ In rcc (clients c) ->
   red_channel_remove_client is_channel_of c rcc = c) /\
  (is_channel_of c rcc = true -> In rcc (clients c) ->
   red_channel_get_n_clients (red_channel_remove_client is_channel_of c rcc) =
     red_channel_get_n_clients c - 1 /\
   (NoDup (clients c) ->
    forall y, In y (clients (red_channel_remove_client is_channel_of c rcc)) <->
              y <> rcc /\ In y (clients c))) /\
  (is_channel_of (red_channel_add_client c rcc) rcc = true ->
   red_channel_remove_client is_channel_of (red_channel_add_client c rcc) rcc = c) /\
  red_channel_is_connected (Some (red_channel_add_client c rcc)) = true /\
  red_channel_get_n_clients (red_channel_add_client c rcc) =
    red_channel_get_n_clients c + 1.
Proof.
  unfold red_channel_remove_client, red_channel_add_client,
    red_channel_get_n_clients.
  split; [| split; [| split; [| split]]].
  - intros [-> | Hn]; [reflexivity |].
    destruct (is_channel_of c rcc); cbn [negb]; [| reflexivity].
    destruct (g_list_find (clients c) rcc) eqn:E; [| reflexivity].
    apply g_list_find_In in E. contradiction.
  - intros Hc Hin. rewrite Hc. cbn [negb].
    apply g_list_find_In in Hin as E. rewrite E. cbn.
    split.
    + pose proof (g_list_remove_length _ _ Hin). lia.
    + intros Hnd y. apply g_list_remove_In; assumption.
  - intros ->. cbn. destruct (decide (rcc = rcc)); [| congruence].
    cbn. destruct (decide (rcc = rcc)); [| congruence].
    destruct c. reflexivity.
  - reflexivity.
  - cbn. lia.
Qed.

(** X7. red_channel_is_waiting_for_migrate_data never trips its assertion,
    and returns TRUE exactly when the channel has a single channel-client
    and that one is waiting for migration data. *)
Theorem waiting_for_migrate_data_only_single_client
    (c : RedChannel RedChannelClient) :
  exists b,
    red_channel_is_waiting_for_migrate_data is_waiting c = Some b /\
    (b = true <-> exists rcc, clients c = [rcc] /\ is_waiting rcc = true).
Proof.
  unfold red_channel_is_waiting_for_migrate_data, red_channel_is_connected.
  destruct (clients c) as [| x [| y l]].
  - exists false. split; [reflexivity |].
    split; [discriminate | intros (? & ? & _); discriminate].
  - exists (is_waiting x). split; [reflexivity |].
    split; [intros Hw; exists x; auto | intros (? & [= <-] & Hw); exact Hw].
  - cbn [negb].
    destruct (Z.gtb_spec (Z.of_nat (length (x :: y :: l))) 1) as [Hg | Hg];
      [| cbn [length] in Hg; lia].
    exists false. split; [reflexivity |].
    split; [discriminate | intros (? & ? & _); discriminate].
Qed.

End ClientListProperties.

(** ** Fan-out, and the channels of a client *)

Section BatchProperties.
Import Channel.
Context {RedChannelClient RedPipeItem : Type}.
Variable creator : RedChannelClient -> Z -> option RedPipeItem.

Lemma created_from_cons (num : Z) (x : RedChannelClient)
    (l : list RedChannelClient) :
  created_from creator num (x :: l) =
    match creator x num with
    | Some item => (x, item) :: created_from creator (num + 1) l
    | None => created_from creator (num + 1) l
    end.
Proof.
  unfold created_from. rewrite imap_cons. cbn [omap list_omap].
  rewrite Z.add_0_r.
  assert (imap ((fun i rcc => (num + Z.of_nat i, rcc)) ∘ S) l =
          imap (fun i rcc => (num + 1 + Z.of_nat i, rcc)) l) as ->.
  { apply imap_ext. intros i y _. cbn. f_equal. lia. }
  destruct (creator x num); reflexivity.
Qed.

Lemma created_from_length (num : Z) (l : list RedChannelClient) :
  (length (created_from creator num l) <= length l)%nat.
Proof.
  revert num. induction l as [| x l IH]; intros num; [cbn; lia |].
  rewrite created_from_cons. specialize (IH (num + 1)).
  destruct (creator x num); cbn; lia.
Qed.

Lemma create_batch_loop_spec (l : list RedChannelClient) :
  forall num n added,
    0 <= num -> 0 <= n ->
    num + Z.of_nat (length l) <= INT_MAX ->
    n + Z.of_nat (length l) <= INT_MAX ->
    create_batch_loop creator l num n added =
      (n + Z.of_nat (length (created_from creator num l)), added ++ created_from creator num l).
Proof.
  unfold INT_MAX.
  induction l as [| x l IH]; intros num n added Hnum Hn Hb1 Hb2.
  - cbn. rewrite Z.add_0_r, app_nil_r. reflexivity.
  - cbn [create_batch_loop]. rewrite created_from_cons.
    cbn [length] in Hb1, Hb2.
    rewrite (to_int_small (num + 1)) by lia.
    destruct (creator x num) as [item |].
    + rewrite (to_int_small (n + 1)) by lia.
      rewrite IH by lia. cbn [length]. rewrite <- app_assoc. cbn.
      f_equal. lia.
    + rewrite IH by lia. reflexivity.
Qed.

(** X8. On a channel with at most INT_MAX channel-clients,
    red_channel_pipes_create_batch calls the creator once for each
    channel-client, in list order, with the positions 0, 1, 2, ...; it
    hands the items that are not NULL to pipe_add in that order, each with
    its channel-client, and returns their number, which is at most the
    number of channel-clients. *)
Theorem pipes_create_batch_counts (c : RedChannel RedChannelClient) :
  Z.of_nat (length (clients c)) <= INT_MAX ->
  red_channel_pipes_create_batch c creator =
    (Z.of_nat (length (created_from creator 0 (clients c))), created_from creator 0 (clients c)) /\
  fst (red_channel_pipes_create_batch c creator) <= red_channel_get_n_clients c.
Proof.
  intros Hb. unfold red_channel_pipes_create_batch, red_channel_get_n_clients.
  rewrite create_batch_loop_spec by lia. cbn.
  pose proof (created_from_length 0 (clients c)). split; [reflexivity | lia].
Qed.

End BatchProperties.

Lemma pipes_create_batch_counts_witness :
  Channel.red_channel_pipes_create_batch
    (Channel.mk_channel 1 0 false [1; 2; 3] 0)
    (fun rcc num => if Z.even rcc then Some (rcc + num) else None) =
    (1, [(2, 3)]).
Proof.
  exact (proj1 (pipes_create_batch_counts
                  (fun rcc num => if Z.even rcc then Some (rcc + num) else None)
                  (Channel.mk_channel 1 0 false [1; 2; 3] 0)
                  ltac:(vm_compute; discriminate))).
Defined.

Section ClientChannelsProperties.
Import Channel.
Context {RedChannelClient : Type}.
Variable accepts : RedChannelClient -> bool.
Variable channel_type_id : RedChannelClient -> Z * Z.

(** X9. red_client_get_channel returns the first channel-client of the
    list whose channel's type and id are the arguments converted to
    uint32_t (the fields are uint32_t, the arguments int), and NULL
    exactly when no channel-client of the list has them. *)
Theorem get_channel_finds_first (channels : list RedChannelClient) (t i : Z) :
  (forall rcc,
     red_client_get_channel channel_type_id channels t i = Some rcc ->
     exists before after,
       channels = before ++ rcc :: after /\
       channel_type_id rcc = (to_uint32 t, to_uint32 i) /\
       forall x, In x before ->
                 channel_type_id x <> (to_uint32 t, to_uint32 i)) /\
  (red_client_get_channel channel_type_id channels t i = None <->
   forall x, In x channels ->
             channel_type_id x <> (to_uint32 t, to_uint32 i)).
Proof.
  split.
  all: induction channels as [| y l IH]; cbn.
  - discriminate.
  - destruct (channel_type_id y) as [ty iy] eqn:Ey.
    destruct (Z.eqb_spec ty (to_uint32 t)) as [-> | Nt];
      [destruct (Z.eqb_spec iy (to_uint32 i)) as [-> | Ni] |]; cbn [andb].
    + intros rcc [= <-]. exists [], l. repeat split; [exact Ey | intros x []].
    + intros rcc Hr. destruct (IH rcc Hr) as (b & a & -> & Hm & Hb).
      exists (y :: b), a. repeat split; [exact Hm |].
      intros x [<- | Hin]; [congruence | auto].
    + intros rcc Hr. destruct (IH rcc Hr) as (b & a & -> & Hm & Hb).
      exists (y :: b), a. repeat split; [exact Hm |].
      intros x [<- | Hin]; [congruence | auto].
  - split; [intros _ x [] | reflexivity].
  - destruct (channel_type_id y) as [ty iy] eqn:Ey.
    destruct (Z.eqb_spec ty (to_uint32 t)) as [-> | Nt];
      [destruct (Z.eqb_spec iy (to_uint32 i)) as [-> | Ni] |]; cbn [andb].
    + split; [discriminate |]. intros H. exfalso.
      apply (H y); [left; reflexivity | exact Ey].
    + rewrite IH. split.
      * intros H x [<- | Hin]; [congruence | auto].
      * intros H x Hin. apply H. right. exact Hin.
    + rewrite IH. split.
      * intros H x [<- | Hin]; [congruence | auto].
      * intros H x Hin. apply H. right. exact Hin.
Qed.

(** X10. A client's seamless_migrate flag is only set while
    during_target_migrate is: red_client_new starts that way, and
    red_client_set_migration_seamless, red_client_add_channel,
    red_client_seamless_migration_done_for_channel and
    red_client_semi_seamless_migrate_complete keep it so. *)
Theorem migration_flags_stay_in_agreement (client : RedClient)
    (channels : list RedChannelClient) (rcc : RedChannelClient) (migrated : bool) :
  migration_flags_agree (red_client_new migrated) /\
  (forall client',
     red_client_set_migration_seamless accepts client channels = Some client' ->
     migration_flags_agree client') /\
  (migration_flags_agree client ->
   migration_flags_agree (fst (red_client_add_channel accepts client channels rcc)) /\
   migration_flags_agree
     (snd (fst (red_client_seamless_migration_done_for_channel client))) /\
   migration_flags_agree
     (fst (red_client_semi_seamless_migrate_complete client channels))).
Proof.
  unfold migration_flags_agree. split; [cbn; discriminate |]. split.
  - unfold red_client_set_migration_seamless.
    destruct (during_target_migrate client) eqn:Ed; cbn [negb]; [| discriminate].
    intros client' [= <-] _.
    assert (forall l c, during_target_migrate (count_seamless accepts l c) =
                        during_target_migrate c) as G.
    { induction l as [| x l IH]; intros c; cbn; [reflexivity |].
      rewrite IH. destruct (accepts x); reflexivity. }
    rewrite G. reflexivity.
  - intros H. repeat split.
    + unfold red_client_add_channel.
      destruct (_ && _); [destruct (accepts rcc) |]; cbn; exact H.
    + unfold red_client_seamless_migration_done_for_channel. cbn.
      destruct (_ =? 0); cbn; [discriminate | exact H].
    + unfold red_client_semi_seamless_migrate_complete.
      destruct (during_target_migrate client) eqn:Ed,
               (seamless_migrate client) eqn:Es; cbn; rewrite ?Ed, ?Es;
        try discriminate; auto.
Qed.

Lemma count_seamless_num (l : list RedChannelClient) :
  forall c,
    0 <= num_migrated_channels c ->
    num_migrated_channels c + Z.of_nat (length l) <= INT_MAX ->
    count_seamless accepts l c =
      set_num_migrated_channels
        (num_migrated_channels c +
         Z.of_nat (length (filter (fun r => accepts r = true) l))) c.
Proof.
  unfold INT_MAX.
  induction l as [| x l IH]; intros c H0 Hb.
  - cbn. rewrite Z.add_0_r. destruct c. reflexivity.
  - cbn [count_seamless length] in *.
    pose proof (length_filter (fun r => accepts r = true) l) as Hf.
    rewrite filter_cons. destruct (accepts x) eqn:Ea.
    + rewrite decide_True by reflexivity.
      rewrite IH; cbn; rewrite to_int_small by lia; try lia.
      unfold set_num_migrated_channels. cbn. f_equal. lia.
    + rewrite decide_False by discriminate.
      rewrite IH by lia. reflexivity.
Qed.

(** X11. red_client_set_migration_seamless aborts exactly when the client
    is not in migration at the target; otherwise it sets seamless_migrate
    and adds to num_migrated_channels the number of the client's
    channel-clients that accept seamless migration (the counter staying
    within int), leaving during_target_migrate and refs as they were. *)
Theorem set_migration_seamless_counts (client : RedClient)
    (channels : list RedChannelClient) :
  (red_client_set_migration_seamless accepts client channels = None <->
   during_target_migrate client = false) /\
  (0 <= num_migrated_channels client ->
   num_migrated_channels client + Z.of_nat (length channels) <= INT_MAX ->
   forall client',
     red_client_set_migration_seamless accepts client channels = Some client' ->
     during_target_migrate client' = true /\
     seamless_migrate client' = true /\
     num_migrated_channels client' =
       num_migrated_channels client +
       Z.of_nat (length (filter (fun r => accepts r = true) channels)) /\
     refs client' = refs client).
Proof.
  unfold red_client_set_migration_seamless.
  destruct (during_target_migrate client) eqn:Ed; cbn [negb].
  - split; [split; discriminate |].
    intros H0 Hb client' [= <-].
    rewrite count_seamless_num by (cbn; assumption). cbn. auto.
  - split; [tauto |]. intros _ _ client' H. discriminate.
Qed.

End ClientChannelsProperties.

Lemma notifications_app (a b : list Channel.event) :
  Channel.notifications (a ++ b) =
    (Channel.notifications a + Channel.notifications b)%nat.
Proof. unfold Channel.notifications. rewrite filter_app, length_app. reflexivity. Qed.

Lemma seamless_done_calls_before (j : nat) :
  forall (client : Channel.RedClient),
    Z.of_nat j < Channel.num_migrated_channels client <= INT_MAX ->
    Channel.seamless_done_calls j client =
      (replicate j false,
       Channel.mk_client (Channel.during_target_migrate client)
                         (Channel.seamless_migrate client)
                         (Channel.num_migrated_channels client - Z.of_nat j)
                         (Channel.refs client),
       concat (replicate j [Channel.EvLock; Channel.EvUnlock])).
Proof.
  unfold INT_MAX.
  induction j as [| j IH]; intros client Hn.
  - cbn. rewrite Z.sub_0_r. destruct client. reflexivity.
  - cbn [Channel.seamless_done_calls].
    unfold Channel.red_client_seamless_migration_done_for_channel.
    cbn [Channel.num_migrated_channels Channel.during_target_migrate
         Channel.seamless_migrate Channel.refs].
    rewrite to_int_small by lia.
    destruct (Z.eqb_spec (Channel.num_migrated_channels client - 1) 0); [lia |].
    rewrite IH by (cbn [Channel.num_migrated_channels]; lia).
    cbn [Channel.num_migrated_channels Channel.during_target_migrate
         Channel.seamless_migrate Channel.refs replicate concat app].
    replace (Channel.num_migrated_channels client - 1 - Z.of_nat j)
      with (Channel.num_migrated_channels client - Z.of_nat (S j)) by lia.
    reflexivity.
Qed.

Lemma seamless_done_calls_app (j k : nat) :
  forall (client : Channel.RedClient),
    Channel.seamless_done_calls (j + k) client =
      (let '(r1, c1, l1) := Channel.seamless_done_calls j client in
       let '(r2, c2, l2) := Channel.seamless_done_calls k c1 in
       (r1 ++ r2, c2, l1 ++ l2)).
Proof.
  induction j as [| j IH]; intros client.
  - cbn. destruct (Channel.seamless_done_calls k client) as [[r c] l]. reflexivity.
  - change (S j + k)%nat with (S (j + k)).
    cbn [Channel.seamless_done_calls].
    destruct (Channel.red_client_seamless_migration_done_for_channel client)
      as [[ret c0] log0].
    rewrite IH.
    destruct (Channel.seamless_done_calls j c0) as [[r1 c1] l1].
    destruct (Channel.seamless_done_calls k c1) as [[r2 c2] l2].
    rewrite <- app_assoc. reflexivity.
Qed.

Lemma notifications_idle (j : nat) :
  Channel.notifications
    (concat (replicate j [Channel.EvLock; Channel.EvUnlock])) = 0%nat.
Proof. induction j as [| j IH]; [reflexivity | exact IH]. Qed.

(** X12. With num_migrated_channels = k + 1, the first k calls of
    red_client_seamless_migration_done_for_channel return FALSE, leave the
    two migration flags as they are and notify nobody; the call after them
    returns TRUE, clears both flags, leaves the counter at 0 and notifies
    the main dispatcher once. *)
Theorem seamless_migration_countdown (k : nat) (client : Channel.RedClient) :
  Channel.num_migrated_channels client = Z.of_nat (S k) ->
  Z.of_nat (S k) <= INT_MAX ->
  (forall j, (j <= k)%nat ->
     let '(rets, client', log) := Channel.seamless_done_calls j client in
     rets = replicate j false /\
     Channel.during_target_migrate client' = Channel.during_target_migrate client /\
     Channel.seamless_migrate client' = Channel.seamless_migrate client /\
     Channel.notifications log = 0%nat) /\
  (let '(rets, client', log) := Channel.seamless_done_calls (S k) client in
   rets = replicate k false ++ [true] /\
   Channel.during_target_migrate client' = false /\
   Channel.seamless_migrate client' = false /\
   Channel.num_migrated_channels client' = 0 /\
   Channel.notifications log = 1%nat).
Proof.
  intros Hn Hb. split.
  - intros j Hj. rewrite seamless_done_calls_before by lia.
    repeat split. apply notifications_idle.
  - assert (Channel.seamless_done_calls (S k) client =
            Channel.seamless_done_calls (k + 1) client) as ->
      by (f_equal; lia).
    rewrite seamless_done_calls_app.
    rewrite seamless_done_calls_before by lia.
    cbn [Channel.seamless_done_calls].
    unfold Channel.red_client_seamless_migration_done_for_channel.
    cbn [Channel.num_migrated_channels Channel.during_target_migrate
         Channel.seamless_migrate Channel.refs].
    replace (Channel.num_migrated_channels client - Z.of_nat k - 1) with 0 by lia.
    change (to_int 0) with 0. cbn [Z.eqb].
    repeat split.
    rewrite notifications_app, notifications_idle. reflexivity.
Qed.

Lemma seamless_migration_countdown_witness :
  let '(rets, client', log) :=
    Channel.seamless_done_calls 3 (Channel.mk_client true true 3 1) in
  rets = [false; false; true] /\
  Channel.during_target_migrate client' = false /\
  Channel.seamless_migrate client' = false /\
  Channel.num_migrated_channels client' = 0 /\
  Channel.notifications log = 1%nat.
Proof.
  exact (proj2 (seamless_migration_countdown 2 (Channel.mk_client true true 3 1)
                  eq_refl ltac:(vm_compute; discriminate))).
Defined.

(** ** Frame headers: every length an [int] can hold *)

Lemma lor_disjoint_add (hi lo k : Z) :
  0 <= k -> 0 <= lo < 2 ^ k -> Z.lor (hi * 2 ^ k) lo = hi * 2 ^ k + lo.
Proof.
  intros Hk Hlo. rewrite <- Z.add_lor_land.
  assert (Z.land (hi * 2 ^ k) lo = 0) as ->; [| lia].
  apply Z.bits_inj'. intros n Hn. rewrite Z.land_spec, Z.bits_0.
  destruct (Z_lt_le_dec n k).
  - rewrite Z.mul_pow2_bits_low by lia. reflexivity.
  - destruct (Z.eq_dec lo 0) as [-> | Nz]; [rewrite Z.bits_0; apply andb_false_r |].
    rewrite (Z.bits_above_log2 lo n); [apply andb_false_r | lia |].
    apply Z.lt_le_trans with k; [| lia]. apply Z.log2_lt_pow2; lia.
Qed.

Lemma land_255 x : Z.land x 255 = x mod 256.
Proof. change 255 with (Z.ones 8). rewrite Z.land_ones by lia. reflexivity. Qed.

Lemma land_127 x : Z.land x 127 = x mod 128.
Proof. change 127 with (Z.ones 7). rewrite Z.land_ones by lia. reflexivity. Qed.

Lemma shiftr_8 x : Z.shiftr x 8 = x / 256.
Proof. rewrite Z.shiftr_div_pow2 by lia. reflexivity. Qed.

Lemma int_shl_small x i :
  0 <= i < 32 -> 0 <= x -> x * 2 ^ i < 2 ^ 31 -> int_shl x i = x * 2 ^ i.
Proof.
  intros Hi Hx Hb. unfold int_shl. rewrite Z.mod_small by lia.
  rewrite Z.shiftl_mul_pow2 by lia. apply to_int_small. nia.
Qed.

Lemma extract_length_64_bytes (b0 b1 b2 b3 b4 b5 b6 b7 b8 : Z) (rest : list Z)
    (used : Z) :
  Z.land b0 127 = 127 ->
  WebSocket.extract_length
    (b0 :: b1 :: b2 :: b3 :: b4 :: b5 :: b6 :: b7 :: b8 :: rest) used =
    (Z.lor (Z.lor (Z.lor (Z.lor (Z.lor (Z.lor (Z.lor (Z.lor 0
       (to_uint64 (int_shl b1 56))) (to_uint64 (int_shl b2 48)))
       (to_uint64 (int_shl b3 40))) (to_uint64 (int_shl b4 32)))
       (to_uint64 (int_shl b5 24))) (to_uint64 (int_shl b6 16)))
       (to_uint64 (int_shl b7 8))) (to_uint64 (int_shl b8 0)),
     used + 1 + 8).
Proof.
  intros H. unfold WebSocket.extract_length, WebSocket.extract_length_with.
  change (WebSocket.byte_at (b0 :: _) 0) with b0.
  change WebSocket.LENGTH_MASK with 127. rewrite H. reflexivity.
Qed.

Lemma extract_length_16_bytes (b0 b1 b2 : Z) (rest : list Z) (used : Z) :
  Z.land b0 127 = 126 ->
  WebSocket.extract_length (b0 :: b1 :: b2 :: rest) used =
    (to_uint64 (Z.lor (int_shl b1 8) b2), used + 1 + 2).
Proof.
  intros H. unfold WebSocket.extract_length, WebSocket.extract_length_with.
  change (WebSocket.byte_at (b0 :: _) 0) with b0.
  change WebSocket.LENGTH_MASK with 127. rewrite H. reflexivity.
Qed.

Lemma extract_length_7_bits (b0 : Z) (rest : list Z) (used : Z) :
  Z.land b0 127 < 126 ->
  WebSocket.extract_length (b0 :: rest) used = (Z.land b0 127, used + 1).
Proof.
  intros H. unfold WebSocket.extract_length, WebSocket.extract_length_with.
  change (WebSocket.byte_at (b0 :: _) 0) with b0.
  change WebSocket.LENGTH_MASK with 127.
  change WebSocket.LENGTH_64BIT with 127. change WebSocket.LENGTH_16BIT with 126.
  destruct (Z.eqb_spec (Z.land b0 127) 127); [lia |].
  destruct (Z.eqb_spec (Z.land b0 127) 126); [lia |]. reflexivity.
Qed.

(** The length [send_data_header_left] reads back from the header that
    [fill_header] wrote. *)
Lemma fill_header_reads_back (header : list Z) (L : Z) :
  length header = 14%nat ->
  0 <= L < 2 ^ 31 ->
  fst (WebSocket.extract_length
         (drop (Z.to_nat 1) (fst (WebSocket.fill_header header L))) 1) = L.
Proof.
  intros H HL.
  destruct (WebSocket.fill_header header L) as [h size] eqn:Ef.
  cbn [fst].
  header14 header H.
  unfold WebSocket.fill_header in Ef.
  change WebSocket.LENGTH_16BIT with 126 in Ef.
  change (Z.to_nat 1) with 1%nat.
  destruct (Z.gtb_spec L 65535) as [H64 | H64].
  - (* eight length bytes *)
    cbn in Ef. injection Ef as <-. cbn [drop].
    rewrite extract_length_64_bytes by reflexivity. cbn [fst].
    rewrite !shiftr_8, !land_255.
    set (d1 := L / 256). set (d2 := d1 / 256). set (d3 := d2 / 256).
    set (d4 := d3 / 256). set (d5 := d4 / 256). set (d6 := d5 / 256).
    set (d7 := d6 / 256).
    pose proof (Z.div_mod L 256 ltac:(lia)) as E0.
    pose proof (Z.div_mod d1 256 ltac:(lia)) as E1.
    pose proof (Z.div_mod d2 256 ltac:(lia)) as E2.
    pose proof (Z.mod_pos_bound L 256 ltac:(lia)) as B0.
    pose proof (Z.mod_pos_bound d1 256 ltac:(lia)) as B1.
    pose proof (Z.mod_pos_bound d2 256 ltac:(lia)) as B2.
    fold d1 in E0. fold d2 in E1. fold d3 in E2.
    assert (0 <= d1 < 2 ^ 23) as R1
      by (subst d1; split;
          [apply Z.div_pos | apply Z.div_lt_upper_bound]; lia).
    assert (0 <= d2 < 2 ^ 15) as R2
      by (subst d2; split;
          [apply Z.div_pos | apply Z.div_lt_upper_bound]; lia).
    assert (0 <= d3 < 2 ^ 7) as R3
      by (subst d3; split;
          [apply Z.div_pos | apply Z.div_lt_upper_bound]; lia).
    assert (d4 = 0) as Z4 by (subst d4; apply Z.div_small; lia).
    assert (d5 = 0) as Z5 by (subst d5; rewrite Z4; reflexivity).
    assert (d6 = 0) as Z6 by (subst d6; rewrite Z5; reflexivity).
    assert (d7 = 0) as Z7 by (subst d7; rewrite Z6; reflexivity).
    rewrite Z4, Z5, Z6, Z7. change (0 mod 256) with 0.
    clear Z4 Z5 Z6 Z7. clearbody d1 d2 d3. clear d4 d5 d6 d7.
    set (c0 := L mod 256) in *. set (c1 := d1 mod 256) in *.
    set (c2 := d2 mod 256) in *. clearbody c0 c1 c2.
    change (int_shl 0 56) with 0. change (int_shl 0 48) with 0.
    change (int_shl 0 40) with 0. change (int_shl 0 32) with 0.
    change (to_uint64 0) with 0. rewrite !Z.lor_0_l.
    assert (d3 mod 256 = d3) as -> by (apply Z.mod_small; lia).
    rewrite (int_shl_small d3 24) by lia.
    rewrite (int_shl_small c2 16) by lia.
    rewrite (int_shl_small c1 8) by lia.
    rewrite (int_shl_small c0 0) by lia.
    rewrite !to_uint64_small by lia.
    rewrite (lor_disjoint_add d3 (c2 * 2 ^ 16) 24) by lia.
    replace (d3 * 2 ^ 24 + c2 * 2 ^ 16) with ((d3 * 2 ^ 8 + c2) * 2 ^ 16) by lia.
    rewrite (lor_disjoint_add _ (c1 * 2 ^ 8) 16) by lia.
    replace ((d3 * 2 ^ 8 + c2) * 2 ^ 16 + c1 * 2 ^ 8)
      with (((d3 * 2 ^ 8 + c2) * 2 ^ 8 + c1) * 2 ^ 8) by lia.
    rewrite (lor_disjoint_add _ (c0 * 2 ^ 0) 8) by lia.
    lia.
  - destruct (Z.geb_spec L 126) as [H16 | H7].
    + (* two length bytes *)
      cbn in Ef. injection Ef as <-. cbn [drop].
      rewrite extract_length_16_bytes by reflexivity. cbn [fst].
      rewrite shiftr_8, land_255.
      pose proof (Z.div_mod L 256 ltac:(lia)) as E0.
      pose proof (Z.mod_pos_bound L 256 ltac:(lia)) as B0.
      assert (0 <= L / 256 < 2 ^ 8) as R1
        by (split; [apply Z.div_pos | apply Z.div_lt_upper_bound]; lia).
      rewrite to_uint8_small by lia.
      rewrite int_shl_small by lia.
      rewrite lor_disjoint_add by lia.
      rewrite to_uint64_small by lia. lia.
    + (* the length in the second byte *)
      cbn -[Z.lor to_uint8] in Ef. injection Ef as <-. cbn [drop].
      change (WebSocket.byte_at _ 1) with 0. rewrite Z.lor_0_l.
      rewrite to_uint8_small by lia.
      assert (Z.land L 127 = L) as E by (rewrite land_127; apply Z.mod_small; lia).
      rewrite extract_length_7_bits by lia. cbn [fst]. exact E.
Qed.

(** X13. For every length below 2^31, which is every length a raw write
    can report, a header filled by fill_header reads back through
    extract_length as the length it was filled for, and its size is the
    one of RFC 6455. *)
Theorem header_round_trip_below_2_31 (header : list Z) (L : Z) :
  length header = 14%nat ->
  0 <= L < 2 ^ 31 ->
  Samples.header_round_trip header L = (L, Samples.rfc6455_header_size L).
Proof.
  intros H HL. unfold Samples.header_round_trip.
  pose proof (fill_header_size header L) as Hsz.
  pose proof (fill_header_reads_back header L H HL) as Hrt.
  destruct (WebSocket.fill_header header L) as [h size].
  cbn [fst snd] in Hsz, Hrt. rewrite Hrt, Hsz. reflexivity.
Qed.

Lemma header_round_trip_below_2_31_witness :
  Samples.header_round_trip (WebSocket.write_header WebSocket.ws_zero) 70000 =
    (70000, 10).
Proof.
  exact (header_round_trip_below_2_31 (WebSocket.write_header WebSocket.ws_zero)
           70000 eq_refl ltac:(lia)).
Defined.

(** ** The vector handed to the raw writev *)

Lemma constrain_iov_concat (iov : list (list Z)) (maxlen : Z) :
  0 <= maxlen ->
  concat (WebSocket.constrain_iov iov maxlen) =
    take (Z.to_nat maxlen) (concat iov).
Proof.
  revert maxlen. induction iov as [| v iov IH]; intros maxlen Hm.
  - cbn. rewrite take_nil. reflexivity.
  - cbn [WebSocket.constrain_iov concat].
    destruct (Z.gtb_spec maxlen 0) as [Hp | Hz].
    + destruct (Z.gtb_spec (Z.of_nat (length v)) maxlen) as [Hl | Hl].
      * cbn [concat]. rewrite app_nil_r.
        rewrite take_app_le by lia. reflexivity.
      * cbn [concat]. rewrite IH by lia.
        rewrite take_app_ge by lia.
        replace (Z.to_nat maxlen - length v)%nat
          with (Z.to_nat (maxlen - Z.of_nat (length v))) by lia.
        reflexivity.
    + assert (maxlen = 0) as -> by lia. reflexivity.
Qed.

(** X14. The vector constrain_iov gives to the raw writev holds the first
    maxlen bytes of the caller's vector (all of them when there are
    fewer), in no more entries than the caller's. *)
Theorem constrain_iov_is_prefix (iov : list (list Z)) (maxlen : Z) :
  0 <= maxlen ->
  concat (WebSocket.constrain_iov iov maxlen) =
    take (Z.to_nat maxlen) (concat iov) /\
  (length (WebSocket.constrain_iov iov maxlen) <= length iov)%nat /\
  Z.of_nat (length (concat (WebSocket.constrain_iov iov maxlen))) =
    Z.min maxlen (Z.of_nat (length (concat iov))).
Proof.
  intros Hm. split; [apply constrain_iov_concat; exact Hm |]. split.
  - clear Hm. revert maxlen.
    induction iov as [| v iov IH]; intros maxlen; cbn; [lia |].
    destruct (maxlen >? 0); [| cbn; lia].
    destruct (Z.of_nat (length v) >? maxlen); cbn; [lia |].
    specialize (IH (maxlen - Z.of_nat (length v))). lia.
  - rewrite constrain_iov_concat by exact Hm. rewrite length_take. lia.
Qed.

Lemma constrain_iov_is_prefix_witness :
  concat (WebSocket.constrain_iov [[1; 2]; [3; 4; 5]] 3) = [1; 2; 3].
Proof.
  exact (proj1 (constrain_iov_is_prefix [[1; 2]; [3; 4; 5]] 3 ltac:(lia))).
Defined.

(** ** The inbound header array *)

Section HeaderWithin.
Import WebSocket Behaviour.

(** The size of the header that the second byte announces. *)
Lemma frame_bytes_needed_cases (f : websocket_frame_t) :
  (header_pos f < 2 /\ frame_bytes_needed f = 2 - header_pos f) \/
  (2 <= header_pos f /\
   exists total, 2 <= total <= 14 /\
     frame_bytes_needed f = total - header_pos f /\
     forall g, byte_at (header g) 1 = byte_at (header f) 1 ->
               2 <= header_pos g ->
               frame_bytes_needed g = total - header_pos g).
Proof.
  unfold frame_bytes_needed.
  destruct (Z.ltb_spec (header_pos f) 2) as [Hl | Hg]; [left; auto |].
  right. split; [assumption |].
  set (l := Z.land (byte_at (header f) 1) LENGTH_MASK).
  set (mk := negb (Z.land (byte_at (header f) 1) MASK_FLAG =? 0)).
  exists ((if l =? LENGTH_64BIT then 2 + 8
           else if l =? LENGTH_16BIT then 2 + 2 else 2) +
          (if mk then 4 else 0)).
  repeat split.
  - destruct (l =? LENGTH_64BIT), (l =? LENGTH_16BIT), mk; lia.
  - destruct (l =? LENGTH_64BIT), (l =? LENGTH_16BIT), mk; lia.
  - destruct (l =? LENGTH_64BIT), (l =? LENGTH_16BIT), mk; lia.
  - intros g Hb Hp. rewrite Hb. fold l mk.
    destruct (Z.ltb_spec (header_pos g) 2); [lia |].
    destruct (l =? LENGTH_64BIT), (l =? LENGTH_16BIT), mk; lia.
Qed.

Lemma header_within_upper (f : websocket_frame_t) :
  0 <= header_pos f -> frame_bytes_needed f <= 14 - header_pos f.
Proof.
  intros Hp. destruct (frame_bytes_needed_cases f)
    as [[_ ->] | (_ & total & Ht & -> & _)]; lia.
Qed.

Lemma store_header_within (f : websocket_frame_t) (rc : Z) (data : list Z) :
  header_within f ->
  frame_ready f = false ->
  0 < rc <= frame_bytes_needed f ->
  header_within (store_header f rc data) /\
  frame_ready (store_header f rc data) = false.
Proof.
  intros (Hlen & Hpos & Hneed) Hr Hrc. specialize (Hneed Hr).
  change WEBSOCKET_MAX_HEADER_SIZE with 14 in *.
  unfold store_header. cbv zeta.
  cbn [header header_pos set_header set_header_pos frame_ready].
  assert (to_int (header_pos f + rc) = header_pos f + rc) as Epos
    by (apply to_int_small; lia).
  split; [| exact Hr].
  unfold header_within.
  cbn [header header_pos set_header set_header_pos frame_ready].
  change WEBSOCKET_MAX_HEADER_SIZE with 14.
  rewrite Epos, length_inserts.
  split; [exact Hlen |]. split; [lia |]. intros _.
  match goal with
  | |- _ <= frame_bytes_needed ?g <= _ => set (f' := g)
  end.
  assert (header_pos f' = header_pos f + rc) as Hp' by (subst f'; reflexivity).
  split; [| rewrite <- Hp'; apply header_within_upper; lia].
  destruct (frame_bytes_needed_cases f)
    as [[Hlt En] | (Hge & total & Ht & En & Hsame)].
  - destruct (frame_bytes_needed_cases f')
      as [[_ ->] | (_ & total' & Ht' & -> & _)]; lia.
  - rewrite (Hsame f'); [lia | | lia].
    subst f'. cbn [header set_header set_header_pos]. unfold byte_at.
    rewrite list_lookup_inserts_lt by lia. reflexivity.
Qed.

Lemma frame_bytes_needed_same (f g : websocket_frame_t) :
  header g = header f -> header_pos g = header_pos f ->
  frame_bytes_needed g = frame_bytes_needed f.
Proof. intros Eh Ep. unfold frame_bytes_needed. rewrite Eh, Ep. reflexivity. Qed.

Lemma header_within_same (f g : websocket_frame_t) :
  header_within f -> frame_ready f = false ->
  header g = header f -> header_pos g = header_pos f ->
  header_within g.
Proof.
  intros (Hlen & Hpos & Hneed) Hr Eh Ep. unfold header_within.
  rewrite (frame_bytes_needed_same f g Eh Ep), Eh, Ep. auto.
Qed.

Lemma get_frame_header_same (f : websocket_frame_t) :
  header (snd (websocket_get_frame_header f)) = header f /\
  header_pos (snd (websocket_get_frame_header f)) = header_pos f.
Proof.
  unfold websocket_get_frame_header.
  destruct f as [ty hd pos rdy msk mk rel el]. cbv zeta.
  cbn [header type set_type set_masked masked header_pos frame_ready mask
       relayed expected_len].
  repeat match goal with
         | |- context [if ?c then _ else _] =>
             lazymatch c with
             | context [if _ then _ else _] => fail
             | _ => destruct c
             end
         | |- context [let '(_, _) := ?p in _] => destruct p
         end; cbn; auto.
Qed.

Lemma get_frame_header_within (f : websocket_frame_t) :
  header_within f -> frame_ready f = false ->
  header_within (snd (websocket_get_frame_header f)).
Proof.
  intros H Hr. destruct (get_frame_header_same f) as [Eh Ep].
  apply (header_within_same f); assumption.
Qed.

Lemma clear_frame_within (f : websocket_frame_t) :
  header_within (websocket_clear_frame f).
Proof.
  unfold header_within. split; [reflexivity |].
  change WEBSOCKET_MAX_HEADER_SIZE with 14.
  change (header_pos (websocket_clear_frame f)) with 0.
  change (frame_bytes_needed (websocket_clear_frame f)) with 2.
  split; [lia |]. intros _. lia.
Qed.

Lemma header_within_ready (f g : websocket_frame_t) :
  header_within f ->
  header g = header f -> header_pos g = header_pos f ->
  frame_ready g = true ->
  header_within g.
Proof.
  intros (Hlen & Hpos & _) Eh Ep Hr. unfold header_within.
  rewrite Eh, Ep, Hr. repeat split; try assumption; try apply Hpos.
  all: discriminate.
Qed.

Lemma relay_data_within (buf : list Z) (size : Z) (f : websocket_frame_t) :
  header_within f -> frame_ready f = true ->
  header_within (snd (relay_data buf size f)).
Proof.
  intros H Hr. unfold relay_data.
  destruct (masked f); [| exact H].
  destruct (relay_loop _ _ _ _) as [b r]. cbn [snd].
  apply (header_within_ready f); auto.
Qed.

End HeaderWithin.

Section HeaderWithinReachable.
Import WebSocket Behaviour.
Context {Stream : Type}.
Variable raw_read : Env Stream -> Z -> Env Stream * Z * list Z.
Variable raw_write : Env Stream -> list Z -> Z -> Env Stream * Z.
Variable raw_writev : Env Stream -> list (list Z) -> Env Stream * Z.
Hypothesis Hread : raw_read_contract Stream raw_read.

Lemma send_data_header_left_read_frame (ws : RedsWebSocket) (e : Env Stream) :
  read_frame (snd (fst (send_data_header_left Stream raw_write ws e))) =
    read_frame ws.
Proof.
  unfold send_data_header_left.
  destruct (raw_write e _ _) as [e1 rc].
  destruct (to_int rc <=? 0); [reflexivity |].
  cbn [write_header_pos write_header_len set_write_header_pos].
  destruct (_ >=? _); [| reflexivity].
  destruct (extract_length _ _). reflexivity.
Qed.

Lemma send_pending_data_read_frame (ws : RedsWebSocket) (e : Env Stream) :
  read_frame (snd (fst (send_pending_data Stream raw_write ws e))) =
    read_frame ws.
Proof.
  unfold send_pending_data.
  destruct (write_remainder ws =? 0); cbn [negb]; [| reflexivity].
  destruct (write_header_pos ws <? write_header_len ws).
  - pose proof (send_data_header_left_read_frame ws e) as H.
    destruct (send_data_header_left _ _ ws e) as [[rc ws'] e'].
    destruct (rc <=? 0); exact H.
  - destruct (close_pending ws); [| reflexivity].
    unfold websocket_ack_close.
    destruct (raw_write e _ _) as [e1 rc].
    destruct (to_int rc =? 2); cbn; destruct (_ <=? 0); reflexivity.
Qed.

Lemma websocket_write_read_frame (ws ws' : RedsWebSocket) (buf : list Z)
    (rc : Z) (e e' : Env Stream) :
  websocket_write Stream raw_write ws buf e = Some (rc, ws', e') ->
  read_frame ws' = read_frame ws.
Proof.
  unfold websocket_write.
  destruct (closed ws); [intros [= <- <- <-]; reflexivity |].
  pose proof (send_pending_data_read_frame ws e) as Hs.
  destruct (send_pending_data _ _ ws e) as [[rc1 ws1] e1]. cbn [fst snd] in Hs.
  destruct (rc1 <=? 0); [intros [= <- <- <-]; exact Hs |].
  destruct (write_remainder ws1 =? 0).
  - unfold send_data_header.
    destruct (negb _); [discriminate |].
    destruct (negb _); [discriminate |].
    destruct (fill_header _ _) as [hdr used].
    match goal with
    | |- context [send_data_header_left _ _ ?w ?e0] =>
        pose proof (send_data_header_left_read_frame w e0) as H2;
        destruct (send_data_header_left _ _ w e0) as [[rc2 ws2] e2]
    end.
    cbn [fst snd] in H2. cbn [read_frame set_write_header_len set_write_header
                              set_write_header_pos] in H2.
    destruct (rc2 <=? 0); [intros [= <- <- <-]; congruence |].
    destruct (raw_write e2 _ _) as [e3 rc3]. cbv zeta.
    destruct (to_int rc3 >? 0); intros [= <- <- <-]; cbn; congruence.
  - destruct (raw_write e1 _ _) as [e3 rc3]. cbv zeta.
    destruct (to_int rc3 >? 0); intros [= <- <- <-]; cbn; congruence.
Qed.

Lemma websocket_writev_read_frame (ws ws' : RedsWebSocket)
    (iov : list (list Z)) (rc : Z) (e e' : Env Stream) :
  websocket_writev Stream raw_write raw_writev ws iov e = (rc, ws', e') ->
  read_frame ws' = read_frame ws.
Proof.
  unfold websocket_writev.
  destruct (closed ws); [intros [= <- <- <-]; reflexivity |].
  pose proof (send_pending_data_read_frame ws e) as Hs.
  destruct (send_pending_data _ _ ws e) as [[rc1 ws1] e1]. cbn [fst snd] in Hs.
  destruct (rc1 <=? 0); [intros [= <- <- <-]; exact Hs |].
  destruct (write_remainder ws1 >? 0).
  - destruct (raw_writev e1 _) as [e2 rc2].
    destruct (to_int rc2 <=? 0); intros [= <- <- <-]; cbn; congruence.
  - destruct (fill_header _ _) as [hdr used].
    destruct (raw_writev e1 _) as [e2 rc2].
    destruct (to_int rc2 <=? 0); [intros [= <- <- <-]; cbn; congruence |].
    destruct (to_int rc2 <? _); intros [= <- <- <-]; cbn; congruence.
Qed.

Lemma read_loop_header_within (fuel : nat) :
  forall ws buf wire n size e r,
    header_within (read_frame ws) ->
    read_loop Stream raw_read raw_write fuel ws buf wire n size e = Some r ->
    header_within (read_frame (r_ws Stream r)).
Proof using Hread.
  induction fuel as [| fuel IH]; intros ws buf wire n size e r H;
    cbn [read_loop].
  - destruct (size <=? 0); [intros [= <-]; exact H | discriminate].
  - destruct (size <=? 0); [intros [= <-]; exact H |].
    destruct (frame_ready (read_frame ws)) eqn:Hr; cbn [negb].
    + destruct (type (read_frame ws) =? CLOSE_FRAME).
      { match goal with
        | |- context [send_pending_data _ _ ?w ?e0] =>
            pose proof (send_pending_data_read_frame w e0) as Hs;
            destruct (send_pending_data _ _ w e0) as [[rc ws'] e']
        end.
        intros [= <-]. cbn [r_ws fst snd] in *. rewrite Hs. cbn.
        apply clear_frame_within. }
      destruct (type (read_frame ws) =? BINARY_FRAME).
      * destruct (raw_read e _) as [[e1 rc0] data].
        destruct (to_int rc0 <=? 0).
        { intros [= <-]. unfold read_error.
          destruct (_ && _ && _); [exact H |].
          destruct (to_int rc0 =? 0); exact H. }
        pose proof (relay_data_within (take (Z.to_nat (to_int rc0)) data)
                      (to_int rc0) (read_frame ws) H Hr) as Hrd.
        destruct (relay_data _ _ _) as [[rc1 plain] f']. cbn [snd] in Hrd.
        apply IH. cbn [read_frame set_read_frame].
        destruct (_ >=? _); [apply clear_frame_within | exact Hrd].
      * apply IH. cbn. apply clear_frame_within.
    + pose proof H as (_ & Hpos & Hneed). specialize (Hneed Hr).
      pose proof (Hread e (frame_bytes_needed (read_frame ws)) ltac:(lia)) as Hc.
      destruct (raw_read e _) as [[e1 rc0] data].
      destruct Hc as [Hrc _].
      change WEBSOCKET_MAX_HEADER_SIZE with 14 in *.
      assert (to_int rc0 = rc0) as -> by (apply to_int_small; lia).
      destruct (Z.leb_spec rc0 0).
      { intros [= <-]. unfold read_error.
        destruct (_ && _ && _); [exact H |].
        destruct (rc0 =? 0); exact H. }
      destruct (store_header_within (read_frame ws) rc0 data H Hr ltac:(lia))
        as [Hst Hnr].
      pose proof (get_frame_header_within _ Hst Hnr) as Hg.
      destruct (websocket_get_frame_header _) as [ok f']. cbn [snd] in Hg.
      destruct ok; cbn [negb].
      * apply IH. exact Hg.
      * intros [= <-]. exact Hg.
Qed.

Lemma reachable_header_within (ws : RedsWebSocket) :
  reachable Stream raw_read raw_write raw_writev ws ->
  header_within (read_frame ws).
Proof using Hread.
  induction 1 as [| fuel ws size e r _ IH Hrun
                  | ws buf e rc ws' e' _ IH Hrun
                  | ws iov e rc ws' e' _ IH Hrun].
  - apply (clear_frame_within (read_frame ws_zero)).
  - unfold websocket_read in Hrun.
    destruct (closed ws || close_pending ws).
    + destruct (raw_read e 128) as [[e1 rc] data].
      injection Hrun as <-. exact IH.
    + eapply read_loop_header_within; eassumption.
  - rewrite (websocket_write_read_frame _ _ _ _ _ _ Hrun). exact IH.
  - rewrite (websocket_writev_read_frame _ _ _ _ _ _ Hrun). exact IH.
Qed.

(** X15. Over a raw read within its contract, every handle reachable from
    websocket_new keeps the inbound header inside its 14-byte array: the
    cursor header_pos is between 0 and 14, and while a header is being
    read the count websocket_read asks the raw read for is not negative
    and fits between the cursor and the end of the array. *)
Theorem header_reads_stay_in_array (ws : RedsWebSocket) :
  reachable Stream raw_read raw_write raw_writev ws ->
  length (header (read_frame ws)) = 14%nat /\
  0 <= header_pos (read_frame ws) <= 14 /\
  (frame_ready (read_frame ws) = false ->
   0 <= frame_bytes_needed (read_frame ws) <= 14 - header_pos (read_frame ws)).
Proof using Hread.
  intros H. exact (reachable_header_within ws H).
Qed.

End HeaderWithinReachable.

Lemma header_reads_stay_in_array_witness :
  length (WebSocket.header (WebSocket.read_frame Samples.ws_after_partial_header))
    = 14%nat /\
  WebSocket.header_pos (WebSocket.read_frame Samples.ws_after_partial_header) = 1 /\
  0 <= WebSocket.frame_bytes_needed
         (WebSocket.read_frame Samples.ws_after_partial_header) <= 14 - 1.
Proof.
  assert (exists r,
             Loopback.ws_read 2 WebSocket.ws_zero 8 (Loopback.start [0x82] 100) =
               Some r /\
             WebSocket.r_ws _ r = Samples.ws_after_partial_header)
    as (r & E & Er)
    by (eexists; split; vm_compute; reflexivity).
  pose proof (header_reads_stay_in_array Loopback.read Loopback.write
                Loopback.writev loopback_read_contract _
                (WebSocket.reachable_read _ _ _ _ _ _ _ _ _
                   (WebSocket.reachable_new _ _ _ _) E)) as H.
  rewrite Er in H. destruct H as (H1 & _ & H3).
  split; [exact H1 |]. split; [reflexivity |].
  exact (H3 eq_refl).
Defined.

(** ** What a read returns *)

Section ReadOutcome.
Import WebSocket Behaviour.
Context {Stream : Type}.
Variable raw_read : Env Stream -> Z -> Env Stream * Z * list Z.
Variable raw_write : Env Stream -> list Z -> Z -> Env Stream * Z.
Variable raw_writev : Env Stream -> list (list Z) -> Env Stream * Z.
Hypothesis Hread : raw_read_contract Stream raw_read.





End ReadOutcome.


(** ** Masking is its own inverse *)

Lemma relay_loop_twice (cnt : nat) (m : list Z) :
  forall buf rel,
    WebSocket.relay_loop cnt (fst (WebSocket.relay_loop cnt buf m rel)) m rel =
      (buf, snd (WebSocket.relay_loop cnt buf m rel)).
Proof.
  induction cnt as [| cnt IH]; intros buf rel; [reflexivity |].
  destruct buf as [| b buf]; cbn [WebSocket.relay_loop].
  - specialize (IH [] (to_uint64 (rel + 1))).
    assert (fst (WebSocket.relay_loop cnt [] m (to_uint64 (rel + 1))) = []) as E.
    { pose proof (relay_loop_length cnt [] m (to_uint64 (rel + 1))) as H.
      destruct (fst _); [reflexivity | discriminate H]. }
    rewrite E in IH.
    destruct (WebSocket.relay_loop cnt [] m (to_uint64 (rel + 1))) as [o r].
    cbn [fst snd] in *. subst o. cbn [WebSocket.relay_loop]. exact IH.
  - specialize (IH buf (to_uint64 (rel + 1))).
    destruct (WebSocket.relay_loop cnt buf m (to_uint64 (rel + 1))) as [o r].
    cbn [fst snd] in *. cbn [WebSocket.relay_loop]. rewrite IH.
    rewrite Z.lxor_assoc, Z.lxor_nilpotent, Z.lxor_0_r. reflexivity.
Qed.

(** X17. relay_data is its own inverse: run again on its output, from the
    frame as it was before, it gives back the bytes it was given, with the
    same count and the same frame afterwards.  The buffer keeps its
    length. *)
Theorem relay_data_twice (buf : list Z) (size : Z)
    (frame : WebSocket.websocket_frame_t) :
  let '(n, out, frame') := WebSocket.relay_data buf size frame in
  WebSocket.relay_data out size frame = (n, buf, frame') /\
  length out = length buf.
Proof.
  unfold WebSocket.relay_data.
  destruct (WebSocket.masked frame); [| auto].
  set (n := to_int _).
  pose proof (relay_loop_twice (Z.to_nat n) (WebSocket.mask frame) buf
                (WebSocket.relayed frame)) as H.
  pose proof (relay_loop_length (Z.to_nat n) buf (WebSocket.mask frame)
                (WebSocket.relayed frame)) as Hl.
  destruct (WebSocket.relay_loop (Z.to_nat n) buf _ _) as [out rel].
  cbn [fst snd] in *. rewrite H. auto.
Qed.

(** ** The closing handshake *)

Ltac frame_fields :=
  cbn [WebSocket.type WebSocket.header WebSocket.header_pos
       WebSocket.frame_ready WebSocket.masked WebSocket.mask
       WebSocket.relayed WebSocket.expected_len
       WebSocket.set_type WebSocket.set_header WebSocket.set_header_pos
       WebSocket.set_frame_ready WebSocket.set_masked WebSocket.set_mask
       WebSocket.set_relayed WebSocket.set_expected_len].

Ltac handle_fields :=
  cbn [WebSocket.closed WebSocket.read_frame WebSocket.write_remainder
       WebSocket.write_header WebSocket.write_header_pos
       WebSocket.write_header_len WebSocket.close_pending
       WebSocket.set_closed WebSocket.set_read_frame
       WebSocket.set_write_remainder WebSocket.set_write_header
       WebSocket.set_write_header_pos WebSocket.set_write_header_len
       WebSocket.set_close_pending].

Section CloseHandshake.
Import WebSocket Behaviour.
Context {Stream : Type}.
Variable raw_read : Env Stream -> Z -> Env Stream * Z * list Z.
Variable raw_write : Env Stream -> list Z -> Z -> Env Stream * Z.

(** The header of a close frame after its first two bytes, and after the
    mask when it has one. *)
Lemma close_header_parsed (b1 : Z) (pos : Z) (rest : list Z) :
  Z.land b1 LENGTH_MASK < 126 ->
  pos = (if Z.land b1 MASK_FLAG =? 0 then 2 else 6) ->
  exists f,
    websocket_get_frame_header
      (mk_frame 0 (0x88 :: b1 :: rest) pos false false (replicate 4 0) 0 0) =
      (true, f) /\
    frame_ready f = true /\ type f = CLOSE_FRAME.
Proof.
  intros Hl ->.
  assert (0 <= Z.land b1 LENGTH_MASK) as Hl0.
  { apply Z.land_nonneg. right. unfold LENGTH_MASK. lia. }
  unfold websocket_get_frame_header, frame_bytes_needed.
  cbn [header header_pos].
  change (byte_at (0x88 :: b1 :: rest) 1) with b1.
  change (byte_at (0x88 :: b1 :: rest) 0) with 0x88.
  change LENGTH_64BIT with 127. change LENGTH_16BIT with 126.
  destruct (Z.eqb_spec (Z.land b1 LENGTH_MASK) 127); [lia |].
  destruct (Z.eqb_spec (Z.land b1 LENGTH_MASK) 126); [lia |].
  set (pos := if Z.land b1 MASK_FLAG =? 0 then 2 else 6).
  assert ((pos <? 2) = false) as -> by (subst pos; destruct (_ =? 0); reflexivity).
  assert (((if negb (Z.land b1 MASK_FLAG =? 0) then 2 + 4 else 2) - pos >? 0)
          = false) as ->
    by (subst pos; destruct (_ =? 0); reflexivity).
  frame_fields.
  change (byte_at (0x88 :: b1 :: rest) 1) with b1.
  change (byte_at (0x88 :: b1 :: rest) 0) with 0x88.
  change (Z.land 136 RSV_MASK) with 0. change (Z.land 136 FIN_FLAG) with 128.
  change (Z.land 136 TYPE_MASK) with 8.
  change (Z.land 8 CONTROL_FRAME_MASK) with 8.
  change (Z.land 8 (Z.lnot CONTROL_FRAME_MASK)) with 0.
  cbn [Z.eqb negb andb Z.geb Z.compare].
  frame_fields.
  change (Z.to_nat (0 + 1)) with 1%nat. cbn [drop].
  rewrite extract_length_7_bits by exact Hl.
  frame_fields.
  change (8 =? CONTINUATION_FRAME) with false.
  destruct (negb (Z.land b1 MASK_FLAG =? 0));
    frame_fields;
    change (Z.land 8 CONTROL_FRAME_MASK) with 8; cbn [Z.eqb negb andb];
    (destruct (Z.geb_spec (Z.land b1 127) 126) as [Hg | Hg];
     [change LENGTH_MASK with 127 in Hl; lia |]);
    eexists; (split; [reflexivity | split; reflexivity]).
Qed.

Lemma close_header_waits_for_mask (b1 : Z) (rest : list Z) :
  Z.land b1 LENGTH_MASK < 126 ->
  (Z.land b1 MASK_FLAG =? 0) = false ->
  let f := mk_frame 0 (0x88 :: b1 :: rest) 2 false false (replicate 4 0) 0 0 in
  frame_bytes_needed f = 4 /\ websocket_get_frame_header f = (true, f).
Proof.
  intros Hl Hm f.
  assert (frame_bytes_needed f = 4) as E.
  { unfold frame_bytes_needed, f. frame_fields.
    change (byte_at (0x88 :: b1 :: rest) 1) with b1.
    change LENGTH_64BIT with 127. change LENGTH_16BIT with 126.
    destruct (Z.eqb_spec (Z.land b1 LENGTH_MASK) 127); [lia |].
    destruct (Z.eqb_spec (Z.land b1 LENGTH_MASK) 126); [lia |].
    rewrite Hm. reflexivity. }
  split; [exact E |].
  unfold websocket_get_frame_header. rewrite E. reflexivity.
Qed.

Lemma list_inserts_skip (i : nat) (k : list Z) (a : Z) (l : list Z) :
  list_inserts (S i) k (a :: l) = a :: list_inserts i k l.
Proof.
  revert i. induction k as [| y k IH]; intros i; [reflexivity |].
  cbn [list_inserts]. rewrite IH. reflexivity.
Qed.

(** X18. On an open handle at a frame boundary, with nothing pending on the
    way out, a read that meets the header of a close frame (88, then a
    length below 126, then the mask when the mask bit is set) returns 0
    with nothing delivered, clears the frame and writes the two bytes 88 00
    of the acknowledgement; when the raw write takes both the handle is
    closed, otherwise the handle stays open with the close pending. *)
Theorem close_frame_is_acknowledged (fuel : nat) (ws : RedsWebSocket)
    (size b1 rcw : Z) (m : list Z) (e e1 e2 e3 : Env Stream) :
  write_idle ws ->
  read_frame ws = websocket_clear_frame (read_frame ws) ->
  0 < size ->
  Z.land b1 LENGTH_MASK < 126 ->
  raw_read e 2 = (e1, 2, [0x88; b1]) ->
  (if Z.land b1 MASK_FLAG =? 0 then e2 = e1
   else raw_read e1 4 = (e2, 4, m)) ->
  raw_write e2 [0x88; 0] 2 = (e3, rcw) ->
  exists r,
    websocket_read Stream raw_read raw_write (S (S (S fuel))) ws size e =
      Some r /\
    r_ret Stream r = 0 /\ r_buf Stream r = [] /\ r_env Stream r = e3 /\
    read_frame (r_ws Stream r) = websocket_clear_frame (read_frame ws) /\
    (if to_int rcw =? 2
     then closed (r_ws Stream r) = true /\ close_pending (r_ws Stream r) = false
     else closed (r_ws Stream r) = false /\ close_pending (r_ws Stream r) = true).
Proof.
  intros (Hc & Hp & Hr & Hpos & Hlen) Hf Hs Hl Hr1 Hr2 Hw.
  assert (forall fuel ws' buf wire n e0 f,
            frame_ready f = true -> type f = CLOSE_FRAME ->
            read_frame ws' = f ->
            closed ws' = false ->
            write_remainder ws' = 0 ->
            write_header_len ws' <= write_header_pos ws' ->
            raw_write e0 [0x88; 0] 2 = (e3, rcw) ->
            exists r,
              read_loop Stream raw_read raw_write (S fuel) ws' buf wire n size e0 =
                Some r /\
              r_ret Stream r = 0 /\ r_buf Stream r = buf /\ r_env Stream r = e3 /\
              read_frame (r_ws Stream r) = websocket_clear_frame f /\
              (if to_int rcw =? 2
               then closed (r_ws Stream r) = true /\
                    close_pending (r_ws Stream r) = false
               else closed (r_ws Stream r) = false /\
                    close_pending (r_ws Stream r) = true)) as Hclose.
  { clear - Hs. intros fuel ws' buf wire n e0 f Hrd Ht Ef Hc Hr Hpos Hw.
    cbn [read_loop].
    destruct (Z.leb_spec size 0); [lia |].
    rewrite Ef, Hrd, Ht. cbn [negb]. rewrite Z.eqb_refl.
    unfold send_pending_data. handle_fields. rewrite Hr. cbn [Z.eqb negb].
    destruct (Z.ltb_spec (write_header_pos ws') (write_header_len ws')); [lia |].
    unfold websocket_ack_close.
    change [Z.lor FIN_FLAG CLOSE_FRAME; 0] with [0x88; 0]. rewrite Hw.
    destruct (Z.eqb_spec (to_int rcw) 2) as [E2 | E2].
    - rewrite E2. cbn [Z.leb Z.compare]. eexists. split; [reflexivity |].
      cbn. repeat split.
    - destruct (to_int rcw <=? 0); eexists; (split; [reflexivity |]);
        cbn; rewrite Hc; repeat split. }
  unfold websocket_read. rewrite Hc, Hp. cbn [orb].
  set (f0 := websocket_clear_frame (read_frame ws)) in *.
  remember (S (S fuel)) as fuel2 eqn:Ef2.
  cbn [read_loop]. subst fuel2.
  destruct (Z.leb_spec size 0); [lia |].
  rewrite Hf.
  change (frame_ready f0) with false. cbn [negb].
  change (frame_bytes_needed f0) with 2. rewrite Hr1.
  change (to_int 2 <=? 0) with false. cbv iota.
  change (store_header f0 (to_int 2) [0x88; b1])
    with (mk_frame 0 (0x88 :: b1 :: replicate 12 0) 2 false false
                   (replicate 4 0) 0 0).
  destruct (Z.land b1 MASK_FLAG =? 0) eqn:Em.
  - subst e2.
    destruct (close_header_parsed b1 2 (replicate 12 0) Hl
                ltac:(rewrite Em; reflexivity)) as (f & -> & Hrd & Ht).
    cbn [negb].
    destruct (Hclose (S fuel) (set_read_frame f ws) [] [] 0 e1 f Hrd Ht
                eq_refl Hc Hr Hpos Hw) as (r & -> & H1 & H2 & H3 & H4 & H5).
    exists r. split; [reflexivity |]. repeat split; assumption.
  - destruct (close_header_waits_for_mask b1 (replicate 12 0) Hl Em)
      as [Hn ->].
    cbn [negb]. remember (S fuel) as fuel1 eqn:Ef1.
    cbn [read_loop]. subst fuel1.
    destruct (Z.leb_spec size 0); [lia |].
    handle_fields. frame_fields. cbn [negb].
    rewrite Hn, Hr2.
    change (to_int 4 <=? 0) with false. cbv iota.
    unfold store_header. frame_fields.
    change (Z.to_nat 2) with 2%nat. rewrite !list_inserts_skip.
    change (to_int (2 + to_int 4)) with 6.
    unfold set_header_pos, set_header. frame_fields.
    destruct (close_header_parsed b1 6
                (list_inserts 0 (take (Z.to_nat (to_int 4)) m) (replicate 12 0))
                Hl ltac:(rewrite Em; reflexivity)) as (f & -> & Hrd & Ht).
    cbn [negb].
    destruct (Hclose fuel (set_read_frame f (set_read_frame
                 (mk_frame 0 (0x88 :: b1 :: replicate 12 0) 2 false false
                           (replicate 4 0) 0 0) ws)) [] [] 0 e2 f Hrd Ht
                eq_refl Hc Hr Hpos Hw) as (r & -> & H1 & H2 & H3 & H4 & H5).
    exists r. split; [reflexivity |]. repeat split; assumption.
Qed.

End CloseHandshake.

Lemma close_frame_is_acknowledged_witness :
  exists r,
    Loopback.ws_read 3 WebSocket.ws_zero 8
                     (Loopback.start Samples.close_masked 100) = Some r /\
    WebSocket.r_ret _ r = 0 /\
    WebSocket.closed (WebSocket.r_ws _ r) = true /\
    Loopback.outbound (WebSocket.stream _ (WebSocket.r_env _ r)) = [0x88; 0x00].
Proof.
  set (e := Loopback.start Samples.close_masked 100).
  set (e1 := fst (fst (Loopback.read e 2))).
  set (e2 := fst (fst (Loopback.read e1 4))).
  set (e3 := fst (Loopback.write e2 [0x88; 0] 2)).
  destruct (close_frame_is_acknowledged Loopback.read Loopback.write 0
              WebSocket.ws_zero 8 0x80 2 [0x01; 0x02; 0x03; 0x04] e e1 e2 e3)
    as (r & E & H1 & _ & H3 & _ & H5).
  - repeat split; cbn; lia.
  - reflexivity.
  - lia.
  - vm_compute. reflexivity.
  - reflexivity.
  - reflexivity.
  - reflexivity.
  - exists r. split; [exact E |]. split; [exact H1 |].
    split; [apply H5 |]. rewrite H3. reflexivity.
Defined.

(** ** Outbound frames *)

Section WriteFrames.
Import WebSocket Behaviour.
Context {Stream : Type}.
Variable raw_write : Env Stream -> list Z -> Z -> Env Stream * Z.

Lemma websocket_write_new_frame (ws : RedsWebSocket) (buf : list Z)
    (e e1 e2 : Env Stream) (k : Z) :
  let len := Z.of_nat (length buf) in
  let hdr := fst (fill_header (write_header ws) len) in
  let used := Samples.rfc6455_header_size len in
  write_idle ws ->
  len <= INT_MAX ->
  raw_write e (take (Z.to_nat used) hdr) used = (e1, used) ->
  raw_write e1 buf len = (e2, k) ->
  0 <= k <= len ->
  websocket_write Stream raw_write ws buf e =
    Some (k, mk_ws false (read_frame ws) (len - k) hdr used used false, e2).
Proof.
  intros len hdr used (Hc & Hp & Hr & Hpos & Hlen) Hmax Hw1 Hw2 Hk.
  unfold INT_MAX in Hmax.
  assert (2 <= used <= 10) as Hused
    by (subst used; unfold Samples.rfc6455_header_size;
        destruct (_ <? _); [lia | destruct (_ <=? _); lia]).
  unfold websocket_write. rewrite Hc.
  unfold send_pending_data. rewrite Hr, Hp. cbn [Z.eqb negb].
  destruct (Z.ltb_spec (write_header_pos ws) (write_header_len ws)); [lia |].
  cbn [Z.leb Z.compare]. rewrite Hr. cbn [Z.eqb].
  unfold send_data_header. rewrite Hr. cbn [Z.eqb negb].
  destruct (Z.geb_spec (write_header_pos ws) (write_header_len ws)); [| lia].
  cbn [negb].
  pose proof (fill_header_size (write_header ws) len) as Hsz.
  pose proof (fill_header_reads_back (write_header ws) len Hlen ltac:(lia)) as Hrt.
  fold len. fold used in Hsz. fold hdr in Hrt.
  cbn [write_header set_write_header_pos].
  destruct (fill_header (write_header ws) len) as [hdr0 used0] eqn:Ef.
  cbn [fst snd] in *. subst hdr used0.
  unfold send_data_header_left.
  cbn [write_header_len write_header_pos write_header set_write_header_len
       set_write_header set_write_header_pos].
  rewrite Z.sub_0_r. change (Z.to_nat 0) with 0%nat. rewrite drop_0.
  rewrite Hw1. rewrite (to_int_small used) by lia.
  destruct (Z.leb_spec used 0); [lia |].
  cbn [write_header_len write_header_pos write_header set_write_header_len
       set_write_header set_write_header_pos].
  rewrite Z.add_0_l, (to_uint8_small used) by lia.
  destruct (Z.geb_spec used used); [| lia].
  destruct (extract_length (drop (Z.to_nat 1) hdr0) 1) as [l u] eqn:El.
  cbn [fst] in Hrt. subst l.
  destruct (Z.leb_spec used 0); [lia |].
  cbn [write_remainder set_write_remainder].
  assert (take (Z.to_nat len) buf = buf) as ->
    by (subst len; rewrite Nat2Z.id; apply firstn_all).
  rewrite Hw2.
  rewrite (to_int_small k) by lia.
  destruct (Z.gtb_spec k 0).
  - rewrite to_uint64_small by lia.
    unfold set_write_remainder, set_write_header_pos, set_write_header_len,
      set_write_header. cbn. rewrite Hc, Hp. reflexivity.
  - assert (k = 0) as -> by lia. rewrite Z.sub_0_r.
    unfold set_write_remainder, set_write_header_pos, set_write_header_len,
      set_write_header. cbn. rewrite Hc, Hp. reflexivity.
Qed.

(** X19. On an idle handle, websocket_write of a buffer of at most INT_MAX
    bytes over a raw write that takes what it is given writes the header
    of RFC 6455 for the length and then the buffer, returns the length of
    the buffer and leaves the handle idle, the inbound frame untouched. *)
Theorem write_sends_header_then_payload (ws : RedsWebSocket) (buf : list Z)
    (e e1 e2 : Env Stream) :
  let len := Z.of_nat (length buf) in
  let hdr := fst (fill_header (write_header ws) len) in
  let used := Samples.rfc6455_header_size len in
  write_idle ws ->
  len <= INT_MAX ->
  raw_write e (take (Z.to_nat used) hdr) used = (e1, used) ->
  raw_write e1 buf len = (e2, len) ->
  exists ws',
    websocket_write Stream raw_write ws buf e = Some (len, ws', e2) /\
    write_idle ws' /\ read_frame ws' = read_frame ws.
Proof.
  intros len hdr used Hi Hmax Hw1 Hw2.
  pose proof (websocket_write_new_frame ws buf e e1 e2 len Hi Hmax Hw1 Hw2
                ltac:(lia)) as E.
  cbv zeta in E. fold len hdr used in E. rewrite Z.sub_diag in E.
  eexists. split; [exact E |].
  split; [| reflexivity].
  unfold write_idle. cbn.
  repeat split; try lia.
  subst hdr. destruct Hi as (_ & _ & _ & _ & Hl).
  unfold fill_header.
  destruct (_ >? _); [| destruct (_ >=? _)]; cbn [fst];
    rewrite ?length_insert; try exact Hl.
  cbn [fold_left]. cbn [fst]. rewrite !length_insert. exact Hl.
Qed.

(** X20. When the raw write takes the header and only k of the bytes of
    the buffer, websocket_write returns k and owes the rest of the frame;
    the next websocket_write, given the rest of the buffer, writes it
    without a header, and once the raw write has taken it nothing is
    owed. *)
Theorem write_resumes_frame_body (ws : RedsWebSocket) (buf : list Z)
    (e e1 e2 e3 e4 : Env Stream) (k : Z) :
  let len := Z.of_nat (length buf) in
  let hdr := fst (fill_header (write_header ws) len) in
  let used := Samples.rfc6455_header_size len in
  write_idle ws ->
  len <= INT_MAX ->
  0 < k < len ->
  raw_write e (take (Z.to_nat used) hdr) used = (e1, used) ->
  raw_write e1 buf len = (e2, k) ->
  raw_write e3 (drop (Z.to_nat k) buf) (len - k) = (e4, len - k) ->
  exists ws1 ws2,
    websocket_write Stream raw_write ws buf e = Some (k, ws1, e2) /\
    write_remainder ws1 = len - k /\
    websocket_write Stream raw_write ws1 (drop (Z.to_nat k) buf) e3 =
      Some (len - k, ws2, e4) /\
    write_remainder ws2 = 0.
Proof.
  intros len hdr used Hi Hmax Hk Hw1 Hw2 Hw3.
  pose proof (websocket_write_new_frame ws buf e e1 e2 k Hi Hmax Hw1 Hw2
                ltac:(lia)) as E.
  cbv zeta in E. fold len hdr used in E.
  unfold INT_MAX in Hmax.
  eexists. eexists. split; [exact E |]. split; [reflexivity |].
  unfold websocket_write. cbn [closed].
  unfold send_pending_data. cbn [write_remainder].
  destruct (Z.eqb_spec (len - k) 0); [lia |]. cbn [negb Z.leb Z.compare].
  cbn [write_remainder].
  destruct (Z.eqb_spec (len - k) 0); [lia |].
  rewrite length_drop.
  replace (Z.of_nat (length buf - Z.to_nat k)) with (len - k) by lia.
  rewrite Z.min_id.
  replace (Z.to_nat (len - k)) with (length (drop (Z.to_nat k) buf))
    by (rewrite length_drop; lia).
  rewrite firstn_all. rewrite Hw3.
  rewrite (to_int_small (len - k)) by lia.
  destruct (Z.gtb_spec (len - k) 0); [| lia].
  split; [reflexivity |]. cbn. rewrite Z.sub_diag. reflexivity.
Qed.

End WriteFrames.

Lemma write_sends_header_then_payload_witness :
  exists ws',
    Loopback.ws_write WebSocket.ws_zero [0x41; 0x42; 0x43] (Loopback.start [] 100) =
      Some (3, ws',
            WebSocket.mk_env _
              (Loopback.mk_pipe [] [0x82; 0x03; 0x41; 0x42; 0x43] 100) 0) /\
    WebSocket.write_remainder ws' = 0.
Proof.
  destruct (write_sends_header_then_payload Loopback.write WebSocket.ws_zero
              [0x41; 0x42; 0x43] (Loopback.start [] 100)
              (WebSocket.mk_env _ (Loopback.mk_pipe [] [0x82; 0x03] 100) 0)
              (WebSocket.mk_env _
                 (Loopback.mk_pipe [] [0x82; 0x03; 0x41; 0x42; 0x43] 100) 0))
    as (ws' & E & Hi & _).
  - repeat split; cbn; lia.
  - vm_compute. discriminate.
  - reflexivity.
  - reflexivity.
  - exists ws'. split; [exact E | apply Hi].
Defined.

Lemma write_resumes_frame_body_witness :
  exists ws1 ws2 e2 e4,
    Loopback.ws_write WebSocket.ws_zero [0x41; 0x42; 0x43] (Loopback.start [] 2) =
      Some (2, ws1, e2) /\
    Loopback.ws_write ws1 [0x43] e2 = Some (1, ws2, e4) /\
    WebSocket.write_remainder ws2 = 0 /\
    Loopback.outbound (WebSocket.stream _ e4) = [0x82; 0x03; 0x41; 0x42; 0x43].
Proof.
  set (e := Loopback.start [] 2).
  set (e1 := fst (Loopback.write e [0x82; 0x03] 2)).
  set (e2 := fst (Loopback.write e1 [0x41; 0x42; 0x43] 3)).
  set (e4 := fst (Loopback.write e2 [0x43] 1)).
  destruct (write_resumes_frame_body Loopback.write WebSocket.ws_zero
              [0x41; 0x42; 0x43] e e1 e2 e2 e4 2)
    as (ws1 & ws2 & E1 & _ & E2 & H).
  - repeat split; cbn; lia.
  - vm_compute. discriminate.
  - cbn. lia.
  - reflexivity.
  - reflexivity.
  - reflexivity.
  - exists ws1, ws2, e2, e4. repeat split; assumption.
Defined.

Lemma fill_header_length (header : list Z) (len : Z) :
  length (fst (WebSocket.fill_header header len)) = length header.
Proof.
  unfold WebSocket.fill_header.
  destruct (_ >? _); [| destruct (_ >=? _)]; cbn [fst];
    rewrite ?length_insert; try reflexivity.
  cbn [fold_left]. cbn [fst]. rewrite !length_insert. reflexivity.
Qed.

Lemma iov_total_length (iov : list (list Z)) :
  Z.of_nat (length (concat iov)) < 2 ^ 64 ->
  fold_left (fun len (v : list Z) => to_uint64 (len + Z.of_nat (length v))) iov 0 =
    Z.of_nat (length (concat iov)).
Proof.
  assert (forall l acc,
            0 <= acc -> acc + Z.of_nat (length (concat l)) < 2 ^ 64 ->
            fold_left (fun len (v : list Z) => to_uint64 (len + Z.of_nat (length v))) l acc
            = acc + Z.of_nat (length (concat l))) as G.
  { induction l as [| v l IH]; intros acc Ha Hb; cbn [fold_left concat].
    - cbn. lia.
    - cbn [concat] in Hb. rewrite length_app in *.
      rewrite to_uint64_small by lia. rewrite IH by lia. lia. }
  intros H. rewrite G; lia.
Qed.

Section WritevFrames.
Import WebSocket Behaviour.
Context {Stream : Type}.
Variable raw_write : Env Stream -> list Z -> Z -> Env Stream * Z.
Variable raw_writev : Env Stream -> list (list Z) -> Env Stream * Z.

Lemma websocket_writev_new_frame (ws : RedsWebSocket) (iov : list (list Z))
    (e e1 : Env Stream) (k : Z) :
  let len := Z.of_nat (length (concat iov)) in
  let hdr := fst (fill_header (write_header ws) len) in
  let used := Samples.rfc6455_header_size len in
  write_idle ws ->
  used + len <= INT_MAX ->
  raw_writev e (take (Z.to_nat used) hdr :: iov) = (e1, used + k) ->
  0 <= k <= len ->
  websocket_writev Stream raw_write raw_writev ws iov e =
    (k, mk_ws false (read_frame ws) (len - k) hdr used used false, e1).
Proof.
  intros len hdr used (Hc & Hp & Hr & Hpos & Hlen) Hmax Hw Hk.
  unfold INT_MAX in Hmax.
  assert (2 <= used <= 10) as Hused
    by (subst used; unfold Samples.rfc6455_header_size;
        destruct (_ <? _); [lia | destruct (_ <=? _); lia]).
  unfold websocket_writev. rewrite Hc.
  unfold send_pending_data. rewrite Hr, Hp. cbn [Z.eqb negb].
  destruct (Z.ltb_spec (write_header_pos ws) (write_header_len ws)); [lia |].
  cbn [Z.leb Z.compare]. rewrite Hr. cbn [Z.gtb Z.compare].
  rewrite iov_total_length by (fold len; lia). fold len.
  pose proof (fill_header_size (write_header ws) len) as Hsz.
  fold used in Hsz.
  cbn [write_header set_write_header_pos].
  destruct (fill_header (write_header ws) len) as [hdr0 used0] eqn:Ef.
  cbn [fst snd] in *. subst hdr used0.
  cbn [write_header_len write_header_pos write_header set_write_header_len
       set_write_header set_write_header_pos].
  rewrite Hw. rewrite (to_int_small (used + k)) by lia.
  destruct (Z.leb_spec (used + k) 0); [lia |].
  destruct (Z.ltb_spec (used + k) used); [lia |].
  replace (used + k - used) with k by lia.
  rewrite to_uint64_small by lia.
  unfold set_write_remainder, set_write_header_pos, set_write_header_len,
    set_write_header. cbn. rewrite Hc, Hp. reflexivity.
Qed.

(** X21. On an idle handle, websocket_writev of a vector (header and bytes
    together within INT_MAX) over a raw writev that takes everything hands
    it the header of RFC 6455 for the total length followed by the
    caller's vector, returns the total length and leaves the handle idle,
    the inbound frame untouched. *)
Theorem writev_sends_header_with_payload (ws : RedsWebSocket)
    (iov : list (list Z)) (e e1 : Env Stream) :
  let len := Z.of_nat (length (concat iov)) in
  let hdr := fst (fill_header (write_header ws) len) in
  let used := Samples.rfc6455_header_size len in
  write_idle ws ->
  used + len <= INT_MAX ->
  raw_writev e (take (Z.to_nat used) hdr :: iov) = (e1, used + len) ->
  exists ws',
    websocket_writev Stream raw_write raw_writev ws iov e = (len, ws', e1) /\
    write_idle ws' /\ read_frame ws' = read_frame ws.
Proof.
  intros len hdr used Hi Hmax Hw.
  pose proof (websocket_writev_new_frame ws iov e e1 len Hi Hmax Hw
                ltac:(lia)) as E.
  cbv zeta in E. fold len hdr used in E. rewrite Z.sub_diag in E.
  eexists. split; [exact E |]. split; [| reflexivity].
  unfold write_idle. cbn.
  repeat split; try lia.
  subst hdr. rewrite fill_header_length. apply Hi.
Qed.

(** X22. When the raw writev takes the header and only k of the bytes,
    websocket_writev returns k and owes the rest of the frame; the next
    websocket_writev, given the rest, hands the raw writev those bytes and
    no header, and once they are taken nothing is owed. *)
Theorem writev_resumes_frame_body (ws : RedsWebSocket)
    (iov iov2 : list (list Z)) (e e1 e2 e3 : Env Stream) (k : Z) :
  let len := Z.of_nat (length (concat iov)) in
  let hdr := fst (fill_header (write_header ws) len) in
  let used := Samples.rfc6455_header_size len in
  write_idle ws ->
  used + len <= INT_MAX ->
  0 <= k < len ->
  raw_writev e (take (Z.to_nat used) hdr :: iov) = (e1, used + k) ->
  concat iov2 = drop (Z.to_nat k) (concat iov) ->
  raw_writev e2 (constrain_iov iov2 (len - k)) = (e3, len - k) ->
  exists ws1 ws2,
    websocket_writev Stream raw_write raw_writev ws iov e = (k, ws1, e1) /\
    write_remainder ws1 = len - k /\
    concat (constrain_iov iov2 (len - k)) = drop (Z.to_nat k) (concat iov) /\
    websocket_writev Stream raw_write raw_writev ws1 iov2 e2 =
      (len - k, ws2, e3) /\
    write_remainder ws2 = 0.
Proof.
  intros len hdr used Hi Hmax Hk Hw Hrest Hw2.
  pose proof (websocket_writev_new_frame ws iov e e1 k Hi Hmax Hw
                ltac:(lia)) as E.
  cbv zeta in E. fold len hdr used in E.
  unfold INT_MAX in Hmax.
  assert (2 <= used) as Hused
    by (subst used; unfold Samples.rfc6455_header_size;
        destruct (_ <? _); [lia | destruct (_ <=? _); lia]).
  eexists. eexists. split; [exact E |]. split; [reflexivity |].
  split.
  { rewrite (constrain_iov_concat iov2 (len - k)) by lia.
    rewrite Hrest. apply take_ge. rewrite length_drop. lia. }
  unfold websocket_writev. cbn [closed].
  unfold send_pending_data. cbn [write_remainder].
  destruct (Z.eqb_spec (len - k) 0); [lia |]. cbn [negb Z.leb Z.compare].
  cbn [write_remainder].
  destruct (Z.gtb_spec (len - k) 0); [| lia].
  rewrite Hw2. rewrite (to_int_small (len - k)) by lia.
  destruct (Z.leb_spec (len - k) 0); [lia |].
  split; [reflexivity |]. cbn. rewrite Z.sub_diag. reflexivity.
Qed.

End WritevFrames.

Lemma writev_sends_header_with_payload_witness :
  exists ws',
    Loopback.ws_writev WebSocket.ws_zero [[0x41]; [0x42; 0x43]]
                       (Loopback.start [] 100) =
      (3, ws',
       WebSocket.mk_env _
         (Loopback.mk_pipe [] [0x82; 0x03; 0x41; 0x42; 0x43] 100) 0) /\
    WebSocket.write_remainder ws' = 0.
Proof.
  destruct (writev_sends_header_with_payload Loopback.write Loopback.writev
              WebSocket.ws_zero [[0x41]; [0x42; 0x43]] (Loopback.start [] 100)
              (WebSocket.mk_env _
                 (Loopback.mk_pipe [] [0x82; 0x03; 0x41; 0x42; 0x43] 100) 0))
    as (ws' & E & Hi & _).
  - repeat split; cbn; lia.
  - vm_compute. discriminate.
  - reflexivity.
  - exists ws'. split; [exact E | apply Hi].
Defined.

Lemma writev_resumes_frame_body_witness :
  exists ws1 ws2 e1 e3,
    Loopback.ws_writev WebSocket.ws_zero [[0x41]; [0x42; 0x43]]
                       (Loopback.start [] 4) = (2, ws1, e1) /\
    Loopback.ws_writev ws1 [[0x43]] e1 = (1, ws2, e3) /\
    WebSocket.write_remainder ws2 = 0 /\
    Loopback.outbound (WebSocket.stream _ e3) = [0x82; 0x03; 0x41; 0x42; 0x43].
Proof.
  set (e := Loopback.start [] 4).
  set (e1 := fst (Loopback.writev e [[0x82; 0x03]; [0x41]; [0x42; 0x43]])).
  set (e3 := fst (Loopback.writev e1 [[0x43]])).
  destruct (writev_resumes_frame_body Loopback.write Loopback.writev
              WebSocket.ws_zero [[0x41]; [0x42; 0x43]] [[0x43]] e e1 e1 e3 2)
    as (ws1 & ws2 & E1 & _ & _ & E2 & H).
  - repeat split; cbn; lia.
  - vm_compute. discriminate.
  - cbn. lia.
  - reflexivity.
  - reflexivity.
  - reflexivity.
  - exists ws1, ws2, e1, e3. repeat split; assumption.
Defined.

(** ** The accept token of an accepted request *)

Section HandshakeKey.
Import WebSocket.

Lemma bytes_eqb_eq (a b : list Z) : bytes_eqb a b = true -> a = b.
Proof.
  revert b. induction a as [| x a IH]; intros [| y b]; cbn; try discriminate.
  - reflexivity.
  - intros H. apply andb_true_iff in H. destruct H as [Hx Hr].
    apply Z.eqb_eq in Hx. subst y. f_equal. apply IH. exact Hr.
Qed.

Lemma strcasestr_found (hay needle s : list Z) :
  strcasestr hay needle = Some s ->
  prefix_ci needle s = true /\ exists pre, hay = pre ++ s.
Proof.
  induction hay as [| c hay IH]; cbn [strcasestr].
  - destruct (prefix_ci needle []) eqn:E; [| discriminate].
    intros [= <-]. split; [exact E | exists []; reflexivity].
  - destruct (prefix_ci needle (c :: hay)) eqn:E.
    + intros [= <-]. split; [exact E | exists []; reflexivity].
    + intros H. destruct (IH H) as [Hp [pre ->]].
      split; [exact Hp | exists (c :: pre); reflexivity].
Qed.

Lemma prefix_ci_split (needle s : list Z) :
  prefix_ci needle s = true ->
  length (take (length needle) s) = length needle /\
  prefix_ci needle (take (length needle) s) = true.
Proof.
  revert s. induction needle as [| a needle IH]; intros s; cbn.
  - rewrite take_0. auto.
  - destruct s as [| b s]; [discriminate |].
    intros H. apply andb_true_iff in H. destruct H as [Hc Hr].
    destruct (IH s Hr) as [Hl Hp]. cbn. rewrite Hc, Hp, Hl. auto.
Qed.

Lemma prefix_ci_last (needle a : list Z) (x z : Z) :
  length needle = length a ->
  prefix_ci (needle ++ [x]) (a ++ [z]) = true ->
  tolower x = tolower z.
Proof.
  revert a. induction needle as [| c needle IH]; intros [| d a] Hl; cbn;
    try discriminate Hl.
  - intros H. destruct (Z.eqb_spec (tolower x) (tolower z));
      [assumption | discriminate H].
  - intros H. destruct (tolower c =? tolower d); [| discriminate H].
    apply (IH a); [cbn in Hl; lia | exact H].
Qed.

Lemma g_str_has_suffix_app (str suffix : list Z) :
  g_str_has_suffix str suffix = true -> exists pre, str = pre ++ suffix.
Proof.
  unfold g_str_has_suffix.
  destruct (_ <? _)%nat; [discriminate |].
  intros H. apply bytes_eqb_eq in H.
  set (k := (length str - length suffix)%nat) in *.
  exists (take k str). rewrite <- H. symmetry. apply take_drop.
Qed.

Lemma strchr_In (s : list Z) (c : Z) :
  In c s -> exists p, strchr s c = Some p.
Proof.
  induction s as [| x s IH]; [intros [] |].
  cbn. destruct (Z.eqb_spec x c) as [-> | N].
  - intros _. exists 0%nat. reflexivity.
  - intros [? | Hin]; [congruence |].
    destruct (IH Hin) as [p ->]. exists (S p). reflexivity.
Qed.

Lemma list_end_cases (l : list Z) : l = [] \/ exists l' x, l = l' ++ [x].
Proof.
  induction l as [| x l _] using rev_ind; [left; reflexivity |].
  right. exists l, x. reflexivity.
Qed.

(** In a buffer that ends in CR LF CR LF, what follows a match of the
    key header's name has a CR. *)
Lemma key_line_has_cr (buf key : list Z) :
  find_str buf (LF :: bytes_of "Sec-WebSocket-Key:") = Some key ->
  g_str_has_suffix buf [CR; LF; CR; LF] = true ->
  In CR key.
Proof.
  unfold find_str.
  set (needle := LF :: bytes_of "Sec-WebSocket-Key:").
  destruct (strcasestr buf needle) as [s |] eqn:Es; [| discriminate].
  intros [= <-] Hsuf.
  destruct (strcasestr_found _ _ _ Es) as [Hp [pre Hbuf]].
  destruct (prefix_ci_split _ _ Hp) as [Hl Ha].
  destruct (g_str_has_suffix_app _ _ Hsuf) as [pre' Hbuf'].
  rewrite <- (take_drop (length needle) s) in Hbuf.
  set (a := take (length needle) s) in *.
  change (drop 19 s) with (drop (length needle) s).
  set (key := drop (length needle) s) in *.
  clearbody a key. clear Es Hp Hsuf s. subst buf.
  change needle with ((LF :: bytes_of "Sec-WebSocket-Key") ++ [58]) in Ha, Hl.
  assert (exists a' z, a = a' ++ [z]) as (a' & z & ->).
  { destruct (list_end_cases a) as [-> | H]; [discriminate Hl | exact H]. }
  rewrite !length_app in Hl. cbn [length] in Hl.
  apply prefix_ci_last in Ha; [| cbn [length]; lia].
  destruct (list_end_cases key) as [-> | (k1 & x & ->)].
  - exfalso. rewrite app_nil_r in Hbuf'.
    change [CR; LF; CR; LF] with ([CR; LF; CR] ++ [LF]) in Hbuf'.
    rewrite !app_assoc in Hbuf'. apply app_inj_tail in Hbuf'.
    destruct Hbuf' as [_ ->]. discriminate Ha.
  - change [CR; LF; CR; LF] with ([CR; LF; CR] ++ [LF]) in Hbuf'.
    rewrite !app_assoc in Hbuf'. apply app_inj_tail in Hbuf'.
    destruct Hbuf' as [Hbuf' ->].
    destruct (list_end_cases k1) as [-> | (k2 & y & ->)].
    + exfalso. rewrite app_nil_r in Hbuf'.
      change [CR; LF; CR] with ([CR; LF] ++ [CR]) in Hbuf'.
      rewrite !app_assoc in Hbuf'. apply app_inj_tail in Hbuf'.
      destruct Hbuf' as [_ ->]. discriminate Ha.
    + change [CR; LF; CR] with ([CR; LF] ++ [CR]) in Hbuf'.
      rewrite !app_assoc in Hbuf'. apply app_inj_tail in Hbuf'.
      destruct Hbuf' as [_ ->].
      apply in_or_app. left. apply in_or_app. right. left. reflexivity.
Qed.

Variable sha1_base64 : list Z -> list Z.

(** X23. A request that websocket_is_start accepts always has a reply key:
    the text after the key header's name has a CR, so generate_reply_key
    returns the digest of the stripped key followed by the GUID, never
    NULL. *)
Theorem accepted_request_has_reply_key (buf : list Z) :
  websocket_is_start buf = true ->
  exists key p,
    find_str buf (LF :: bytes_of "Sec-WebSocket-Key:") = Some key /\
    strchr key CR = Some p /\
    generate_reply_key sha1_base64 buf =
      Some (sha1_base64 (g_strstrip (take p key) ++ WEBSOCKET_GUID)).
Proof.
  unfold websocket_is_start, generate_reply_key.
  destruct (find_str buf (LF :: bytes_of "Sec-WebSocket-Protocol:"));
    [| discriminate].
  destruct (find_str buf (LF :: bytes_of "Sec-WebSocket-Key:")) as [key |] eqn:Ek;
    [| discriminate].
  destruct (strncmp_eq buf (bytes_of "GET ")); cbn [negb orb]; [| discriminate].
  destruct (g_str_has_suffix buf [CR; LF; CR; LF]) eqn:Es; cbn [negb];
    [| discriminate].
  intros _.
  destruct (strchr_In key CR (key_line_has_cr buf key Ek Es)) as [p Hp].
  exists key, p. rewrite Hp. auto.
Qed.

End HandshakeKey.

Lemma accepted_request_has_reply_key_witness :
  exists key p,
    WebSocket.find_str (Samples.handshake_request " binary")
      (WebSocket.LF :: WebSocket.bytes_of "Sec-WebSocket-Key:") = Some key /\
    WebSocket.strchr key WebSocket.CR = Some p /\
    WebSocket.generate_reply_key Samples.sample_digest
      (Samples.handshake_request " binary") =
      Some (Samples.sample_digest
              (WebSocket.g_strstrip (take p key) ++ WebSocket.WEBSOCKET_GUID)).
Proof.
  exact (accepted_request_has_reply_key Samples.sample_digest
           (Samples.handshake_request " binary") ltac:(vm_compute; reflexivity)).
Defined.
